(** * The multi-provider account registry of [src/main/settings.ts]

    A shallow embedding of [SettingsManager]: the persisted [AppSettings]
    are an explicit value threaded through every method (electron-store
    re-reads the settings file on each [get], so a method never shares an
    object with the store; state passing is exact).  The event emitter is
    write-only for the manager and is left out.

    JavaScript strings are sequences of UTF-16 code units.  A property that
    may be missing at run time is an [option]: [None] is [undefined]. *)

From Stdlib Require Import NArith ZArith Lia Ascii String.
From stdpp Require Import base decidable option numbers list.

(** ** Strings *)

Definition jsstring := list N.

Definition lit (s : string) : jsstring :=
  map N_of_ascii (list_ascii_of_string s).

(** Truthiness of a JavaScript string, and of a property that may be
    undefined: the empty string and [undefined] are falsy. *)
Definition nonempty (s : jsstring) : bool :=
  match s with
  | [] => false
  | _ :: _ => true
  end.

Definition truthy (v : option jsstring) : bool :=
  match v with
  | Some s => nonempty s
  | None => false
  end.

(** [a || b] on properties. *)
Definition js_or (a b : option jsstring) : option jsstring :=
  if truthy a then a else b.

(** ** Data model *)

(** [workspaceRole: string | null], possibly absent as well. *)
Inductive Nullable :=
  | JsUndefined
  | JsNull
  | JsString (s : jsstring).

(** [interface ClaudeAccount].  The objects are built from JSON through
    unchecked casts ([as ClaudeAccount], [any]), so each property may be
    absent at run time. *)
Record ClaudeAccount := mkClaudeAccount {
  accountUuid : option jsstring;
  emailAddress : option jsstring;
  organizationUuid : option jsstring;
  organizationRole : option jsstring;
  workspaceRole : Nullable;
  organizationName : option jsstring;
  authorization : option jsstring
}.

(** [interface ThirdPartyAccount]. *)
Record ThirdPartyAccount := mkThirdPartyAccount {
  tp_id : jsstring;
  tp_name : jsstring;
  apiKey : jsstring;
  baseUrl : jsstring;
  description : option jsstring
}.

(** [type ProviderType = 'claude_official' | 'third_party']. *)
Inductive ProviderType :=
  | claude_official
  | third_party.

#[global] Instance ProviderType_eq_dec : EqDecision ProviderType.
Proof. solve_decision. Defined.

(** An element of [accounts: ClaudeAccount[] | ThirdPartyAccount[]].  The
    methods cast the array by the operation, not by the provider's type, so
    one array can hold both shapes. *)
Inductive Account :=
  | Official (a : ClaudeAccount)
  | ThirdParty (a : ThirdPartyAccount).

(** Property reads on an account of either shape. *)
Definition acc_emailAddress (acc : Account) : option jsstring :=
  match acc with
  | Official a => emailAddress a
  | ThirdParty _ => None
  end.

Definition acc_id (acc : Account) : option jsstring :=
  match acc with
  | Official _ => None
  | ThirdParty a => Some (tp_id a)
  end.

Definition acc_authorization (acc : Account) : option jsstring :=
  match acc with
  | Official a => authorization a
  | ThirdParty _ => None
  end.

(** [interface ServiceProvider].  [activeAccountId] is assigned from
    [accounts[0].id], which is undefined on an official account. *)
Record ServiceProvider := mkServiceProvider {
  sp_id : jsstring;
  sp_type : ProviderType;
  sp_name : jsstring;
  accounts : list Account;
  activeAccountId : option jsstring;
  useProxy : bool
}.

Record ProxyAuth := mkProxyAuth {
  username : option jsstring;
  password : option jsstring
}.

Record ProxyConfig := mkProxyConfig {
  enabled : option bool;
  url : option jsstring;
  auth : option ProxyAuth
}.

Record Terminal := mkTerminal {
  fontSize : option N;
  fontFamily : option jsstring;
  theme : option jsstring;
  skipPermissions : option bool
}.

Record ProjectFilter := mkProjectFilter {
  hiddenDirectories : option (list jsstring)
}.

Record ApiProvider := mkApiProvider {
  ap_id : jsstring;
  ap_name : jsstring;
  ap_baseUrl : jsstring;
  ap_apiKey : jsstring
}.

(** [interface AppSettings]: the content of the store. *)
Record AppSettings := mkAppSettings {
  proxyConfig : ProxyConfig;
  apiProviders : list ApiProvider;
  activeProviderId : jsstring;
  serviceProviders : list ServiceProvider;
  activeServiceProviderId : jsstring;
  terminal : Terminal;
  projectFilter : ProjectFilter
}.

Definition defaultSettings : AppSettings :=
  {| proxyConfig :=
       {| enabled := Some false;
          url := Some (lit "http://127.0.0.1:1087");
          auth := None |};
     apiProviders := [];
     activeProviderId := [];
     serviceProviders := [];
     activeServiceProviderId := [];
     terminal :=
       {| fontSize := Some 14%N;
          fontFamily := Some (lit "Monaco, Consolas, monospace");
          theme := Some (lit "dark");
          skipPermissions := Some true |};
     projectFilter :=
       {| hiddenDirectories :=
            Some (map lit
              [ ".git"; ".svn"; ".hg"; "node_modules"; ".DS_Store";
                ".vscode"; ".idea"; "dist"; "build"; ".next"; ".nuxt";
                "coverage"; ".nyc_output"; "tmp"; "temp"; ".cache";
                ".parcel-cache"; ".env.local"; ".env.development.local";
                ".env.test.local"; ".env.production.local" ]%string) |} |}.

(** ** Store writes: [this.store.set(key, value)] *)

Definition set_proxyConfig (v : ProxyConfig) (s : AppSettings) : AppSettings :=
  {| proxyConfig := v;
     apiProviders := apiProviders s;
     activeProviderId := activeProviderId s;
     serviceProviders := serviceProviders s;
     activeServiceProviderId := activeServiceProviderId s;
     terminal := terminal s;
     projectFilter := projectFilter s |}.

Definition set_activeProviderId (v : jsstring) (s : AppSettings) : AppSettings :=
  {| proxyConfig := proxyConfig s;
     apiProviders := apiProviders s;
     activeProviderId := v;
     serviceProviders := serviceProviders s;
     activeServiceProviderId := activeServiceProviderId s;
     terminal := terminal s;
     projectFilter := projectFilter s |}.

Definition set_serviceProviders (v : list ServiceProvider) (s : AppSettings)
  : AppSettings :=
  {| proxyConfig := proxyConfig s;
     apiProviders := apiProviders s;
     activeProviderId := activeProviderId s;
     serviceProviders := v;
     activeServiceProviderId := activeServiceProviderId s;
     terminal := terminal s;
     projectFilter := projectFilter s |}.

Definition set_activeServiceProviderId (v : jsstring) (s : AppSettings)
  : AppSettings :=
  {| proxyConfig := proxyConfig s;
     apiProviders := apiProviders s;
     activeProviderId := activeProviderId s;
     serviceProviders := serviceProviders s;
     activeServiceProviderId := v;
     terminal := terminal s;
     projectFilter := projectFilter s |}.

Definition set_terminal (v : Terminal) (s : AppSettings) : AppSettings :=
  {| proxyConfig := proxyConfig s;
     apiProviders := apiProviders s;
     activeProviderId := activeProviderId s;
     serviceProviders := serviceProviders s;
     activeServiceProviderId := activeServiceProviderId s;
     terminal := v;
     projectFilter := projectFilter s |}.

Definition set_projectFilter (v : ProjectFilter) (s : AppSettings) : AppSettings :=
  {| proxyConfig := proxyConfig s;
     apiProviders := apiProviders s;
     activeProviderId := activeProviderId s;
     serviceProviders := serviceProviders s;
     activeServiceProviderId := activeServiceProviderId s;
     terminal := terminal s;
     projectFilter := v |}.

(** Assignments to one property of a provider or of an account. *)
Definition with_accounts (l : list Account) (p : ServiceProvider) : ServiceProvider :=
  {| sp_id := sp_id p; sp_type := sp_type p; sp_name := sp_name p;
     accounts := l; activeAccountId := activeAccountId p;
     useProxy := useProxy p |}.

Definition with_activeAccountId (k : option jsstring) (p : ServiceProvider)
  : ServiceProvider :=
  {| sp_id := sp_id p; sp_type := sp_type p; sp_name := sp_name p;
     accounts := accounts p; activeAccountId := k;
     useProxy := useProxy p |}.

Definition with_useProxy (b : bool) (p : ServiceProvider) : ServiceProvider :=
  {| sp_id := sp_id p; sp_type := sp_type p; sp_name := sp_name p;
     accounts := accounts p; activeAccountId := activeAccountId p;
     useProxy := b |}.

Definition with_authorization (v : option jsstring) (a : ClaudeAccount)
  : ClaudeAccount :=
  {| accountUuid := accountUuid a;
     emailAddress := emailAddress a;
     organizationUuid := organizationUuid a;
     organizationRole := organizationRole a;
     workspaceRole := workspaceRole a;
     organizationName := organizationName a;
     authorization := v |}.

(** ** Accessors and mutators of [SettingsManager] *)

Definition getServiceProviders (s : AppSettings) : list ServiceProvider :=
  serviceProviders s.

(** [providers.find(p => p.id === providerId)] *)
Definition findProviderById (providerId : jsstring) (providers : list ServiceProvider)
  : option ServiceProvider :=
  snd <$> list_find (λ p, sp_id p = providerId) providers.

(** [providers.find(p => p.type === 'claude_official')] *)
Definition findClaudeProvider (providers : list ServiceProvider)
  : option ServiceProvider :=
  snd <$> list_find (λ p, sp_type p = claude_official) providers.

Definition setActiveProvider (providerId : jsstring) (s : AppSettings) : AppSettings :=
  set_activeProviderId providerId s.

Definition addServiceProvider (provider : ServiceProvider) (s : AppSettings)
  : AppSettings :=
  let providers := getServiceProviders s in
  match list_find (λ p, sp_id p = sp_id provider) providers with
  | Some (existingIndex, _) =>
      set_serviceProviders (<[existingIndex := provider]> providers) s
  | None =>
      set_serviceProviders (providers ++ [provider]) s
  end.

Definition removeServiceProvider (providerId : jsstring) (s : AppSettings)
  : AppSettings :=
  let providers := filter (λ p, sp_id p ≠ providerId) (getServiceProviders s) in
  let s1 := set_serviceProviders providers s in
  if decide (activeServiceProviderId s1 = providerId)
  then set_activeServiceProviderId [] s1
  else s1.

Definition getActiveServiceProvider (s : AppSettings) : option ServiceProvider :=
  findProviderById (activeServiceProviderId s) (getServiceProviders s).

Definition setActiveServiceProvider (providerId : jsstring) (s : AppSettings)
  : AppSettings :=
  set_activeServiceProviderId providerId s.

(** The body of [accounts.forEach(newAccount => ...)] in
    [updateClaudeAccounts], as a function of [updatedAccounts]. *)
Definition mergeAccount (updatedAccounts : list Account) (newAccount : ClaudeAccount)
  : list Account :=
  match list_find (λ existing, acc_emailAddress existing = emailAddress newAccount)
                  updatedAccounts with
  | Some (existingIndex, existing) =>
      <[existingIndex :=
          Official (with_authorization
                      (js_or (acc_authorization existing) (authorization newAccount))
                      newAccount)]> updatedAccounts
  | None => updatedAccounts ++ [Official newAccount]
  end.

Definition mergeAccounts (existingAccounts : list Account) (incoming : list ClaudeAccount)
  : list Account :=
  foldl mergeAccount existingAccounts incoming.

(** The provider [updateClaudeAccounts] starts from: the first one of type
    [claude_official], or a fresh one. *)
Definition newClaudeProvider : ServiceProvider :=
  {| sp_id := lit "claude_official";
     sp_type := claude_official;
     sp_name := lit "Claude Official";
     accounts := [];
     activeAccountId := Some [];
     useProxy := true |}.

Definition claudeProviderOrNew (s : AppSettings) : ServiceProvider :=
  default newClaudeProvider (findClaudeProvider (getServiceProviders s)).

(** The active account after the merge: kept when [incoming] has an account
    of that email, else the email of [incoming[0]], else the empty string. *)
Definition reassignActive (incoming : list ClaudeAccount) (active : option jsstring)
  : option jsstring :=
  match list_find (λ acc, emailAddress acc = active) incoming with
  | Some _ => active
  | None =>
      match incoming with
      | first :: _ => emailAddress first
      | [] => Some []
      end
  end.

Definition updatedClaudeProvider (incoming : list ClaudeAccount) (s : AppSettings)
  : ServiceProvider :=
  let claudeProvider := claudeProviderOrNew s in
  let updatedAccounts := mergeAccounts (accounts claudeProvider) incoming in
  with_activeAccountId
    (reassignActive incoming (activeAccountId claudeProvider))
    (with_accounts updatedAccounts claudeProvider).

Definition updateClaudeAccounts (incoming : list ClaudeAccount) (s : AppSettings)
  : AppSettings :=
  addServiceProvider (updatedClaudeProvider incoming s) s.

(** [accounts[existingIndex] = account] or [accounts.push(account)]. *)
Definition upsertThirdParty (account : ThirdPartyAccount) (l : list Account)
  : list Account :=
  match list_find (λ acc, acc_id acc = Some (tp_id account)) l with
  | Some (existingIndex, _) => <[existingIndex := ThirdParty account]> l
  | None => l ++ [ThirdParty account]
  end.

(** The provider [addThirdPartyAccount] starts from: the one of that id, or
    a fresh third-party one named after the account. *)
Definition thirdPartyProviderOrNew (providerId : jsstring) (account : ThirdPartyAccount)
    (s : AppSettings) : ServiceProvider :=
  default
    {| sp_id := providerId;
       sp_type := third_party;
       sp_name := tp_name account;
       accounts := [];
       activeAccountId := Some [];
       useProxy := true |}
    (findProviderById providerId (getServiceProviders s)).

(** [if (!provider.activeAccountId && accounts.length > 0)
       provider.activeAccountId = accounts[0].id] *)
Definition activateFirst (provider : ServiceProvider) : ServiceProvider :=
  if negb (truthy (activeAccountId provider))
  then match accounts provider with
       | first :: _ => with_activeAccountId (acc_id first) provider
       | [] => provider
       end
  else provider.

Definition updatedThirdPartyProvider (providerId : jsstring)
    (account : ThirdPartyAccount) (s : AppSettings) : ServiceProvider :=
  let provider := thirdPartyProviderOrNew providerId account s in
  activateFirst
    (with_accounts (upsertThirdParty account (accounts provider)) provider).

Definition addThirdPartyAccount (providerId : jsstring) (account : ThirdPartyAccount)
    (s : AppSettings) : AppSettings :=
  addServiceProvider (updatedThirdPartyProvider providerId account s) s.

Definition removeThirdPartyAccount (providerId accountId : jsstring) (s : AppSettings)
  : AppSettings :=
  match findProviderById providerId (getServiceProviders s) with
  | None => s
  | Some provider =>
      let accounts' := filter (λ acc, acc_id acc ≠ Some accountId) (accounts provider) in
      let provider1 := with_accounts accounts' provider in
      let provider2 :=
        if decide (activeAccountId provider1 = Some accountId)
        then with_activeAccountId
               (match accounts' with
                | first :: _ => acc_id first
                | [] => Some []
                end) provider1
        else provider1 in
      addServiceProvider provider2 s
  end.

Definition setActiveAccount (providerId accountId : jsstring) (s : AppSettings)
  : AppSettings :=
  match findProviderById providerId (getServiceProviders s) with
  | Some provider =>
      setActiveServiceProvider providerId
        (addServiceProvider (with_activeAccountId (Some accountId) provider) s)
  | None => s
  end.

(** The property [getCurrentActiveAccount] compares with [activeAccountId]:
    [emailAddress] under an official provider, [id] otherwise. *)
Definition naturalKey (t : ProviderType) (acc : Account) : option jsstring :=
  match t with
  | claude_official => acc_emailAddress acc
  | third_party => acc_id acc
  end.

Definition getCurrentActiveAccount (s : AppSettings)
  : option (ServiceProvider * Account) :=
  match getActiveServiceProvider s with
  | None => None
  | Some activeProvider =>
      if negb (truthy (activeAccountId activeProvider)) then None
      else
        match list_find
                (λ acc, naturalKey (sp_type activeProvider) acc
                        = activeAccountId activeProvider)
                (accounts activeProvider) with
        | Some (_, account) => Some (activeProvider, account)
        | None => None
        end
  end.

Definition setProviderProxyUsage (providerId : jsstring) (b : bool) (s : AppSettings)
  : AppSettings :=
  match findProviderById providerId (getServiceProviders s) with
  | Some provider => addServiceProvider (with_useProxy b provider) s
  | None => s
  end.

Definition shouldUseProxyForCurrentProvider (s : AppSettings) : bool :=
  match getActiveServiceProvider s with
  | None => true
  | Some activeProvider => useProxy activeProvider
  end.

(** [accounts.find(acc => acc.emailAddress === emailAddress)] only matches
    an official account: the property is undefined on the other shape. *)
Definition updateClaudeAccountAuthorization (email token : jsstring) (s : AppSettings)
  : AppSettings :=
  match findClaudeProvider (getServiceProviders s) with
  | None => s
  | Some claudeProvider =>
      match list_find (λ acc, acc_emailAddress acc = Some email)
                      (accounts claudeProvider) with
      | Some (i, Official account) =>
          addServiceProvider
            (with_accounts
               (<[i := Official (with_authorization (Some token) account)]>
                  (accounts claudeProvider))
               claudeProvider) s
      | _ => s
      end
  end.

Definition findClaudeAccountByAuthorization (token : jsstring) (s : AppSettings)
  : option Account :=
  match findClaudeProvider (getServiceProviders s) with
  | None => None
  | Some claudeProvider =>
      snd <$> list_find (λ acc, acc_authorization acc = Some token)
                        (accounts claudeProvider)
  end.

(** ** [Buffer]: UTF-8 and base64

    [Buffer.from(s, 'utf-8')], [buf.toString('base64')],
    [Buffer.from(s, 'base64')] and [buf.toString('utf-8')] are total on
    strings; none of them throws.  A [Buffer] is a list of bytes. *)

Local Open Scope N_scope.

Definition is_high_surrogate (u : N) : bool := (0xD800 <=? u) && (u <=? 0xDBFF).
Definition is_low_surrogate (u : N) : bool := (0xDC00 <=? u) && (u <=? 0xDFFF).

Definition replacement_bytes : list N := [0xEF; 0xBF; 0xBD].

Definition utf8_bytes (cp : N) : list N :=
  if cp <? 0x80 then [cp]
  else if cp <? 0x800 then [0xC0 + cp / 64; 0x80 + cp mod 64]
  else if cp <? 0x10000 then
    [0xE0 + cp / 4096; 0x80 + (cp / 64) mod 64; 0x80 + cp mod 64]
  else
    [0xF0 + cp / 262144; 0x80 + (cp / 4096) mod 64;
     0x80 + (cp / 64) mod 64; 0x80 + cp mod 64].

(** [Buffer.from(s, 'utf-8')]: a surrogate pair is one code point, a lone
    surrogate is written as U+FFFD. *)
Fixpoint utf8_encode (s : jsstring) : list N :=
  match s with
  | [] => []
  | u :: rest =>
      if is_high_surrogate u then
        match rest with
        | v :: rest' =>
            if is_low_surrogate v
            then utf8_bytes (0x10000 + (u - 0xD800) * 1024 + (v - 0xDC00))
                   ++ utf8_encode rest'
            else replacement_bytes ++ utf8_encode rest
        | [] => replacement_bytes
        end
      else if is_low_surrogate u then replacement_bytes ++ utf8_encode rest
      else utf8_bytes u ++ utf8_encode rest
  end.

Definition in_range (lo hi b : N) : bool := (lo <=? b) && (b <=? hi).

(** Bounds of the second byte of a sequence, by its first byte. *)
Definition second_lo (b0 : N) : N :=
  if b0 =? 0xE0 then 0xA0 else if b0 =? 0xF0 then 0x90 else 0x80.
Definition second_hi (b0 : N) : N :=
  if b0 =? 0xED then 0x9F else if b0 =? 0xF4 then 0x8F else 0xBF.

Definition utf16_units (cp : N) : jsstring :=
  if cp <? 0x10000 then [cp]
  else [0xD800 + (cp - 0x10000) / 1024; 0xDC00 + (cp - 0x10000) mod 1024].

(** [buf.toString('utf-8')]: an ill-formed sequence decodes to U+FFFD and
    decoding resumes at the byte that broke it. *)
Fixpoint utf8_decode (bs : list N) : jsstring :=
  match bs with
  | [] => []
  | b0 :: r0 =>
      if b0 <? 0x80 then b0 :: utf8_decode r0
      else if in_range 0xC2 0xDF b0 then
        match r0 with
        | [] => [0xFFFD]
        | b1 :: r1 =>
            if in_range 0x80 0xBF b1
            then ((b0 - 0xC0) * 64 + (b1 - 0x80)) :: utf8_decode r1
            else 0xFFFD :: utf8_decode r0
        end
      else if in_range 0xE0 0xEF b0 then
        match r0 with
        | [] => [0xFFFD]
        | b1 :: r1 =>
            if in_range (second_lo b0) (second_hi b0) b1 then
              match r1 with
              | [] => [0xFFFD]
              | b2 :: r2 =>
                  if in_range 0x80 0xBF b2
                  then ((b0 - 0xE0) * 4096 + (b1 - 0x80) * 64 + (b2 - 0x80))
                         :: utf8_decode r2
                  else 0xFFFD :: utf8_decode r1
              end
            else 0xFFFD :: utf8_decode r0
        end
      else if in_range 0xF0 0xF4 b0 then
        match r0 with
        | [] => [0xFFFD]
        | b1 :: r1 =>
            if in_range (second_lo b0) (second_hi b0) b1 then
              match r1 with
              | [] => [0xFFFD]
              | b2 :: r2 =>
                  if in_range 0x80 0xBF b2 then
                    match r2 with
                    | [] => [0xFFFD]
                    | b3 :: r3 =>
                        if in_range 0x80 0xBF b3
                        then utf16_units
                               ((b0 - 0xF0) * 262144 + (b1 - 0x80) * 4096
                                + (b2 - 0x80) * 64 + (b3 - 0x80))
                               ++ utf8_decode r3
                        else 0xFFFD :: utf8_decode r2
                    end
                  else 0xFFFD :: utf8_decode r1
              end
            else 0xFFFD :: utf8_decode r0
        end
      else 0xFFFD :: utf8_decode r0
  end.

(** The base64 alphabet. *)
Definition b64char (n : N) : N :=
  if n <? 26 then 65 + n
  else if n <? 52 then 97 + (n - 26)
  else if n <? 62 then 48 + (n - 52)
  else if n =? 62 then 43
  else 47.

(** [buf.toString('base64')], padded with [=] (61). *)
Fixpoint base64_encode (bs : list N) : jsstring :=
  match bs with
  | [] => []
  | [b0] => [b64char (b0 / 4); b64char ((b0 mod 4) * 16); 61; 61]
  | [b0; b1] =>
      [b64char (b0 / 4); b64char ((b0 mod 4) * 16 + b1 / 16);
       b64char ((b1 mod 16) * 4); 61]
  | b0 :: b1 :: b2 :: rest =>
      [b64char (b0 / 4); b64char ((b0 mod 4) * 16 + b1 / 16);
       b64char ((b1 mod 16) * 4 + b2 / 64); b64char (b2 mod 64)]
        ++ base64_encode rest
  end.

(** The decoder's table: the standard and the URL-safe alphabet; any other
    character is illegal.  The decoder reads the low byte of a code unit. *)
Definition unbase64 (c : N) : option N :=
  let c := c mod 256 in
  if in_range 65 90 c then Some (c - 65)
  else if in_range 97 122 c then Some (c - 97 + 26)
  else if in_range 48 57 c then Some (c - 48 + 52)
  else if (c =? 43) || (c =? 45) then Some 62
  else if (c =? 47) || (c =? 95) then Some 63
  else None.

(** The characters the decoder uses: illegal ones are skipped, and the
    first [=] ends the input. *)
Fixpoint sextets (s : jsstring) : list N :=
  match s with
  | [] => []
  | c :: rest =>
      match unbase64 c with
      | Some v => v :: sextets rest
      | None => if c mod 256 =? 61 then [] else sextets rest
      end
  end.

(** Four characters give three bytes; a last group of three gives two
    bytes, of two gives one, and a single character gives none. *)
Fixpoint bytes_of_sextets (l : list N) : list N :=
  match l with
  | a :: b :: c :: d :: rest =>
      [a * 4 + b / 16; (b mod 16) * 16 + c / 4; (c mod 4) * 64 + d]
        ++ bytes_of_sextets rest
  | [a; b; c] => [a * 4 + b / 16; (b mod 16) * 16 + c / 4]
  | [a; b] => [a * 4 + b / 16]
  | _ => []
  end.

(** [Buffer.from(s, 'base64')]. *)
Definition base64_decode (s : jsstring) : list N :=
  bytes_of_sextets (sextets s).

(** [private encodeData(data: string): string] *)
Definition encodeData (data : jsstring) : jsstring :=
  if negb (nonempty data) then []
  else base64_encode (utf8_encode data).

(** [private decodeData(encodedData: string): string].  The [catch] branch
    is never entered, since neither call in the [try] block throws. *)
Definition decodeData (encodedData : jsstring) : jsstring :=
  if negb (nonempty encodedData) then []
  else utf8_decode (base64_decode encodedData).

Local Close Scope N_scope.

(** ** Section updates used by the import *)

(** [Partial<AppSettings['proxyConfig']>]: a key is absent ([None]) or
    present, possibly with the value [undefined]. *)
Record ProxyPatch := mkProxyPatch {
  pp_enabled : option (option bool);
  pp_url : option (option jsstring);
  pp_auth : option (option ProxyAuth)
}.

(** [{ ...current, ...config }] *)
Definition updateProxyConfig (config : ProxyPatch) (s : AppSettings) : AppSettings :=
  let current := proxyConfig s in
  set_proxyConfig
    {| enabled := default (enabled current) (pp_enabled config);
       url := default (url current) (pp_url config);
       auth := default (auth current) (pp_auth config) |} s.

(** A terminal or project-filter object read from JSON overrides the keys
    it has. *)
Definition updateTerminalConfig (config : Terminal) (s : AppSettings) : AppSettings :=
  let current := terminal s in
  set_terminal
    {| fontSize := fontSize config ∪ fontSize current;
       fontFamily := fontFamily config ∪ fontFamily current;
       theme := theme config ∪ theme current;
       skipPermissions := skipPermissions config ∪ skipPermissions current |} s.

Definition updateProjectFilterConfig (config : ProjectFilter) (s : AppSettings)
  : AppSettings :=
  let current := projectFilter s in
  set_projectFilter
    {| hiddenDirectories := hiddenDirectories config ∪ hiddenDirectories current |} s.

(** ** The transfer document *)

(** A third-party account object of a document; the import tests [id],
    [name] and [baseUrl] before it uses them. *)
Record DocThirdPartyAccount := mkDocThirdPartyAccount {
  d_id : option jsstring;
  d_name : option jsstring;
  d_baseUrl : option jsstring;
  d_description : option jsstring;
  d_apiKey : option jsstring
}.

(** An element of an [accounts] array: an account object, or [null].  An
    official object has the properties of a [ClaudeAccount], its
    [authorization] encoded.  An element that is neither (a number, a
    string) has no property at all, as an object of the other shape. *)
Inductive DocAccount :=
  | DocOfficial (a : ClaudeAccount)
  | DocThirdParty (a : DocThirdPartyAccount)
  | DocNull.

#[global] Instance DocAccount_null_dec (e : DocAccount) : Decision (e = DocNull).
Proof. destruct e; [right|right|left]; congruence. Defined.

(** The value of [accounts] in a provider entry, when it is truthy: an
    array; a non-empty string, which can be iterated but has no [map]; or
    anything else ([true], a number, an object), which has neither. *)
Inductive DocAccounts :=
  | AccountsArray (entries : list DocAccount)
  | AccountsText
  | AccountsOther.

(** A provider object of a document; [dp_accounts] is [None] when
    [accounts] is missing or falsy. *)
Record DocProvider := mkDocProvider {
  dp_id : jsstring;
  dp_type : option ProviderType;
  dp_name : jsstring;
  dp_useProxy : bool;
  dp_activeAccountId : option jsstring;
  dp_accounts : option DocAccounts
}.

(** An element of the [serviceProviders] array: a provider object, or
    [null]. *)
Inductive DocEntry :=
  | NullEntry
  | ProviderEntry (p : DocProvider).

(** [ds_serviceProviders] is [None] when [serviceProviders] is missing or
    is not an array. *)
Record DocSettings := mkDocSettings {
  ds_proxyConfig : option ProxyConfig;
  ds_terminal : option Terminal;
  ds_projectFilter : option ProjectFilter;
  ds_serviceProviders : option (list DocEntry)
}.

Record Document := mkDocument {
  version : option jsstring;
  timestamp : jsstring;
  includeSensitiveData : option bool;
  settings : option DocSettings
}.

(** ** [exportSettings] *)

Definition noClaudeAccount : ClaudeAccount :=
  {| accountUuid := None; emailAddress := None; organizationUuid := None;
     organizationRole := None; workspaceRole := JsUndefined;
     organizationName := None; authorization := None |}.

Definition noDocThirdPartyAccount : DocThirdPartyAccount :=
  {| d_id := None; d_name := None; d_baseUrl := None;
     d_description := None; d_apiKey := None |}.

(** The object written for an account of an official provider.  Read as a
    [ClaudeAccount], a third-party account has none of the properties. *)
Definition exportClaudeAccount (includeSensitive : bool) (acc : Account) : DocAccount :=
  match acc with
  | Official account =>
      DocOfficial
        (with_authorization
           (if includeSensitive && truthy (authorization account)
            then encodeData <$> authorization account
            else None)
           account)
  | ThirdParty _ => DocOfficial noClaudeAccount
  end.

(** The object written for an account of a third-party provider. *)
Definition exportThirdPartyAccount (includeSensitive : bool) (acc : Account)
  : DocAccount :=
  match acc with
  | ThirdParty account =>
      DocThirdParty
        {| d_id := Some (tp_id account);
           d_name := Some (tp_name account);
           d_baseUrl := Some (baseUrl account);
           d_description := description account;
           d_apiKey :=
             if includeSensitive && nonempty (apiKey account)
             then Some (encodeData (apiKey account))
             else None |}
  | Official _ => DocThirdParty noDocThirdPartyAccount
  end.

Definition exportProvider (includeSensitive : bool) (provider : ServiceProvider)
  : DocProvider :=
  {| dp_id := sp_id provider;
     dp_type := Some (sp_type provider);
     dp_name := sp_name provider;
     dp_useProxy := useProxy provider;
     dp_activeAccountId := activeAccountId provider;
     dp_accounts :=
       Some (AccountsArray
               (map (match sp_type provider with
                     | claude_official => exportClaudeAccount includeSensitive
                     | third_party => exportThirdPartyAccount includeSensitive
                     end) (accounts provider))) |}.

Definition exportEntry (includeSensitive : bool) (provider : ServiceProvider)
  : DocEntry :=
  ProviderEntry (exportProvider includeSensitive provider).

(** [x || ''] *)
Definition or_empty (v : option jsstring) : jsstring :=
  if truthy v then default [] v else [].

Definition exportData (now : jsstring) (includeSensitive : bool) (s : AppSettings)
  : Document :=
  {| version := Some (lit "1.0.0");
     timestamp := now;
     includeSensitiveData := Some includeSensitive;
     settings :=
       Some
         {| ds_proxyConfig :=
              Some
                {| enabled := enabled (proxyConfig s);
                   url := url (proxyConfig s);
                   auth :=
                     if includeSensitive
                     then (λ a, {| username := Some (encodeData (or_empty (username a)));
                                   password := Some (encodeData (or_empty (password a))) |})
                            <$> auth (proxyConfig s)
                     else None |};
            ds_terminal := Some (terminal s);
            ds_projectFilter := Some (projectFilter s);
            ds_serviceProviders :=
              Some (map (exportEntry includeSensitive) (serviceProviders s)) |} |}.

(** What makes the loop over the provider entries throw a [TypeError]:
    [importedProvider.type] of [null]; [accounts.map] of a value without
    [map]; [for (... of accounts)] over a value that is not iterable; a
    property of a [null] account. *)
Inductive Fault :=
  | NullProvider
  | AccountsNotAnArray
  | AccountsNotIterable
  | NullAccount.

(** The [error] of a result: the format message, the message of an error
    thrown while the file is read and parsed, or that of a [TypeError] of
    the import loop. *)
Inductive Failure :=
  | InvalidFormat
  | Thrown (message : jsstring)
  | TypeErrorThrown (fault : Fault).

(** An entry of [imported]: the section label, with the counts its text
    carries. *)
Inductive ImportedItem :=
  | ProxyImported (withAuth : bool)
  | TerminalImported
  | ProjectFilterImported
  | AccountsImported (accounts : nat) (sensitive : option nat).

Record Result := mkResult {
  success : bool;
  error : option Failure;
  imported : option (list ImportedItem)
}.

(** [exportSettings(filePath, includeSensitiveData)]: the document handed
    to [fs.writeFile], and the result.  [writeError] is the error the write
    throws, if it does. *)
Definition exportSettings (now : jsstring) (includeSensitive : bool)
    (writeError : option jsstring) (s : AppSettings) : option Document * Result :=
  match writeError with
  | None =>
      (Some (exportData now includeSensitive s),
       {| success := true; error := None; imported := None |})
  | Some message =>
      (None, {| success := false; error := Some (Thrown message); imported := None |})
  end.

(** ** [importSettings] *)

(** [importData.includeSensitiveData === true] *)
Definition hasSensitiveData (d : Document) : bool :=
  match includeSensitiveData d with
  | Some true => true
  | _ => false
  end.

(** The [ClaudeAccount] built from an account object of an official
    provider; an object of the other shape has none of its properties, and
    [account.accountUuid] throws when [account] is [null]. *)
Definition importClaudeAccount (sensitive : bool) (account : DocAccount)
  : option ClaudeAccount :=
  match account with
  | DocOfficial a =>
      Some (with_authorization
              (if sensitive && truthy (authorization a)
               then decodeData <$> authorization a
               else None)
              a)
  | DocThirdParty _ => Some noClaudeAccount
  | DocNull => None
  end.

(** [account.id && account.name && account.baseUrl] *)
Definition validThirdParty (a : DocThirdPartyAccount) : bool :=
  truthy (d_id a) && truthy (d_name a) && truthy (d_baseUrl a).

(** The [ThirdPartyAccount] built from a validated account object. *)
Definition importThirdPartyAccount (sensitive : bool) (a : DocThirdPartyAccount)
  : ThirdPartyAccount :=
  {| tp_id := default [] (d_id a);
     tp_name := default [] (d_name a);
     baseUrl := default [] (d_baseUrl a);
     description := Some (or_empty (d_description a));
     apiKey :=
       if sensitive && truthy (d_apiKey a)
       then decodeData (default [] (d_apiKey a))
       else [] |}.

(** The state of the loop over [importSettings.serviceProviders]: the
    store, the two counters, and the [TypeError] that has left the loop, if
    one has.  What was written to the store before the error stays
    written. *)
Record ImportState := mkImportState {
  store : AppSettings;
  importedAccountsCount : nat;
  importedSensitiveCount : nat;
  thrown : option Fault
}.

Definition throw (fault : Fault) (st : ImportState) : ImportState :=
  {| store := store st;
     importedAccountsCount := importedAccountsCount st;
     importedSensitiveCount := importedSensitiveCount st;
     thrown := Some fault |}.

(** The loop starts with both counters at [0]. *)
Definition loopStart (s : AppSettings) : ImportState :=
  {| store := s; importedAccountsCount := 0; importedSensitiveCount := 0;
     thrown := None |}.

(** The body of [for (const account of importedProvider.accounts)]. *)
Definition importThirdPartyEntry (sensitive : bool) (providerId : jsstring)
    (st : ImportState) (account : DocAccount) : ImportState :=
  match thrown st with
  | Some _ => st
  | None =>
      match account with
      | DocNull => throw NullAccount st
      | DocThirdParty a =>
          if validThirdParty a then
            {| store :=
                 addThirdPartyAccount providerId (importThirdPartyAccount sensitive a)
                                      (store st);
               importedAccountsCount := S (importedAccountsCount st);
               importedSensitiveCount :=
                 if sensitive && truthy (d_apiKey a)
                 then S (importedSensitiveCount st)
                 else importedSensitiveCount st;
               thrown := None |}
          else st
      | DocOfficial _ => st
      end
  end.

(** The body of [for (const importedProvider of ...)].  The accounts of an
    official entry are all built before [updateClaudeAccounts] is called;
    those of a third-party entry are stored one by one. *)
Definition importProvider (sensitive : bool) (st : ImportState)
    (entry : DocEntry) : ImportState :=
  match thrown st with
  | Some _ => st
  | None =>
      match entry with
      | NullEntry => throw NullProvider st
      | ProviderEntry importedProvider =>
          match dp_type importedProvider, dp_accounts importedProvider with
          | Some claude_official, Some (AccountsArray docAccounts) =>
              match mapM (importClaudeAccount sensitive) docAccounts with
              | Some claudeAccounts =>
                  {| store := updateClaudeAccounts claudeAccounts (store st);
                     importedAccountsCount :=
                       importedAccountsCount st + length claudeAccounts;
                     importedSensitiveCount :=
                       if sensitive
                       then importedSensitiveCount st
                            + length (filter (λ acc, truthy (authorization acc) = true)
                                             claudeAccounts)
                       else importedSensitiveCount st;
                     thrown := None |}
              | None => throw NullAccount st
              end
          | Some claude_official, Some _ => throw AccountsNotAnArray st
          | Some third_party, Some (AccountsArray docAccounts) =>
              foldl (importThirdPartyEntry sensitive (dp_id importedProvider))
                    st docAccounts
          | Some third_party, Some AccountsText => st
          | Some third_party, Some AccountsOther => throw AccountsNotIterable st
          | _, _ => st
          end
      end
  end.

Definition importProxySection (sensitive : bool) (pc : ProxyConfig) (s : AppSettings)
  : AppSettings :=
  updateProxyConfig
    {| pp_enabled := Some (enabled pc);
       pp_url := Some (url pc);
       pp_auth :=
         if sensitive
         then (λ a, Some {| username := Some (decodeData (or_empty (username a)));
                            password := Some (decodeData (or_empty (password a))) |})
                <$> auth pc
         else None |} s.

(** The sections of an accepted document, applied in order; the result is
    the store and either the [imported] list or the [TypeError] that ended
    the loop over the provider entries. *)
Definition importSections (sensitive : bool) (ds : DocSettings) (s : AppSettings)
  : AppSettings * (Fault + list ImportedItem) :=
  let '(s1, l1) :=
    match ds_proxyConfig ds with
    | Some pc => (importProxySection sensitive pc s, [ProxyImported sensitive])
    | None => (s, [])
    end in
  let '(s2, l2) :=
    match ds_terminal ds with
    | Some t => (updateTerminalConfig t s1, l1 ++ [TerminalImported])
    | None => (s1, l1)
    end in
  let '(s3, l3) :=
    match ds_projectFilter ds with
    | Some f => (updateProjectFilterConfig f s2, l2 ++ [ProjectFilterImported])
    | None => (s2, l2)
    end in
  match ds_serviceProviders ds with
  | Some providers =>
      let st := foldl (importProvider sensitive) (loopStart s3) providers in
      (store st,
       match thrown st with
       | Some fault => inl fault
       | None =>
           inr (if 0 <? importedAccountsCount st
                then l3 ++ [AccountsImported (importedAccountsCount st)
                              (if sensitive && (0 <? importedSensitiveCount st)
                               then Some (importedSensitiveCount st)
                               else None)]
                else l3)
       end)
  | None => (s3, inr l3)
  end.

(** What [fs.readFile] and [JSON.parse] give: a document, or an error
    thrown before the document is looked at (the file cannot be read, is
    not JSON, or is the JSON [null]). *)
Inductive FileContent :=
  | ReadFailure (message : jsstring)
  | Parsed (d : Document).

(** The import of a parsed document.  A [TypeError] of the loop is caught
    at the end of [importSettings]: the result is a failure, and the store
    keeps what was written before. *)
Definition importDocument (d : Document) (s : AppSettings) : Result * AppSettings :=
  match settings d with
  | Some ds =>
      if truthy (version d) then
        match importSections (hasSensitiveData d) ds s with
        | (s', inr l) =>
            ({| success := true; error := None; imported := Some l |}, s')
        | (s', inl fault) =>
            ({| success := false; error := Some (TypeErrorThrown fault);
                imported := None |}, s')
        end
      else ({| success := false; error := Some InvalidFormat; imported := None |}, s)
  | None => ({| success := false; error := Some InvalidFormat; imported := None |}, s)
  end.

(** [importSettings(filePath)] *)
Definition importSettings (file : FileContent) (s : AppSettings)
  : Result * AppSettings :=
  match file with
  | ReadFailure message =>
      ({| success := false; error := Some (Thrown message); imported := None |}, s)
  | Parsed d => importDocument d s
  end.

(** ** Remaining accessors *)

Definition getSettings (s : AppSettings) : AppSettings := s.

Definition getProxyConfig (s : AppSettings) : ProxyConfig := proxyConfig s.

(** [getActiveProvider]: the deprecated provider list. *)
Definition getActiveProvider (s : AppSettings) : option ApiProvider :=
  snd <$> list_find (λ p, ap_id p = activeProviderId s) (apiProviders s).

Definition getTerminalConfig (s : AppSettings) : Terminal := terminal s.

Definition getProjectFilterConfig (s : AppSettings) : ProjectFilter :=
  projectFilter s.

(** [this.store.get('terminal.skipPermissions', true)] *)
Definition getSkipPermissions (s : AppSettings) : bool :=
  default true (skipPermissions (terminal s)).

(** [this.updateTerminalConfig({ skipPermissions })] *)
Definition setSkipPermissions (b : bool) (s : AppSettings) : AppSettings :=
  updateTerminalConfig
    {| fontSize := None; fontFamily := None; theme := None;
       skipPermissions := Some b |} s.

(** [s.startsWith('.')] *)
Definition startsWithDot (s : jsstring) : bool :=
  match s with
  | c :: _ => bool_decide (c = 46%N)
  | [] => false
  end.

(** [shouldHideDirectory(directoryPath)].  [basename] is Node's
    [path.basename].  The result is [None] when the call throws, which it
    does when [hiddenDirectories] is missing. *)
Definition shouldHideDirectory (basename : jsstring → jsstring)
    (directoryPath : jsstring) (s : AppSettings) : option bool :=
  let config := getProjectFilterConfig s in
  let directoryName := basename directoryPath in
  match hiddenDirectories config with
  | None => None
  | Some patterns =>
      Some
        (bool_decide (directoryName ∈ patterns)
         || existsb
              (λ pattern,
                 if startsWithDot pattern && startsWithDot directoryName
                 then bool_decide (directoryName = pattern)
                 else bool_decide (directoryName = pattern))
              patterns)
  end.

(** What [readClaudeAccountsFromConfig] finds in [~/.claude.json]: nothing
    it can read and parse, or an object with or without [oauthAccount]. *)
Inductive ClaudeConfigFile :=
  | ConfigUnreadable
  | ConfigParsed (oauthAccount : option ClaudeAccount).

Definition readClaudeAccountsFromConfig (file : ClaudeConfigFile)
  : list ClaudeAccount :=
  match file with
  | ConfigParsed (Some account) => [account]
  | ConfigParsed None => []
  | ConfigUnreadable => []
  end.

(** [refreshClaudeAccounts()]: the accounts returned, and the store. *)
Definition refreshClaudeAccounts (file : ClaudeConfigFile) (s : AppSettings)
  : list ClaudeAccount * AppSettings :=
  let accounts := readClaudeAccountsFromConfig file in
  (accounts, updateClaudeAccounts accounts s).

(** * Properties *)

(** ** Lookup in the provider list *)

Lemma findProviderById_Some pid (ps : list ServiceProvider) p :
  findProviderById pid ps = Some p → p ∈ ps ∧ sp_id p = pid.
Proof.
  unfold findProviderById. intros H.
  apply fmap_Some in H as [[i q] [H ->]].
  apply list_find_Some in H as (Hi & Hid & _).
  split; [by eapply list_elem_of_lookup_2|done].
Qed.

Lemma findClaudeProvider_Some (ps : list ServiceProvider) p :
  findClaudeProvider ps = Some p → p ∈ ps ∧ sp_type p = claude_official.
Proof.
  unfold findClaudeProvider. intros H.
  apply fmap_Some in H as [[i q] [H ->]].
  apply list_find_Some in H as (Hi & Hid & _).
  split; [by eapply list_elem_of_lookup_2|done].
Qed.

(** [addServiceProvider] writes one slot of the list or appends. *)
Lemma addServiceProvider_cases provider s :
  (∃ i old,
      list_find (λ p, sp_id p = sp_id provider) (serviceProviders s) = Some (i, old)
      ∧ serviceProviders (addServiceProvider provider s)
        = <[i := provider]> (serviceProviders s))
  ∨ (list_find (λ p, sp_id p = sp_id provider) (serviceProviders s) = None
     ∧ serviceProviders (addServiceProvider provider s)
       = serviceProviders s ++ [provider]).
Proof.
  unfold addServiceProvider, getServiceProviders.
  destruct (list_find _ _) as [[i old]|] eqn:E; [left|right]; eauto.
Qed.

Lemma addServiceProvider_others provider s :
  activeServiceProviderId (addServiceProvider provider s) = activeServiceProviderId s
  ∧ proxyConfig (addServiceProvider provider s) = proxyConfig s
  ∧ terminal (addServiceProvider provider s) = terminal s
  ∧ projectFilter (addServiceProvider provider s) = projectFilter s.
Proof.
  unfold addServiceProvider. by destruct (list_find _ _) as [[i old]|].
Qed.

(** A list search for [P] finds [x] once [x] is written at the first
    position that satisfied another search, provided nothing before that
    position satisfies [P]. *)
Lemma list_find_insert_here {A} (P : A → Prop) `{!∀ x, Decision (P x)}
    (l : list A) (i : nat) (x : A) :
  i < length l → P x →
  (∀ j y, l !! j = Some y → j < i → ¬ P y) →
  list_find P (<[i := x]> l) = Some (i, x).
Proof.
  intros Hi HP Hbefore. apply list_find_Some. split_and!.
  - by apply list_lookup_insert_eq.
  - done.
  - intros j y Hj Hlt. rewrite list_lookup_insert_ne in Hj by lia. eauto.
Qed.

Lemma list_find_app_here {A} (P : A → Prop) `{!∀ x, Decision (P x)}
    (l : list A) (x : A) :
  list_find P l = None → P x →
  list_find P (l ++ [x]) = Some (length l, x).
Proof.
  intros Hnone HP. rewrite list_find_app_r by done. simpl.
  rewrite decide_True by done. simpl. done.
Qed.

(** After [addServiceProvider p], a search by id for [p]'s id finds [p]. *)
Lemma findProviderById_add provider s :
  findProviderById (sp_id provider)
    (serviceProviders (addServiceProvider provider s)) = Some provider.
Proof.
  unfold findProviderById.
  destruct (addServiceProvider_cases provider s) as [(i & old & Hf & ->)|[Hf ->]].
  - pose proof Hf as (Hi & _ & Hleast)%list_find_Some.
    rewrite list_find_insert_here; eauto using lookup_lt_Some.
  - by rewrite list_find_app_here.
Qed.

(** Writing a slot does not change a search when neither the old nor the
    new element satisfies the predicate. *)
Lemma list_find_insert_irrelevant {A} (P : A → Prop) `{!∀ x, Decision (P x)}
    (l : list A) (i : nat) (x : A) :
  ¬ P x → (∀ z, l !! i = Some z → ¬ P z) →
  list_find P (<[i := x]> l) = list_find P l.
Proof.
  intros Hx. revert i. induction l as [|y l IH]; intros i Hz; [done|].
  destruct i as [|i]; simpl.
  - rewrite decide_False by done.
    rewrite decide_False by (apply (Hz y); done). done.
  - case_decide; [done|]. rewrite IH; [done|]. intros z Hl. by apply Hz.
Qed.

(** A search by another id is not affected. *)
Lemma findProviderById_add_ne provider pid s :
  sp_id provider ≠ pid →
  findProviderById pid (serviceProviders (addServiceProvider provider s))
  = findProviderById pid (serviceProviders s).
Proof.
  intros Hne. unfold findProviderById. f_equal.
  destruct (addServiceProvider_cases provider s) as [(i & old & Hf & ->)|[Hf ->]].
  - apply list_find_Some in Hf as (Hi & Hold & _).
    apply list_find_insert_irrelevant; [done|].
    intros z Hz. simplify_eq. congruence.
  - destruct (list_find (λ p, sp_id p = pid) (serviceProviders s))
      as [[j y]|] eqn:E.
    + by apply list_find_app_l.
    + rewrite list_find_app_r by done. simpl. by rewrite decide_False.
Qed.

(** After [updateClaudeAccounts], the first official provider is the one
    that was written. *)
Lemma updatedClaudeProvider_type incoming s :
  sp_type (updatedClaudeProvider incoming s) = claude_official.
Proof.
  unfold updatedClaudeProvider, claudeProviderOrNew. simpl.
  destruct (findClaudeProvider _) as [p|] eqn:E; [|done].
  by apply findClaudeProvider_Some in E as [_ ?].
Qed.

Lemma findClaudeProvider_add provider s :
  sp_type provider = claude_official →
  sp_id provider = sp_id (claudeProviderOrNew s) →
  findClaudeProvider (serviceProviders (addServiceProvider provider s))
  = Some provider.
Proof.
  intros Hty Hid. unfold findClaudeProvider.
  assert (Hleast : ∀ i old,
    list_find (λ p, sp_id p = sp_id provider) (serviceProviders s) = Some (i, old) →
    ∀ j y, serviceProviders s !! j = Some y → j < i → sp_type y ≠ claude_official).
  { intros i old (Hi & Hold & Hmin)%list_find_Some j y Hj Hlt Hy.
    unfold claudeProviderOrNew, findClaudeProvider, getServiceProviders in Hid.
    destruct (list_find (λ p, sp_type p = claude_official) (serviceProviders s))
      as [[k c]|] eqn:E; simpl in Hid.
    - apply list_find_Some in E as (Hk & Hc & Hfirst).
      destruct (decide (k < i)) as [Hki|Hki].
      + by apply (Hmin k c).
      + apply (Hfirst j y); [done|lia|done].
    - apply list_find_None in E. rewrite Forall_lookup in E. by eapply E. }
  destruct (addServiceProvider_cases provider s) as [(i & old & Hf & ->)|[Hf ->]].
  - rewrite list_find_insert_here; [done| |done|eauto].
    apply list_find_Some in Hf as (Hi & _). eauto using lookup_lt_Some.
  - unfold claudeProviderOrNew, findClaudeProvider, getServiceProviders in Hid.
    destruct (list_find (λ p, sp_type p = claude_official) (serviceProviders s))
      as [[k c]|] eqn:E; simpl in Hid.
    + apply list_find_Some in E as (Hk & _).
      apply list_find_None in Hf. rewrite Forall_lookup in Hf.
      by destruct (Hf k c Hk).
    + by rewrite list_find_app_here.
Qed.

Lemma findClaudeProvider_updateClaudeAccounts incoming s :
  findClaudeProvider (serviceProviders (updateClaudeAccounts incoming s))
  = Some (updatedClaudeProvider incoming s).
Proof.
  apply findClaudeProvider_add; [apply updatedClaudeProvider_type|done].
Qed.

(** ** The merge of incoming official accounts *)

Lemma with_authorization_same a : with_authorization (authorization a) a = a.
Proof. by destruct a. Qed.

Lemma emailAddress_with_authorization v a :
  emailAddress (with_authorization v a) = emailAddress a.
Proof. done. Qed.

Lemma list_find_app_irrelevant {A} (P : A → Prop) `{!∀ x, Decision (P x)}
    (l : list A) (x : A) :
  ¬ P x → list_find P (l ++ [x]) = list_find P l.
Proof.
  intros Hx. destruct (list_find P l) as [[j y]|] eqn:E.
  - by apply list_find_app_l.
  - rewrite list_find_app_r by done. simpl. by rewrite decide_False.
Qed.

Lemma mergeAccount_cases l a :
  (∃ i e,
      list_find (λ x, acc_emailAddress x = emailAddress a) l = Some (i, e)
      ∧ mergeAccount l a
        = <[i := Official (with_authorization
                             (js_or (acc_authorization e) (authorization a)) a)]> l)
  ∨ (list_find (λ x, acc_emailAddress x = emailAddress a) l = None
     ∧ mergeAccount l a = l ++ [Official a]).
Proof.
  unfold mergeAccount.
  destruct (list_find _ _) as [[i e]|] eqn:E; [left|right]; eauto.
Qed.

(** An account of another email keeps its slot. *)
Lemma mergeAccount_lookup_other l a i x :
  l !! i = Some x → acc_emailAddress x ≠ emailAddress a →
  mergeAccount l a !! i = Some x.
Proof.
  intros Hi Hne.
  destruct (mergeAccount_cases l a) as [(j & e & Hf & ->)|[Hf ->]].
  - apply list_find_Some in Hf as (Hj & He & _).
    rewrite list_lookup_insert_ne; [done|]. intros ->. by simplify_eq.
  - by apply lookup_app_l_Some.
Qed.

(** Every slot survives a merge step, with the same email. *)
Lemma mergeAccount_lookup l a i x :
  l !! i = Some x →
  ∃ x', mergeAccount l a !! i = Some x'
        ∧ acc_emailAddress x' = acc_emailAddress x.
Proof.
  intros Hi.
  destruct (mergeAccount_cases l a) as [(j & e & Hf & ->)|[Hf ->]].
  - apply list_find_Some in Hf as (Hj & He & _).
    destruct (decide (j = i)) as [->|Hne].
    + rewrite list_lookup_insert_eq by eauto using lookup_lt_Some.
      simplify_eq. eauto.
    + rewrite list_lookup_insert_ne by done. eauto.
  - exists x. split; [by apply lookup_app_l_Some|done].
Qed.

(** A search for another email is not affected by a merge step. *)
Lemma mergeAccount_find_other l a k :
  emailAddress a ≠ k →
  list_find (λ x, acc_emailAddress x = k) (mergeAccount l a)
  = list_find (λ x, acc_emailAddress x = k) l.
Proof.
  intros Hne.
  destruct (mergeAccount_cases l a) as [(j & e & Hf & ->)|[Hf ->]].
  - apply list_find_Some in Hf as (Hj & He & _).
    apply list_find_insert_irrelevant; [done|].
    intros z Hz. simplify_eq. congruence.
  - by apply list_find_app_irrelevant.
Qed.

(** The incoming account is stored by the step, up to its authorization. *)
Lemma mergeAccount_stores l a :
  ∃ i v, mergeAccount l a !! i = Some (Official (with_authorization v a)).
Proof.
  destruct (mergeAccount_cases l a) as [(j & e & Hf & ->)|[Hf ->]].
  - apply list_find_Some in Hf as (Hj & _).
    eexists j, _. apply list_lookup_insert_eq. eauto using lookup_lt_Some.
  - exists (length l), (authorization a). rewrite with_authorization_same.
    by rewrite lookup_app_r, Nat.sub_diag by lia.
Qed.

Lemma mergeAccounts_cons l a incoming :
  mergeAccounts l (a :: incoming) = mergeAccounts (mergeAccount l a) incoming.
Proof. done. Qed.

Lemma mergeAccounts_app l inc1 inc2 :
  mergeAccounts l (inc1 ++ inc2) = mergeAccounts (mergeAccounts l inc1) inc2.
Proof. apply foldl_app. Qed.

Lemma mergeAccounts_lookup_other l incoming i x :
  l !! i = Some x →
  (∀ a, a ∈ incoming → emailAddress a ≠ acc_emailAddress x) →
  mergeAccounts l incoming !! i = Some x.
Proof.
  revert l. induction incoming as [|a incoming IH]; intros l Hi Hne; [done|].
  rewrite mergeAccounts_cons. apply IH.
  - apply mergeAccount_lookup_other; [done|].
    intros Heq. by apply (Hne a); [left|].
  - intros b Hb. apply Hne. by right.
Qed.

Lemma mergeAccounts_lookup l incoming i x :
  l !! i = Some x →
  ∃ x', mergeAccounts l incoming !! i = Some x'
        ∧ acc_emailAddress x' = acc_emailAddress x.
Proof.
  revert l x. induction incoming as [|a incoming IH]; intros l x Hi; [eauto|].
  rewrite mergeAccounts_cons.
  destruct (mergeAccount_lookup l a i x Hi) as (x1 & H1 & E1).
  destruct (IH _ _ H1) as (x2 & H2 & E2).
  exists x2. split; [done|congruence].
Qed.

Lemma mergeAccounts_find_other l incoming k :
  (∀ a, a ∈ incoming → emailAddress a ≠ k) →
  list_find (λ x, acc_emailAddress x = k) (mergeAccounts l incoming)
  = list_find (λ x, acc_emailAddress x = k) l.
Proof.
  revert l. induction incoming as [|a incoming IH]; intros l Hne; [done|].
  rewrite mergeAccounts_cons, IH by (intros b Hb; apply Hne; by right).
  apply mergeAccount_find_other, Hne. by left.
Qed.

(** Each incoming account has an account of its email in the result. *)
Lemma mergeAccounts_stores l incoming a :
  a ∈ incoming →
  ∃ i x, mergeAccounts l incoming !! i = Some x
         ∧ acc_emailAddress x = emailAddress a.
Proof.
  revert l. induction incoming as [|b incoming IH]; intros l Ha.
  - by apply elem_of_nil in Ha.
  - rewrite mergeAccounts_cons. apply elem_of_cons in Ha as [->|Ha]; [|eauto].
    destruct (mergeAccount_stores l b) as (i & v & Hi).
    destruct (mergeAccounts_lookup _ incoming _ _ Hi) as (x & Hx & Ex).
    exists i, x. split; [done|]. by rewrite Ex.
Qed.

Lemma accounts_updatedClaudeProvider incoming s :
  accounts (updatedClaudeProvider incoming s)
  = mergeAccounts (accounts (claudeProviderOrNew s)) incoming.
Proof. done. Qed.

Lemma activeAccountId_updatedClaudeProvider incoming s :
  activeAccountId (updatedClaudeProvider incoming s)
  = reassignActive incoming (activeAccountId (claudeProviderOrNew s)).
Proof. done. Qed.

Lemma claudeProviderOrNew_found s p :
  findClaudeProvider (serviceProviders s) = Some p → claudeProviderOrNew s = p.
Proof. unfold claudeProviderOrNew, getServiceProviders. by intros ->. Qed.

Lemma claudeProviderOrNew_fresh s :
  findClaudeProvider (serviceProviders s) = None →
  claudeProviderOrNew s = newClaudeProvider.
Proof. unfold claudeProviderOrNew, getServiceProviders. by intros ->. Qed.

(** ** Sample data *)

Definition sampleAccount (email : string) (token : option string) : ClaudeAccount :=
  {| accountUuid := Some (lit "uuid-1");
     emailAddress := Some (lit email);
     organizationUuid := Some (lit "org-1");
     organizationRole := Some (lit "admin");
     workspaceRole := JsNull;
     organizationName := Some (lit "Org");
     authorization := lit <$> token |}.

Definition sampleThirdParty (id key : string) : ThirdPartyAccount :=
  {| tp_id := lit id;
     tp_name := lit "Gateway";
     apiKey := lit key;
     baseUrl := lit "https://api.example.com";
     description := Some (lit "API Provider: Gateway") |}.

(** A registry with one detected account whose token is [T]. *)
Definition registryWithToken : AppSettings :=
  updateClaudeAccounts [sampleAccount "a@x.com" (Some "T"%string)] defaultSettings.

(** ** C1: credentials on an email match *)

(** C1, amended.  When [updateClaudeAccounts] is given an account whose
    [emailAddress] matches an account of the official provider (and no other
    incoming account has that email), the stored account takes every field
    of the incoming one except [authorization]: the existing
    [authorization] is kept whenever it is non-empty, and the incoming one
    is used only when the existing one is empty or absent. *)
Theorem C1_merge_keeps_existing_authorization
    (s : AppSettings) (p : ServiceProvider) (inc1 inc2 : list ClaudeAccount)
    (a : ClaudeAccount) (i : nat) (e : Account) :
  findClaudeProvider (serviceProviders s) = Some p →
  list_find (λ x, acc_emailAddress x = emailAddress a) (accounts p) = Some (i, e) →
  (∀ b, b ∈ inc1 ++ inc2 → emailAddress b ≠ emailAddress a) →
  ∃ p' r,
    findClaudeProvider
      (serviceProviders (updateClaudeAccounts (inc1 ++ a :: inc2) s)) = Some p'
    ∧ accounts p' !! i = Some (Official r)
    ∧ r = with_authorization (authorization r) a
    ∧ (truthy (acc_authorization e) = true → authorization r = acc_authorization e)
    ∧ (truthy (acc_authorization e) = false → authorization r = authorization a).
Proof.
  intros Hp Hf Hne.
  exists (updatedClaudeProvider (inc1 ++ a :: inc2) s),
         (with_authorization (js_or (acc_authorization e) (authorization a)) a).
  split; [apply findClaudeProvider_updateClaudeAccounts|].
  rewrite accounts_updatedClaudeProvider, (claudeProviderOrNew_found s p Hp).
  split; [|split; [done|unfold js_or; split; intros ->; done]].
  rewrite mergeAccounts_app, mergeAccounts_cons.
  assert (Hf1 : list_find (λ x, acc_emailAddress x = emailAddress a)
                  (mergeAccounts (accounts p) inc1) = Some (i, e)).
  { rewrite mergeAccounts_find_other; [done|].
    intros b Hb. apply Hne, elem_of_app. by left. }
  apply mergeAccounts_lookup_other.
  - unfold mergeAccount. rewrite Hf1.
    apply list_lookup_insert_eq.
    apply list_find_Some in Hf1 as (Hi & _). eauto using lookup_lt_Some.
  - intros b Hb. simpl. apply Hne, elem_of_app. by right.
Qed.

Lemma C1_witness :
  ∃ p' r,
    findClaudeProvider
      (serviceProviders
         (updateClaudeAccounts ([] ++ sampleAccount "a@x.com" None :: [])
                               registryWithToken)) = Some p'
    ∧ accounts p' !! 0 = Some (Official r)
    ∧ authorization r = Some (lit "T").
Proof.
  destruct (C1_merge_keeps_existing_authorization
              registryWithToken
              (updatedClaudeProvider [sampleAccount "a@x.com" (Some "T"%string)]
                                     defaultSettings)
              [] [] (sampleAccount "a@x.com" None) 0
              (Official (sampleAccount "a@x.com" (Some "T"%string))))
    as (p' & r & Hp' & Hr & _ & Hkeep & _).
  - reflexivity.
  - reflexivity.
  - intros b Hb. by apply elem_of_nil in Hb.
  - exists p', r. split; [exact Hp'|]. split; [exact Hr|]. apply Hkeep. reflexivity.
Defined.

(** C1 as stated fails: the existing token [T] survives an incoming account
    of the same email that supplies the non-empty token [U]. *)
Lemma C1_counterexample :
  let incoming := sampleAccount "a@x.com" (Some "U"%string) in
  findClaudeProvider (serviceProviders registryWithToken)
  = Some (updatedClaudeProvider [sampleAccount "a@x.com" (Some "T"%string)]
                                defaultSettings)
  ∧ truthy (authorization incoming) = true
  ∧ ∃ p' r,
      findClaudeProvider
        (serviceProviders (updateClaudeAccounts [incoming] registryWithToken))
      = Some p'
      ∧ accounts p' = [Official r]
      ∧ authorization r = Some (lit "T")
      ∧ authorization r ≠ authorization incoming.
Proof.
  simpl. split; [reflexivity|]. split; [reflexivity|].
  eexists _, _. split; [reflexivity|]. split; [reflexivity|].
  split; [reflexivity|]. discriminate.
Qed.

(** ** C4: a merge deletes nothing *)

Lemma mergeAccounts_length l incoming :
  length l ≤ length (mergeAccounts l incoming).
Proof.
  revert l. induction incoming as [|a incoming IH]; intros l; [done|].
  rewrite mergeAccounts_cons. etrans; [|apply IH].
  destruct (mergeAccount_cases l a) as [(j & e & _ & ->)|[_ ->]].
  - by rewrite length_insert.
  - rewrite length_app. lia.
Qed.

(** C4.  [updateClaudeAccounts] keeps every account of the official
    provider in its slot: with the same email, and unchanged when no
    incoming account has that email.  Merging [[A]] and then [[B]], of
    different emails, leaves both in the official provider (each up to the
    authorization kept from an earlier account of its email); on the fresh
    registry the provider then holds exactly [A] and [B]. *)
Theorem C4_merge_never_deletes :
  (∀ s incoming p,
      findClaudeProvider (serviceProviders s) = Some p →
      ∃ p',
        findClaudeProvider (serviceProviders (updateClaudeAccounts incoming s))
        = Some p'
        ∧ length (accounts p) ≤ length (accounts p')
        ∧ (∀ i x, accounts p !! i = Some x →
             ∃ x', accounts p' !! i = Some x'
                   ∧ acc_emailAddress x' = acc_emailAddress x)
        ∧ (∀ i x, accounts p !! i = Some x →
             (∀ a, a ∈ incoming → emailAddress a ≠ acc_emailAddress x) →
             accounts p' !! i = Some x))
  ∧ (∀ s A B,
        emailAddress A ≠ emailAddress B →
        ∃ p ia ib va vb,
          findClaudeProvider
            (serviceProviders (updateClaudeAccounts [B] (updateClaudeAccounts [A] s)))
          = Some p
          ∧ accounts p !! ia = Some (Official (with_authorization va A))
          ∧ accounts p !! ib = Some (Official (with_authorization vb B)))
  ∧ (∀ A B,
        emailAddress A ≠ emailAddress B →
        ∃ p,
          findClaudeProvider
            (serviceProviders
               (updateClaudeAccounts [B] (updateClaudeAccounts [A] defaultSettings)))
          = Some p
          ∧ accounts p = [Official A; Official B]).
Proof.
  split_and!.
  - intros s incoming p Hp.
    exists (updatedClaudeProvider incoming s).
    rewrite accounts_updatedClaudeProvider, (claudeProviderOrNew_found s p Hp).
    split_and!.
    + apply findClaudeProvider_updateClaudeAccounts.
    + apply mergeAccounts_length.
    + intros i x Hi. by apply mergeAccounts_lookup.
    + intros i x Hi Hne. by apply mergeAccounts_lookup_other.
  - intros s A B Hne.
    set (s1 := updateClaudeAccounts [A] s).
    pose proof (findClaudeProvider_updateClaudeAccounts [A] s) as H1.
    fold s1 in H1.
    destruct (mergeAccount_stores (accounts (claudeProviderOrNew s)) A)
      as (ia & va & Hia).
    destruct (mergeAccount_stores (mergeAccount (accounts (claudeProviderOrNew s)) A) B)
      as (ib & vb & Hib).
    exists (updatedClaudeProvider [B] s1), ia, ib, va, vb.
    rewrite accounts_updatedClaudeProvider, (claudeProviderOrNew_found s1 _ H1).
    rewrite accounts_updatedClaudeProvider.
    split_and!.
    + apply findClaudeProvider_updateClaudeAccounts.
    + apply mergeAccount_lookup_other; [exact Hia|]. simpl. congruence.
    + exact Hib.
  - intros A B Hne. eexists. split.
    + apply findClaudeProvider_updateClaudeAccounts.
    + rewrite accounts_updatedClaudeProvider.
      rewrite (claudeProviderOrNew_found _ _
                 (findClaudeProvider_updateClaudeAccounts [A] defaultSettings)).
      rewrite accounts_updatedClaudeProvider. simpl.
      unfold mergeAccount. simpl. rewrite decide_False by done. done.
Qed.

Lemma C4_witness :
  ∃ p,
    findClaudeProvider
      (serviceProviders
         (updateClaudeAccounts [sampleAccount "b@x.com" None]
            (updateClaudeAccounts [sampleAccount "a@x.com" None] defaultSettings)))
    = Some p
    ∧ accounts p = [Official (sampleAccount "a@x.com" None);
                    Official (sampleAccount "b@x.com" None)].
Proof.
  apply (proj2 (proj2 C4_merge_never_deletes)). discriminate.
Defined.

(** ** C5: the active account after a merge *)

Lemma reassignActive_absent incoming active :
  (∀ a, a ∈ incoming → emailAddress a ≠ active) →
  reassignActive incoming active
  = match incoming with
    | first :: _ => emailAddress first
    | [] => Some []
    end.
Proof.
  intros Hne. unfold reassignActive.
  destruct (list_find _ _) as [[i a]|] eqn:E; [|done].
  apply list_find_Some in E as (Hi & Ha & _).
  destruct (Hne a); [by eapply list_elem_of_lookup_2|done].
Qed.

Lemma reassignActive_present incoming active a :
  a ∈ incoming → emailAddress a = active →
  reassignActive incoming active = active.
Proof.
  intros Hin Ha. unfold reassignActive.
  destruct (list_find_elem_of (λ acc, emailAddress acc = active) incoming a Hin Ha)
    as [[i b] ->]. done.
Qed.

(** C5.  Let [prior] be the official provider's [activeAccountId] before
    [updateClaudeAccounts incoming] (the empty string when the provider is
    created by the call).  If no account of [incoming] has the email
    [prior], the new [activeAccountId] is the email of the first incoming
    account, or the empty string when [incoming] is empty; if some account
    of [incoming] has it, [activeAccountId] is unchanged.  Only [incoming]
    is consulted, not the merged list. *)
Theorem C5_active_account_after_merge
    (s : AppSettings) (incoming : list ClaudeAccount) :
  let prior :=
    match findClaudeProvider (serviceProviders s) with
    | Some p => activeAccountId p
    | None => Some []
    end in
  ∃ p',
    findClaudeProvider (serviceProviders (updateClaudeAccounts incoming s)) = Some p'
    ∧ ((∀ a, a ∈ incoming → emailAddress a ≠ prior) →
       activeAccountId p'
       = match incoming with
         | first :: _ => emailAddress first
         | [] => Some []
         end)
    ∧ ((∃ a, a ∈ incoming ∧ emailAddress a = prior) →
       activeAccountId p' = prior).
Proof.
  intros prior.
  assert (Hprior : activeAccountId (claudeProviderOrNew s) = prior).
  { unfold prior, claudeProviderOrNew, getServiceProviders.
    by destruct (findClaudeProvider _). }
  exists (updatedClaudeProvider incoming s).
  rewrite activeAccountId_updatedClaudeProvider, Hprior.
  split_and!.
  - apply findClaudeProvider_updateClaudeAccounts.
  - apply reassignActive_absent.
  - intros (a & Hin & Ha). by eapply reassignActive_present.
Qed.

Lemma C5_witness :
  ∃ p',
    findClaudeProvider
      (serviceProviders
         (updateClaudeAccounts [sampleAccount "b@x.com" None] registryWithToken))
    = Some p'
    ∧ activeAccountId p' = Some (lit "b@x.com").
Proof.
  destruct (C5_active_account_after_merge registryWithToken
              [sampleAccount "b@x.com" None]) as (p' & Hp' & Habsent & _).
  exists p'. split; [exact Hp'|]. apply Habsent.
  intros a Ha. apply list_elem_of_singleton in Ha as ->. discriminate.
Defined.

(** ** C10: a merge of no account *)

Lemma with_accounts_same p : with_accounts (accounts p) p = p.
Proof. by destruct p. Qed.

Lemma updatedClaudeProvider_nil s :
  updatedClaudeProvider [] s
  = with_activeAccountId (Some []) (claudeProviderOrNew s).
Proof.
  unfold updatedClaudeProvider. simpl. by rewrite with_accounts_same.
Qed.

(** A registry whose only provider is a third-party one stored under the
    id [claude_official]. *)
Definition registryWithClash : AppSettings :=
  addThirdPartyAccount (lit "claude_official") (sampleThirdParty "k1" "secret")
                       defaultSettings.

(** C10, amended.  [updateClaudeAccounts []] is not a no-op.  When no
    provider has the official type, the provider [newClaudeProvider] (id
    [claude_official], no account, [useProxy] true) is stored by id: it is
    appended when no provider has the id [claude_official], and it replaces
    the provider that has this id otherwise.  In every case the official
    provider afterwards has an empty [activeAccountId] and the accounts it
    had before. *)
Theorem C10_merge_of_nothing :
  (∀ s,
      findClaudeProvider (serviceProviders s) = None →
      (list_find (λ p, sp_id p = lit "claude_official") (serviceProviders s) = None →
       serviceProviders (updateClaudeAccounts [] s)
       = serviceProviders s ++ [newClaudeProvider])
      ∧ (∀ j old,
           list_find (λ p, sp_id p = lit "claude_official") (serviceProviders s)
           = Some (j, old) →
           serviceProviders (updateClaudeAccounts [] s)
           = <[j := newClaudeProvider]> (serviceProviders s)))
  ∧ (∀ s p,
        findClaudeProvider (serviceProviders s) = Some p →
        findClaudeProvider (serviceProviders (updateClaudeAccounts [] s))
        = Some (with_activeAccountId (Some []) p))
  ∧ (∀ s,
        ∃ p',
          findClaudeProvider (serviceProviders (updateClaudeAccounts [] s)) = Some p'
          ∧ activeAccountId p' = Some []
          ∧ accounts p' = accounts (claudeProviderOrNew s))
  ∧ updateClaudeAccounts [] defaultSettings ≠ defaultSettings.
Proof.
  split_and!.
  - intros s Hnone. unfold updateClaudeAccounts.
    rewrite updatedClaudeProvider_nil, (claudeProviderOrNew_fresh s Hnone).
    change (with_activeAccountId (Some []) newClaudeProvider) with newClaudeProvider.
    unfold addServiceProvider, getServiceProviders.
    change (sp_id newClaudeProvider) with (lit "claude_official").
    split.
    + by intros ->.
    + by intros j old ->.
  - intros s p Hp.
    rewrite findClaudeProvider_updateClaudeAccounts, updatedClaudeProvider_nil.
    by rewrite (claudeProviderOrNew_found s p Hp).
  - intros s. exists (updatedClaudeProvider [] s). split_and!.
    + apply findClaudeProvider_updateClaudeAccounts.
    + done.
    + done.
  - discriminate.
Qed.

Lemma C10_witness :
  serviceProviders (updateClaudeAccounts [] defaultSettings) = [newClaudeProvider].
Proof.
  apply (proj1 (proj1 C10_merge_of_nothing defaultSettings eq_refl)).
  reflexivity.
Defined.

(** C10 as stated fails: with no official provider in the registry, the
    new provider is not appended; it takes the place of the third-party
    provider stored under its id, whose account is gone. *)
Lemma C10_counterexample :
  findClaudeProvider (serviceProviders registryWithClash) = None
  ∧ length (serviceProviders registryWithClash) = 1
  ∧ serviceProviders (updateClaudeAccounts [] registryWithClash)
    = [newClaudeProvider]
  ∧ serviceProviders (updateClaudeAccounts [] registryWithClash)
    ≠ serviceProviders registryWithClash ++ [newClaudeProvider].
Proof.
  split_and!; [reflexivity|reflexivity|reflexivity|discriminate].
Qed.

(** ** The import loop *)

(** Once a [TypeError] has left the loop, nothing more is done. *)
Lemma importThirdPartyEntry_thrown sensitive pid st e fault :
  thrown st = Some fault → importThirdPartyEntry sensitive pid st e = st.
Proof. intros H. unfold importThirdPartyEntry. by rewrite H. Qed.

Lemma importThirdPartyEntries_thrown sensitive pid st entries fault :
  thrown st = Some fault →
  foldl (importThirdPartyEntry sensitive pid) st entries = st.
Proof.
  intros H. induction entries as [|e entries IH]; [done|].
  simpl. by rewrite (importThirdPartyEntry_thrown _ _ _ _ _ H).
Qed.

Lemma importProvider_thrown sensitive st e fault :
  thrown st = Some fault → importProvider sensitive st e = st.
Proof. intros H. unfold importProvider. by rewrite H. Qed.

Lemma importProviders_thrown sensitive st entries fault :
  thrown st = Some fault → foldl (importProvider sensitive) st entries = st.
Proof.
  intros H. induction entries as [|e entries IH]; [done|].
  simpl. by rewrite (importProvider_thrown _ _ _ _ H).
Qed.

(** An element the loop over a third-party entry passes over: an object
    that lacks a non-empty [id], [name] or [baseUrl]. *)
Definition skipped (e : DocAccount) : bool :=
  match e with
  | DocThirdParty a => negb (validThirdParty a)
  | DocOfficial _ => true
  | DocNull => false
  end.

Lemma importThirdPartyEntry_skipped sensitive pid st e :
  skipped e = true → importThirdPartyEntry sensitive pid st e = st.
Proof.
  intros H. unfold importThirdPartyEntry.
  destruct (thrown st); [done|].
  destruct e as [a|a|]; [done| |done].
  simpl in H. by destruct (validThirdParty a).
Qed.

Lemma importThirdPartyEntry_valid sensitive pid st a :
  thrown st = None → validThirdParty a = true →
  importThirdPartyEntry sensitive pid st (DocThirdParty a)
  = {| store :=
         addThirdPartyAccount pid (importThirdPartyAccount sensitive a) (store st);
       importedAccountsCount := S (importedAccountsCount st);
       importedSensitiveCount :=
         if sensitive && truthy (d_apiKey a)
         then S (importedSensitiveCount st)
         else importedSensitiveCount st;
       thrown := None |}.
Proof. intros H Hv. unfold importThirdPartyEntry. by rewrite H, Hv. Qed.

Lemma importThirdPartyEntry_null sensitive pid st :
  thrown st = None →
  importThirdPartyEntry sensitive pid st DocNull = throw NullAccount st.
Proof. intros H. unfold importThirdPartyEntry. by rewrite H. Qed.

(** The accounts the loop over a third-party entry's array upserts: those
    of the valid objects, in order. *)
Definition validAccounts (sensitive : bool) (entries : list DocAccount)
  : list ThirdPartyAccount :=
  omap (λ e, match e with
             | DocThirdParty a =>
                 if validThirdParty a
                 then Some (importThirdPartyAccount sensitive a)
                 else None
             | _ => None
             end) entries.

Lemma validAccounts_cons sensitive e entries :
  validAccounts sensitive (e :: entries)
  = match e with
    | DocThirdParty a =>
        if validThirdParty a
        then importThirdPartyAccount sensitive a :: validAccounts sensitive entries
        else validAccounts sensitive entries
    | _ => validAccounts sensitive entries
    end.
Proof.
  unfold validAccounts. cbn [omap list_omap]. destruct e as [a|a|]; [done| |done].
  by destruct (validThirdParty a).
Qed.

Lemma validAccounts_app sensitive es1 es2 :
  validAccounts sensitive (es1 ++ es2)
  = validAccounts sensitive es1 ++ validAccounts sensitive es2.
Proof. apply omap_app. Qed.

(** Without a [null] element, the loop over an array upserts exactly the
    valid accounts, counts them, and does not throw. *)
Lemma importThirdPartyEntries_spec sensitive pid st entries :
  thrown st = None → DocNull ∉ entries →
  let st' := foldl (importThirdPartyEntry sensitive pid) st entries in
  store st'
  = foldl (λ s a, addThirdPartyAccount pid a s) (store st)
          (validAccounts sensitive entries)
  ∧ importedAccountsCount st'
    = importedAccountsCount st + length (validAccounts sensitive entries)
  ∧ thrown st' = None.
Proof.
  revert st. induction entries as [|e entries IH]; intros st Hst Hnull.
  { split_and!; [done|simpl; lia|done]. }
  apply not_elem_of_cons in Hnull as [He Hnull].
  rewrite validAccounts_cons. cbn [foldl].
  destruct e as [a|a|]; [| |done].
  - rewrite importThirdPartyEntry_skipped by done. by apply IH.
  - destruct (validThirdParty a) eqn:E.
    + rewrite importThirdPartyEntry_valid by done.
      match goal with
      | |- context [foldl _ ?st0 entries] =>
          destruct (IH st0 eq_refl Hnull) as (-> & -> & ->)
      end.
      simpl. split_and!; [done|lia|done].
    + rewrite importThirdPartyEntry_skipped by (simpl; by rewrite E).
      by apply IH.
Qed.

(** An array has a [null] element. *)
Definition hasNull (entries : list DocAccount) : bool :=
  existsb (λ e, bool_decide (e = DocNull)) entries.

Lemma hasNull_true entries : hasNull entries = true ↔ DocNull ∈ entries.
Proof.
  unfold hasNull. rewrite existsb_exists. split.
  - intros (e & He & ->%bool_decide_eq_true). by apply list_elem_of_In.
  - intros H. exists DocNull. split; [by apply list_elem_of_In|].
    by apply bool_decide_eq_true.
Qed.

Lemma hasNull_false entries : hasNull entries = false ↔ DocNull ∉ entries.
Proof. rewrite <- hasNull_true. by destruct (hasNull entries). Qed.

(** The loop over an array throws exactly when an element is [null]. *)
Lemma importThirdPartyEntries_fault sensitive pid st entries :
  thrown st = None →
  thrown (foldl (importThirdPartyEntry sensitive pid) st entries)
  = if hasNull entries then Some NullAccount else None.
Proof.
  revert st. induction entries as [|e entries IH]; intros st Hst; [done|].
  cbn [foldl]. destruct (decide (e = DocNull)) as [->|He].
  - rewrite importThirdPartyEntry_null by done.
    by rewrite (importThirdPartyEntries_thrown _ _ _ _ NullAccount).
  - assert (Hthrown : thrown (importThirdPartyEntry sensitive pid st e) = None).
    { unfold importThirdPartyEntry. rewrite Hst.
      destruct e as [a|a|]; [done| |done]. by destruct (validThirdParty a). }
    rewrite (IH _ Hthrown). unfold hasNull. cbn [existsb].
    by rewrite bool_decide_eq_false_2.
Qed.

(** [accounts.map(...)] of an official entry throws exactly when an element
    is [null]. *)
Lemma importClaudeAccounts_None sensitive entries :
  mapM (importClaudeAccount sensitive) entries = None ↔ DocNull ∈ entries.
Proof.
  induction entries as [|e entries IH].
  { split; [done|]. by intros ?%elem_of_nil. }
  rewrite elem_of_cons. cbn [mapM].
  destruct e as [a|a|]; simpl; [| |split; [by left|done]].
  all: destruct (mapM _ entries) eqn:E; simpl.
  all: split; [|intros [?|H]; [done|]; by apply IH in H].
  all: try done.
  all: intros _; right; by apply IH.
Qed.

(** The [TypeError] an entry of [serviceProviders] makes the loop throw,
    if any. *)
Definition entryFault (e : DocEntry) : option Fault :=
  match e with
  | NullEntry => Some NullProvider
  | ProviderEntry p =>
      match dp_type p, dp_accounts p with
      | Some _, Some (AccountsArray entries) =>
          if hasNull entries then Some NullAccount else None
      | Some claude_official, Some _ => Some AccountsNotAnArray
      | Some third_party, Some AccountsOther => Some AccountsNotIterable
      | _, _ => None
      end
  end.

(** The first [TypeError] of a list of entries. *)
Definition firstFault (entries : list DocEntry) : option Fault :=
  head (omap entryFault entries).

Lemma firstFault_cons e entries :
  firstFault (e :: entries)
  = match entryFault e with
    | Some fault => Some fault
    | None => firstFault entries
    end.
Proof. unfold firstFault. cbn [omap list_omap]. by destruct (entryFault e). Qed.

Lemma firstFault_app es1 es2 :
  firstFault es1 = None → firstFault (es1 ++ es2) = firstFault es2.
Proof.
  induction es1 as [|e es1 IH]; [done|].
  rewrite <- app_comm_cons, !firstFault_cons.
  destruct (entryFault e); [done|]. exact IH.
Qed.

Lemma importProvider_fault sensitive st e :
  thrown st = None → thrown (importProvider sensitive st e) = entryFault e.
Proof.
  intros Hst. unfold importProvider, entryFault. rewrite Hst.
  destruct e as [|p]; [done|].
  destruct (dp_type p) as [[|]|], (dp_accounts p) as [[entries| |]|]; try done.
  - destruct (mapM _ entries) as [l|] eqn:E.
    + rewrite (proj2 (hasNull_false entries)); [done|].
      intros H%(importClaudeAccounts_None sensitive). congruence.
    + rewrite (proj2 (hasNull_true entries)); [done|].
      by apply (importClaudeAccounts_None sensitive).
  - by apply importThirdPartyEntries_fault.
Qed.

Lemma importProviders_fault sensitive st entries :
  thrown st = None →
  thrown (foldl (importProvider sensitive) st entries) = firstFault entries.
Proof.
  revert st. induction entries as [|e entries IH]; intros st Hst; [done|].
  cbn [foldl]. rewrite firstFault_cons.
  pose proof (importProvider_fault sensitive st e Hst) as He.
  destruct (entryFault e) as [fault|].
  - by rewrite (importProviders_thrown _ _ _ fault).
  - by apply IH.
Qed.

(** A property of the store that the two mutators of the loop keep is kept
    by the loop, whatever the entries are and whether or not it throws. *)
Section loop_invariant.
Context (P : AppSettings → Prop) (sensitive : bool).
Hypothesis P_official :
  ∀ incoming s, P s → P (updateClaudeAccounts incoming s).
Hypothesis P_thirdParty :
  ∀ pid a s,
    validThirdParty a = true →
    P s → P (addThirdPartyAccount pid (importThirdPartyAccount sensitive a) s).

Lemma importThirdPartyEntries_invariant pid st entries :
  P (store st) →
  P (store (foldl (importThirdPartyEntry sensitive pid) st entries)).
Proof.
  revert st. induction entries as [|e entries IH]; intros st Hst; [done|].
  simpl. apply IH. unfold importThirdPartyEntry.
  destruct (thrown st); [done|].
  destruct e as [a|a|]; [done| |done].
  destruct (validThirdParty a) eqn:E; [|done]. simpl. by apply P_thirdParty.
Qed.

Lemma importProvider_invariant st e :
  P (store st) → P (store (importProvider sensitive st e)).
Proof.
  intros Hst. unfold importProvider.
  destruct (thrown st); [done|].
  destruct e as [|p]; [done|].
  destruct (dp_type p) as [[|]|], (dp_accounts p) as [[entries| |]|]; try done.
  - destruct (mapM _ entries); [|done]. simpl. by apply P_official.
  - by apply importThirdPartyEntries_invariant.
Qed.

Lemma importProviders_invariant st entries :
  P (store st) → P (store (foldl (importProvider sensitive) st entries)).
Proof.
  revert st. induction entries as [|e entries IH]; intros st Hst; [done|].
  simpl. apply IH. by apply importProvider_invariant.
Qed.
End loop_invariant.

(** The store after the first three sections of a document. *)
Definition afterPlainSections (sensitive : bool) (ds : DocSettings) (s : AppSettings)
  : AppSettings :=
  let s1 := match ds_proxyConfig ds with
            | Some pc => importProxySection sensitive pc s
            | None => s
            end in
  let s2 := match ds_terminal ds with
            | Some t => updateTerminalConfig t s1
            | None => s1
            end in
  match ds_projectFilter ds with
  | Some f => updateProjectFilterConfig f s2
  | None => s2
  end.

Lemma serviceProviders_afterPlainSections sensitive ds s :
  serviceProviders (afterPlainSections sensitive ds s) = serviceProviders s.
Proof.
  unfold afterPlainSections.
  by destruct (ds_proxyConfig ds), (ds_terminal ds), (ds_projectFilter ds).
Qed.

Lemma importSections_decompose sensitive ds s :
  (importSections sensitive ds s).1
  = match ds_serviceProviders ds with
    | Some providers =>
        store (foldl (importProvider sensitive)
                     (loopStart (afterPlainSections sensitive ds s)) providers)
    | None => afterPlainSections sensitive ds s
    end.
Proof.
  unfold importSections, afterPlainSections.
  by destruct (ds_proxyConfig ds), (ds_terminal ds), (ds_projectFilter ds),
    (ds_serviceProviders ds).
Qed.

Lemma importSettings_store d ds s :
  settings d = Some ds → truthy (version d) = true →
  (importSettings (Parsed d) s).2 = (importSections (hasSensitiveData d) ds s).1.
Proof.
  intros Hs Hv. simpl. unfold importDocument. rewrite Hs, Hv.
  by destruct (importSections _ _ _) as [s' [fault|l]].
Qed.

(** A property of the provider list that the two mutators of the loop keep
    is kept by every import, failed ones included. *)
Lemma importSettings_invariant (P : AppSettings → Prop) file s :
  (∀ s s', serviceProviders s' = serviceProviders s → P s → P s') →
  (∀ incoming s, P s → P (updateClaudeAccounts incoming s)) →
  (∀ sensitive pid a s,
      validThirdParty a = true →
      P s → P (addThirdPartyAccount pid (importThirdPartyAccount sensitive a) s)) →
  P s → P (importSettings file s).2.
Proof.
  intros Hproviders Hofficial HthirdParty Hs.
  destruct file as [message|d]; [done|].
  destruct (settings d) as [ds|] eqn:Eds;
    [|by simpl; unfold importDocument; rewrite Eds].
  destruct (truthy (version d)) eqn:Ev;
    [|by simpl; unfold importDocument; rewrite Eds, Ev].
  assert (H3 : P (afterPlainSections (hasSensitiveData d) ds s)).
  { eapply Hproviders; [|exact Hs]. apply serviceProviders_afterPlainSections. }
  rewrite (importSettings_store d ds s Eds Ev), importSections_decompose.
  destruct (ds_serviceProviders ds) as [providers|]; [|done].
  by apply importProviders_invariant; [|auto|].
Qed.

(** The labels of the first three sections. *)
Definition plainLabels (sensitive : bool) (ds : DocSettings) : list ImportedItem :=
  match ds_proxyConfig ds with Some _ => [ProxyImported sensitive] | None => [] end
  ++ match ds_terminal ds with Some _ => [TerminalImported] | None => [] end
  ++ match ds_projectFilter ds with Some _ => [ProjectFilterImported] | None => [] end.

(** The accounts an entry contributes to the count: every element of an
    official entry's array, the valid objects of a third-party entry's. *)
Definition countedEntries (e : DocEntry) : nat :=
  match e with
  | ProviderEntry p =>
      match dp_type p, dp_accounts p with
      | Some claude_official, Some (AccountsArray l) => length l
      | Some third_party, Some (AccountsArray l) =>
          length (validAccounts false l)
      | _, _ => 0
      end
  | NullEntry => 0
  end.

Lemma length_validAccounts sensitive entries :
  length (validAccounts sensitive entries) = length (validAccounts false entries).
Proof.
  induction entries as [|e entries IH]; [done|].
  rewrite !validAccounts_cons. destruct e as [a|a|]; [done| |done].
  destruct (validThirdParty a); [|done]. simpl. by rewrite IH.
Qed.

Lemma importProvider_count sensitive st e :
  thrown st = None → entryFault e = None →
  importedAccountsCount (importProvider sensitive st e)
  = importedAccountsCount st + countedEntries e.
Proof.
  intros Hst. unfold importProvider, entryFault, countedEntries. rewrite Hst.
  destruct e as [|p]; [done|].
  destruct (dp_type p) as [[|]|], (dp_accounts p) as [[entries| |]|];
    simpl; try lia; try done.
  - destruct (mapM _ entries) as [l|] eqn:E; intros Hf.
    + simpl. by rewrite <- (length_mapM _ _ _ E).
    + apply importClaudeAccounts_None, hasNull_true in E. by rewrite E in Hf.
  - destruct (hasNull entries) eqn:Hnull; [done|]. intros _.
    apply hasNull_false in Hnull.
    destruct (importThirdPartyEntries_spec sensitive (dp_id p) st entries Hst Hnull)
      as (_ & -> & _).
    by rewrite length_validAccounts.
Qed.

Lemma importProviders_count sensitive st entries :
  thrown st = None → firstFault entries = None →
  importedAccountsCount (foldl (importProvider sensitive) st entries)
  = importedAccountsCount st + sum_list (countedEntries <$> entries).
Proof.
  revert st. induction entries as [|e entries IH]; intros st Hst Hf; [simpl; lia|].
  rewrite firstFault_cons in Hf.
  destruct (entryFault e) as [fault|] eqn:He; [done|].
  cbn [foldl]. rewrite IH; [|by rewrite importProvider_fault|done].
  rewrite importProvider_count by done.
  change (sum_list (countedEntries <$> e :: entries))
    with (countedEntries e + sum_list (countedEntries <$> entries)).
  lia.
Qed.

(** The fault of a document: the first one of its provider entries. *)
Definition documentFault (ds : DocSettings) : option Fault :=
  firstFault (default [] (ds_serviceProviders ds)).

Lemma importSections_report sensitive ds s :
  ∃ info,
    (importSections sensitive ds s).2
    = match documentFault ds with
      | Some fault => inl fault
      | None =>
          inr (plainLabels sensitive ds
               ++ match ds_serviceProviders ds with
                  | Some providers =>
                      let n := sum_list (countedEntries <$> providers) in
                      if 0 <? n then [AccountsImported n info] else []
                  | None => []
                  end)
      end.
Proof.
  unfold importSections, documentFault, plainLabels.
  destruct (ds_serviceProviders ds) as [providers|].
  - destruct (ds_proxyConfig ds), (ds_terminal ds), (ds_projectFilter ds);
      cbn [snd default from_option id];
      rewrite (importProviders_fault sensitive (loopStart _) providers eq_refl);
      (destruct (firstFault providers) eqn:Ef; [by exists None|]);
      rewrite (importProviders_count sensitive (loopStart _) providers eq_refl Ef);
      cbn [importedAccountsCount loopStart]; rewrite Nat.add_0_l;
      (destruct (0 <? sum_list (countedEntries <$> providers));
       [eexists; reflexivity|exists None; by rewrite ?app_nil_r]).
  - exists None.
    destruct (ds_proxyConfig ds), (ds_terminal ds), (ds_projectFilter ds);
      by rewrite ?app_nil_r.
Qed.

(** The result of the import of an accepted document. *)
Lemma importSettings_result (d : Document) (ds : DocSettings) (s : AppSettings) :
  settings d = Some ds → truthy (version d) = true →
  ∃ info,
    (importSettings (Parsed d) s).1
    = match documentFault ds with
      | Some fault =>
          {| success := false; error := Some (TypeErrorThrown fault);
             imported := None |}
      | None =>
          {| success := true;
             error := None;
             imported :=
               Some (plainLabels (hasSensitiveData d) ds
                     ++ match ds_serviceProviders ds with
                        | Some providers =>
                            let n := sum_list (countedEntries <$> providers) in
                            if 0 <? n then [AccountsImported n info] else []
                        | None => []
                        end) |}
      end.
Proof.
  intros Hs Hv. simpl. unfold importDocument. rewrite Hs, Hv.
  destruct (importSections_report (hasSensitiveData d) ds s) as [info Hreport].
  exists info.
  destruct (importSections _ _ _) as [s' r]. simpl in Hreport. subst r.
  by destruct (documentFault ds).
Qed.

(** ** C6: a rejected document changes nothing *)

(** C6.  A document without [version] or without [settings] is refused
    with a result, not an exception: [success] is false and the store is the
    one before the call. *)
Theorem C6_rejected_import_changes_nothing (d : Document) (s : AppSettings) :
  version d = None ∨ settings d = None →
  importSettings (Parsed d) s
  = ({| success := false; error := Some InvalidFormat; imported := None |}, s).
Proof.
  intros [Hv|Hs]; simpl; unfold importDocument.
  - rewrite Hv. simpl. by destruct (settings d).
  - by rewrite Hs.
Qed.

Definition sampleDocThirdParty (id url : string) : DocAccount :=
  DocThirdParty
    {| d_id := Some (lit id);
       d_name := Some (lit "Gateway");
       d_baseUrl := Some (lit url);
       d_description := None;
       d_apiKey := None |}.

(** A provider entry with two third-party account objects; the first has
    an empty [baseUrl]. *)
Definition sampleProvider : DocProvider :=
  {| dp_id := lit "third_party_1";
     dp_type := Some third_party;
     dp_name := lit "Gateway";
     dp_useProxy := true;
     dp_activeAccountId := Some (lit "k1");
     dp_accounts :=
       Some (AccountsArray [sampleDocThirdParty "k1" "";
                            sampleDocThirdParty "k2" "https://b"]) |}.

Definition sampleProviders : list DocEntry := [ProviderEntry sampleProvider].

Definition sampleDocument (v : option jsstring) : Document :=
  {| version := v;
     timestamp := lit "2025-01-01T00:00:00.000Z";
     includeSensitiveData := Some false;
     settings :=
       Some {| ds_proxyConfig := None; ds_terminal := None;
               ds_projectFilter := None;
               ds_serviceProviders := Some sampleProviders |} |}.

Lemma C6_witness :
  importSettings (Parsed (sampleDocument None)) registryWithToken
  = ({| success := false; error := Some InvalidFormat; imported := None |},
     registryWithToken).
Proof.
  apply C6_rejected_import_changes_nothing. left. reflexivity.
Defined.

(** ** Upserts of third-party accounts *)

Lemma sp_id_thirdPartyProviderOrNew pid account s :
  sp_id (thirdPartyProviderOrNew pid account s) = pid.
Proof.
  unfold thirdPartyProviderOrNew, getServiceProviders.
  destruct (findProviderById _ _) as [p|] eqn:E; [|done].
  by apply findProviderById_Some in E as [_ ?].
Qed.

Lemma sp_id_activateFirst p : sp_id (activateFirst p) = sp_id p.
Proof.
  unfold activateFirst. destruct (negb _); [|done]. by destruct (accounts p).
Qed.

Lemma accounts_activateFirst p : accounts (activateFirst p) = accounts p.
Proof.
  unfold activateFirst. destruct (negb _); [|done].
  destruct (accounts p) eqn:E; simpl; done.
Qed.

Lemma sp_type_activateFirst p : sp_type (activateFirst p) = sp_type p.
Proof.
  unfold activateFirst. destruct (negb _); [|done]. by destruct (accounts p).
Qed.

Lemma sp_id_updatedThirdPartyProvider pid account s :
  sp_id (updatedThirdPartyProvider pid account s) = pid.
Proof.
  unfold updatedThirdPartyProvider.
  rewrite sp_id_activateFirst. apply sp_id_thirdPartyProviderOrNew.
Qed.

Lemma accounts_updatedThirdPartyProvider pid account s :
  accounts (updatedThirdPartyProvider pid account s)
  = upsertThirdParty account (accounts (thirdPartyProviderOrNew pid account s)).
Proof. unfold updatedThirdPartyProvider. by rewrite accounts_activateFirst. Qed.

Lemma findProviderById_addThirdPartyAccount pid account s :
  findProviderById pid (serviceProviders (addThirdPartyAccount pid account s))
  = Some (updatedThirdPartyProvider pid account s).
Proof.
  unfold addThirdPartyAccount.
  rewrite <- (sp_id_updatedThirdPartyProvider pid account s) at 1.
  apply findProviderById_add.
Qed.


Lemma upsertThirdParty_cases account l :
  (∃ i old,
      list_find (λ acc, acc_id acc = Some (tp_id account)) l = Some (i, old)
      ∧ upsertThirdParty account l = <[i := ThirdParty account]> l)
  ∨ (list_find (λ acc, acc_id acc = Some (tp_id account)) l = None
     ∧ upsertThirdParty account l = l ++ [ThirdParty account]).
Proof.
  unfold upsertThirdParty.
  destruct (list_find _ _) as [[i old]|] eqn:E; [left|right]; eauto.
Qed.

(** After an upsert, the first account of that id is the upserted one. *)
Lemma upsertThirdParty_find account l :
  ∃ i, list_find (λ acc, acc_id acc = Some (tp_id account))
                 (upsertThirdParty account l) = Some (i, ThirdParty account).
Proof.
  destruct (upsertThirdParty_cases account l) as [(i & old & Hf & ->)|[Hf ->]].
  - exists i. apply list_find_Some in Hf as (Hi & _ & Hleast).
    apply list_find_insert_here; eauto using lookup_lt_Some.
  - exists (length l). by apply list_find_app_here.
Qed.


(** ** C3: the active account names a stored account *)

(** The mutators, as commands. *)
Inductive Call :=
  | AddServiceProvider (provider : ServiceProvider)
  | RemoveServiceProvider (providerId : jsstring)
  | SetActiveServiceProvider (providerId : jsstring)
  | SetActiveAccount (providerId accountId : jsstring)
  | SetProviderProxyUsage (providerId : jsstring) (b : bool)
  | UpdateClaudeAccounts (incoming : list ClaudeAccount)
  | UpdateClaudeAccountAuthorization (email token : jsstring)
  | AddThirdPartyAccount (providerId : jsstring) (account : ThirdPartyAccount)
  | RemoveThirdPartyAccount (providerId accountId : jsstring).

Definition perform (c : Call) (s : AppSettings) : AppSettings :=
  match c with
  | AddServiceProvider provider => addServiceProvider provider s
  | RemoveServiceProvider providerId => removeServiceProvider providerId s
  | SetActiveServiceProvider providerId => setActiveServiceProvider providerId s
  | SetActiveAccount providerId accountId => setActiveAccount providerId accountId s
  | SetProviderProxyUsage providerId b => setProviderProxyUsage providerId b s
  | UpdateClaudeAccounts incoming => updateClaudeAccounts incoming s
  | UpdateClaudeAccountAuthorization email token =>
      updateClaudeAccountAuthorization email token s
  | AddThirdPartyAccount providerId account =>
      addThirdPartyAccount providerId account s
  | RemoveThirdPartyAccount providerId accountId =>
      removeThirdPartyAccount providerId accountId s
  end.

Definition performAll (calls : list Call) (s : AppSettings) : AppSettings :=
  foldl (λ s c, perform c s) s calls.

(** [activeAccountId] is empty, or the natural key of an account of the
    provider. *)
Definition activeAccountOk (p : ServiceProvider) : Prop :=
  truthy (activeAccountId p) = false
  ∨ ∃ acc, acc ∈ accounts p ∧ naturalKey (sp_type p) acc = activeAccountId p.

Definition registryOk (s : AppSettings) : Prop :=
  Forall activeAccountOk (serviceProviders s).

(** Calls that keep the property: a provider given to [addServiceProvider]
    has it; the key given to [setActiveAccount] is empty or names an account
    of the provider; the third-party operations do not address a provider of
    the official type. *)
Definition admissible (c : Call) (s : AppSettings) : Prop :=
  match c with
  | AddServiceProvider provider => activeAccountOk provider
  | SetActiveAccount providerId accountId =>
      ∀ p, findProviderById providerId (serviceProviders s) = Some p →
           activeAccountOk (with_activeAccountId (Some accountId) p)
  | AddThirdPartyAccount providerId _
  | RemoveThirdPartyAccount providerId _ =>
      ∀ p, findProviderById providerId (serviceProviders s) = Some p →
           sp_type p = third_party
  | _ => True
  end.

Fixpoint admissibleFrom (s : AppSettings) (calls : list Call) : Prop :=
  match calls with
  | [] => True
  | c :: calls => admissible c s ∧ admissibleFrom (perform c s) calls
  end.

Lemma registryOk_addServiceProvider provider s :
  activeAccountOk provider → registryOk s →
  registryOk (addServiceProvider provider s).
Proof.
  unfold registryOk. intros Hp Hs.
  destruct (addServiceProvider_cases provider s) as [(i & old & _ & ->)|[_ ->]].
  - by apply Forall_insert.
  - apply Forall_app. split; [done|]. by apply Forall_singleton.
Qed.

Lemma registryOk_find pid s p :
  registryOk s → findProviderById pid (serviceProviders s) = Some p →
  activeAccountOk p.
Proof.
  intros Hs [Hin _]%findProviderById_Some.
  unfold registryOk in Hs. rewrite Forall_forall in Hs. by apply Hs.
Qed.

Lemma registryOk_findClaude s p :
  registryOk s → findClaudeProvider (serviceProviders s) = Some p →
  activeAccountOk p.
Proof.
  intros Hs [Hin _]%findClaudeProvider_Some.
  unfold registryOk in Hs. rewrite Forall_forall in Hs. by apply Hs.
Qed.

Lemma activeAccountOk_claudeProviderOrNew s :
  registryOk s → activeAccountOk (claudeProviderOrNew s).
Proof.
  intros Hs. unfold claudeProviderOrNew, getServiceProviders.
  destruct (findClaudeProvider _) as [p|] eqn:E; simpl.
  - by eapply registryOk_findClaude.
  - by left.
Qed.

Lemma activeAccountOk_updatedClaudeProvider incoming s :
  activeAccountOk (updatedClaudeProvider incoming s).
Proof.
  unfold activeAccountOk.
  rewrite updatedClaudeProvider_type, activeAccountId_updatedClaudeProvider,
    accounts_updatedClaudeProvider.
  set (prior := activeAccountId (claudeProviderOrNew s)).
  unfold reassignActive.
  destruct (list_find _ incoming) as [[k a]|] eqn:E.
  - apply list_find_Some in E as (Hk & Ha & _). right.
    destruct (mergeAccounts_stores (accounts (claudeProviderOrNew s)) incoming a)
      as (i & x & Hi & Hx); [by eapply list_elem_of_lookup_2|].
    exists x. split; [by eapply list_elem_of_lookup_2|]. simpl. congruence.
  - destruct incoming as [|first rest]; [by left|]. right.
    destruct (mergeAccounts_stores (accounts (claudeProviderOrNew s))
                (first :: rest) first) as (i & x & Hi & Hx); [by left|].
    exists x. split; [by eapply list_elem_of_lookup_2|done].
Qed.

Lemma activeAccountOk_with_useProxy b p :
  activeAccountOk p → activeAccountOk (with_useProxy b p).
Proof. done. Qed.

Lemma elem_of_upsertThirdParty account l acc :
  acc ∈ l →
  acc ∈ upsertThirdParty account l
  ∨ acc_id acc = Some (tp_id account).
Proof.
  intros Hin.
  destruct (upsertThirdParty_cases account l) as [(i & old & Hf & ->)|[Hf ->]].
  - apply list_find_Some in Hf as (Hi & Hold & _).
    apply list_elem_of_lookup in Hin as [j Hj].
    destruct (decide (i = j)) as [->|Hne].
    + right. by simplify_eq.
    + left. apply list_elem_of_lookup. exists j.
      by rewrite list_lookup_insert_ne.
  - left. apply elem_of_app. by left.
Qed.

Lemma upsertThirdParty_stored account l :
  ThirdParty account ∈ upsertThirdParty account l.
Proof.
  destruct (upsertThirdParty_find account l) as [i (Hi & _)%list_find_Some].
  by eapply list_elem_of_lookup_2.
Qed.

Lemma activeAccountOk_updatedThirdPartyProvider pid account s :
  registryOk s →
  (∀ p, findProviderById pid (serviceProviders s) = Some p →
        sp_type p = third_party) →
  activeAccountOk (updatedThirdPartyProvider pid account s).
Proof.
  intros Hs Hty. unfold updatedThirdPartyProvider.
  set (provider := thirdPartyProviderOrNew pid account s).
  assert (Hprov : activeAccountOk provider ∧ sp_type provider = third_party).
  { unfold provider, thirdPartyProviderOrNew, getServiceProviders.
    destruct (findProviderById _ _) as [p|] eqn:E; simpl.
    - split; [by eapply registryOk_find|by apply Hty].
    - split; [by left|done]. }
  destruct Hprov as [Hok Htp].
  set (l' := upsertThirdParty account (accounts provider)).
  unfold activateFirst. simpl.
  destruct (truthy (activeAccountId provider)) eqn:Eact; simpl.
  - destruct Hok as [Hempty|(acc & Hin & Hkey)]; [congruence|].
    right. unfold activeAccountOk. simpl.
    destruct (elem_of_upsertThirdParty account _ acc Hin) as [H|H].
    + by exists acc.
    + exists (ThirdParty account). split; [apply upsertThirdParty_stored|].
      rewrite Htp in Hkey |- *. simpl in *. congruence.
  - destruct l' as [|first rest] eqn:El'.
    + left. done.
    + unfold activeAccountOk. simpl. rewrite Htp. simpl.
      destruct (acc_id first) as [k|] eqn:Ek; [|by left].
      right. exists first. split; [by left|done].
Qed.

Lemma registryOk_removeThirdPartyAccount pid accountId s :
  registryOk s →
  (∀ p, findProviderById pid (serviceProviders s) = Some p →
        sp_type p = third_party) →
  registryOk (removeThirdPartyAccount pid accountId s).
Proof.
  intros Hs Hty. unfold removeThirdPartyAccount, getServiceProviders.
  destruct (findProviderById pid (serviceProviders s)) as [p|] eqn:E; [|done].
  apply registryOk_addServiceProvider; [|done].
  pose proof (registryOk_find _ _ _ Hs E) as Hok.
  pose proof (Hty p eq_refl) as Htp.
  set (l' := filter (λ acc, acc_id acc ≠ Some accountId) (accounts p)).
  simpl. destruct (decide (activeAccountId p = Some accountId)) as [Hact|Hact].
  - unfold activeAccountOk. simpl. rewrite Htp.
    destruct l' as [|first rest] eqn:El'; [by left|].
    destruct (acc_id first) as [k|] eqn:Ek; [|by left].
    right. exists first. split; [by left|done].
  - destruct Hok as [Hempty|(acc & Hin & Hkey)]; [by left|].
    right. exists acc. split; [|done]. simpl.
    apply list_elem_of_filter. split; [|done].
    rewrite Htp in Hkey. simpl in Hkey. congruence.
Qed.

Lemma registryOk_removeServiceProvider pid s :
  registryOk s → registryOk (removeServiceProvider pid s).
Proof.
  intros Hs. unfold removeServiceProvider, getServiceProviders.
  assert (registryOk (set_serviceProviders
                        (filter (λ p, sp_id p ≠ pid) (serviceProviders s)) s)).
  { unfold registryOk in *. simpl. rewrite Forall_forall in *.
    intros p [_ Hp]%list_elem_of_filter. by apply Hs. }
  by case_decide.
Qed.

Lemma registryOk_updateClaudeAccountAuthorization email token s :
  registryOk s → registryOk (updateClaudeAccountAuthorization email token s).
Proof.
  intros Hs. unfold updateClaudeAccountAuthorization, getServiceProviders.
  destruct (findClaudeProvider (serviceProviders s)) as [p|] eqn:E; [|done].
  destruct (list_find _ (accounts p)) as [[i [a|a]]|] eqn:Ef; [|done..].
  apply registryOk_addServiceProvider; [|done].
  pose proof (registryOk_findClaude _ _ Hs E) as Hok.
  apply findClaudeProvider_Some in E as [_ Hty].
  apply list_find_Some in Ef as (Hi & Ha & _).
  destruct Hok as [Hempty|(acc & Hin & Hkey)]; [by left|].
  right. apply list_elem_of_lookup in Hin as [j Hj]. simpl.
  destruct (decide (i = j)) as [->|Hne].
  - exists (Official (with_authorization (Some token) a)). split.
    + apply list_elem_of_lookup. exists j.
      apply list_lookup_insert_eq. eauto using lookup_lt_Some.
    + simplify_eq. rewrite Hty in Hkey |- *. done.
  - exists acc. split; [|done].
    apply list_elem_of_lookup. exists j. by rewrite list_lookup_insert_ne.
Qed.

Lemma registryOk_perform c s :
  registryOk s → admissible c s → registryOk (perform c s).
Proof.
  intros Hs Hadm. destruct c; simpl in *.
  - by apply registryOk_addServiceProvider.
  - by apply registryOk_removeServiceProvider.
  - done.
  - unfold setActiveAccount, getServiceProviders.
    destruct (findProviderById providerId (serviceProviders s)) as [p|] eqn:E;
      [|done].
    unfold setActiveServiceProvider, registryOk. simpl.
    apply registryOk_addServiceProvider; [by apply Hadm|done].
  - unfold setProviderProxyUsage, getServiceProviders.
    destruct (findProviderById providerId (serviceProviders s)) as [p|] eqn:E;
      [|done].
    apply registryOk_addServiceProvider; [|done].
    apply activeAccountOk_with_useProxy. by eapply registryOk_find.
  - apply registryOk_addServiceProvider; [|done].
    apply activeAccountOk_updatedClaudeProvider.
  - by apply registryOk_updateClaudeAccountAuthorization.
  - apply registryOk_addServiceProvider; [|done].
    by apply activeAccountOk_updatedThirdPartyProvider.
  - by apply registryOk_removeThirdPartyAccount.
Qed.

(** C3, amended.  From a registry in which every provider's
    [activeAccountId] is empty or the natural key of one of its accounts
    (the fresh registry is one), the property holds after every sequence of
    mutator calls in which [addServiceProvider] is given a provider that has
    the property, [setActiveAccount] is given the empty key or the key of an
    account of the provider, and the two third-party account operations do
    not address a provider of the official type. *)
Theorem C3_active_account_names_an_account
    (calls : list Call) (s : AppSettings) :
  registryOk s → admissibleFrom s calls → registryOk (performAll calls s).
Proof.
  revert s. induction calls as [|c calls IH]; intros s Hs Hadm; [done|].
  destruct Hadm as [Hc Hrest]. simpl. apply IH; [|done].
  by apply registryOk_perform.
Qed.

Definition sampleCalls : list Call :=
  [ UpdateClaudeAccounts [sampleAccount "a@x.com" None;
                          sampleAccount "b@x.com" None];
    SetActiveAccount (lit "claude_official") (lit "b@x.com");
    AddThirdPartyAccount (lit "third_party_1") (sampleThirdParty "k1" "secret");
    UpdateClaudeAccounts [];
    RemoveThirdPartyAccount (lit "third_party_1") (lit "k1");
    RemoveServiceProvider (lit "third_party_1") ].

Lemma C3_witness : registryOk (performAll sampleCalls defaultSettings).
Proof.
  apply C3_active_account_names_an_account.
  - constructor.
  - simpl. split_and!; try done.
    + intros p Hp. vm_compute in Hp. injection Hp as <-. right.
      exists (Official (sampleAccount "b@x.com" None)).
      split; [|reflexivity]. right. left.
    + intros p Hp. vm_compute in Hp. injection Hp as <-. reflexivity.
Defined.

(** C3 as stated fails: [setActiveAccount] stores any key.  After a merge
    of one account and a call with the key [ghost], the official provider
    has a non-empty [activeAccountId] that no account of it bears. *)
Lemma C3_counterexample :
  ¬ registryOk
      (performAll
         [ UpdateClaudeAccounts [sampleAccount "a@x.com" None];
           SetActiveAccount (lit "claude_official") (lit "ghost") ]
         defaultSettings).
Proof.
  intros H. apply Forall_cons in H as [[Hempty|(acc & Hin & Hkey)] _].
  - discriminate Hempty.
  - apply list_elem_of_singleton in Hin as ->. discriminate Hkey.
Qed.

(** ** The official provider during an import *)


Lemma sp_type_updatedThirdPartyProvider pid account s old :
  findProviderById pid (serviceProviders s) = Some old →
  sp_type (updatedThirdPartyProvider pid account s) = sp_type old.
Proof.
  intros H. unfold updatedThirdPartyProvider. rewrite sp_type_activateFirst.
  simpl. unfold thirdPartyProviderOrNew, getServiceProviders. by rewrite H.
Qed.

Lemma sp_type_updatedThirdPartyProvider_new pid account s :
  findProviderById pid (serviceProviders s) = None →
  sp_type (updatedThirdPartyProvider pid account s) = third_party.
Proof.
  intros H. unfold updatedThirdPartyProvider. rewrite sp_type_activateFirst.
  simpl. unfold thirdPartyProviderOrNew, getServiceProviders. by rewrite H.
Qed.

(** [addThirdPartyAccount] leaves the first official provider where it is:
    it stays the same provider, or it is the provider of the given id and
    is the one rewritten; and the call makes no official provider. *)
Lemma findClaudeProvider_addThirdPartyAccount pid account s :
  match findClaudeProvider (serviceProviders s) with
  | Some p =>
      findClaudeProvider (serviceProviders (addThirdPartyAccount pid account s))
      = Some p
      ∨ (findProviderById pid (serviceProviders s) = Some p
         ∧ findClaudeProvider
             (serviceProviders (addThirdPartyAccount pid account s))
           = Some (updatedThirdPartyProvider pid account s))
  | None =>
      findClaudeProvider (serviceProviders (addThirdPartyAccount pid account s))
      = None
  end.
Proof.
  set (q := updatedThirdPartyProvider pid account s).
  assert (Hidq : sp_id q = pid) by apply sp_id_updatedThirdPartyProvider.
  unfold findClaudeProvider, addThirdPartyAccount. fold q.
  destruct (list_find (λ p, sp_type p = claude_official) (serviceProviders s))
    as [[k p]|] eqn:Hk; simpl.
  - pose proof Hk as (Hkp & Hty & Hfirst)%list_find_Some.
    destruct (addServiceProvider_cases q s) as [(j & old & Hf & ->)|[Hf ->]].
    + rewrite Hidq in Hf.
      assert (Hold : findProviderById pid (serviceProviders s) = Some old).
      { unfold findProviderById. by rewrite Hf. }
      pose proof (sp_type_updatedThirdPartyProvider pid account s old Hold) as Htq.
      fold q in Htq.
      pose proof Hf as (Hj & _ & _)%list_find_Some.
      destruct (decide (j = k)) as [->|Hjk].
      * assert (old = p) by congruence. subst old. right. split; [done|].
        rewrite list_find_insert_here;
          [done|eauto using lookup_lt_Some|congruence|done].
      * left. destruct (decide (j < k)) as [Hlt|Hge].
        -- rewrite list_find_insert_irrelevant; [by rewrite Hk| |].
           ++ rewrite Htq. by apply (Hfirst j old).
           ++ intros z Hz. assert (z = old) by congruence. subst z.
              by apply (Hfirst j old).
        -- assert (Hfind : list_find (λ p, sp_type p = claude_official)
                             (<[j := q]> (serviceProviders s)) = Some (k, p)).
           { apply list_find_insert_Some. left. split; [lia|done]. }
           by rewrite Hfind.
    + left. by rewrite (list_find_app_l _ _ _ _ _ Hk).
  - destruct (addServiceProvider_cases q s) as [(j & old & Hf & ->)|[Hf ->]].
    + rewrite Hidq in Hf.
      assert (Hold : findProviderById pid (serviceProviders s) = Some old).
      { unfold findProviderById. by rewrite Hf. }
      pose proof (sp_type_updatedThirdPartyProvider pid account s old Hold) as Htq.
      fold q in Htq.
      pose proof Hf as (Hj & _ & _)%list_find_Some.
      assert (Hold' : sp_type old ≠ claude_official).
      { apply list_find_None in Hk. rewrite Forall_lookup in Hk. by eapply Hk. }
      rewrite list_find_insert_irrelevant; [by rewrite Hk|congruence|].
      intros z Hz. congruence.
    + assert (Hnew : findProviderById pid (serviceProviders s) = None).
      { unfold findProviderById. rewrite <- Hidq. by rewrite Hf. }
      pose proof (sp_type_updatedThirdPartyProvider_new pid account s Hnew) as Htq.
      fold q in Htq.
      rewrite list_find_app_irrelevant; [by rewrite Hk|congruence].
Qed.



(** ** Valid third-party entries of a document *)








(** ** C7: invalid third-party entries are skipped *)















(** The sample document: the entry with the empty [baseUrl] is left out,
    the other one is stored and counted. *)
Example import_sample_document :
  let '(r, s) := importSettings (Parsed (sampleDocument (Some (lit "1.0.0"))))
                                defaultSettings in
  r = {| success := true; error := None;
         imported := Some [AccountsImported 1 None] |}
  ∧ (accounts <$> serviceProviders s)
    = [[ThirdParty {| tp_id := lit "k2"; tp_name := lit "Gateway"; apiKey := [];
                      baseUrl := lit "https://b"; description := Some [] |}]].
Proof. split; reflexivity. Qed.

(** ** C9: an import without sensitive data clears stored API keys *)

(** A registry with one third-party account whose key is [secret]. *)
Definition registryWithKey : AppSettings :=
  addThirdPartyAccount (lit "third_party_1") (sampleThirdParty "k2" "secret")
                       defaultSettings.





(** The stored key [secret] is gone after the import of the sample
    document, which carries no sensitive data. *)
Example import_clears_stored_key :
  (accounts <$> serviceProviders registryWithKey)
  = [[ThirdParty (sampleThirdParty "k2" "secret")]]
  ∧ (accounts <$>
       serviceProviders
         (importSettings (Parsed (sampleDocument (Some (lit "1.0.0"))))
                         registryWithKey).2)
    = [[ThirdParty {| tp_id := lit "k2"; tp_name := lit "Gateway"; apiKey := [];
                      baseUrl := lit "https://b"; description := Some [] |}]].
Proof. split; reflexivity. Qed.

(** ** The codec *)

Local Open Scope N_scope.

Ltac Zify.zify_post_hook ::= Z.to_euclidean_division_equations.

(** Decide the comparisons of a goal by linear arithmetic. *)
Ltac nbool :=
  repeat match goal with
    | |- context [N.ltb ?a ?b] =>
        first [ rewrite (proj2 (N.ltb_lt a b)) by lia
              | rewrite (proj2 (N.ltb_ge a b)) by lia ]
    | |- context [N.leb ?a ?b] =>
        first [ rewrite (proj2 (N.leb_le a b)) by lia
              | rewrite (proj2 (N.leb_gt a b)) by lia ]
    | |- context [N.eqb ?a ?b] =>
        first [ rewrite (proj2 (N.eqb_eq a b)) by lia
              | rewrite (proj2 (N.eqb_neq a b)) by lia ]
    end.

(** A string is well formed when its code units are 16-bit and every
    surrogate is half of a pair. *)
Fixpoint wellFormed (s : jsstring) : bool :=
  match s with
  | [] => true
  | u :: rest =>
      if is_high_surrogate u then
        match rest with
        | v :: rest' => is_low_surrogate v && wellFormed rest'
        | [] => false
        end
      else negb (is_low_surrogate u) && (u <? 0x10000) && wellFormed rest
  end.

Lemma in_range_true lo hi b : lo ≤ b ≤ hi → in_range lo hi b = true.
Proof.
  intros [H1 H2]. unfold in_range.
  by rewrite (proj2 (N.leb_le _ _) H1), (proj2 (N.leb_le _ _) H2).
Qed.

(** The decoder on a well-formed sequence of one to four bytes. *)
Lemma utf8_decode_1 b0 bs :
  b0 < 0x80 → utf8_decode (b0 :: bs) = b0 :: utf8_decode bs.
Proof. intros H. cbn [utf8_decode]. by rewrite (proj2 (N.ltb_lt _ _) H). Qed.

Lemma utf8_decode_2 b0 b1 bs :
  0xC2 ≤ b0 ≤ 0xDF → 0x80 ≤ b1 ≤ 0xBF →
  utf8_decode (b0 :: b1 :: bs)
  = ((b0 - 0xC0) * 64 + (b1 - 0x80)) :: utf8_decode bs.
Proof.
  intros H0 H1. cbn [utf8_decode].
  rewrite (proj2 (N.ltb_ge b0 0x80)) by lia.
  by rewrite !in_range_true.
Qed.

Lemma utf8_decode_3 b0 b1 b2 bs :
  0xE0 ≤ b0 ≤ 0xEF → second_lo b0 ≤ b1 ≤ second_hi b0 → 0x80 ≤ b2 ≤ 0xBF →
  utf8_decode (b0 :: b1 :: b2 :: bs)
  = ((b0 - 0xE0) * 4096 + (b1 - 0x80) * 64 + (b2 - 0x80)) :: utf8_decode bs.
Proof.
  intros H0 H1 H2. cbn [utf8_decode].
  rewrite (proj2 (N.ltb_ge b0 0x80)) by lia.
  assert (in_range 0xC2 0xDF b0 = false) as ->.
  { unfold in_range. rewrite (proj2 (N.leb_gt b0 0xDF)) by lia.
    apply andb_false_r. }
  by rewrite !in_range_true.
Qed.

Lemma utf8_decode_4 b0 b1 b2 b3 bs :
  0xF0 ≤ b0 ≤ 0xF4 → second_lo b0 ≤ b1 ≤ second_hi b0 →
  0x80 ≤ b2 ≤ 0xBF → 0x80 ≤ b3 ≤ 0xBF →
  utf8_decode (b0 :: b1 :: b2 :: b3 :: bs)
  = utf16_units ((b0 - 0xF0) * 262144 + (b1 - 0x80) * 4096
                 + (b2 - 0x80) * 64 + (b3 - 0x80))
      ++ utf8_decode bs.
Proof.
  intros H0 H1 H2 H3. cbn [utf8_decode].
  rewrite (proj2 (N.ltb_ge b0 0x80)) by lia.
  assert (in_range 0xC2 0xDF b0 = false) as ->.
  { unfold in_range. rewrite (proj2 (N.leb_gt b0 0xDF)) by lia.
    apply andb_false_r. }
  assert (in_range 0xE0 0xEF b0 = false) as ->.
  { unfold in_range. rewrite (proj2 (N.leb_gt b0 0xEF)) by lia.
    apply andb_false_r. }
  by rewrite !in_range_true.
Qed.

Lemma second_bounds_3 cp :
  0x800 ≤ cp < 0x10000 → ¬ (0xD800 ≤ cp ≤ 0xDFFF) →
  second_lo (0xE0 + cp / 4096) ≤ 0x80 + (cp / 64) mod 64
                                ≤ second_hi (0xE0 + cp / 4096).
Proof.
  intros Hcp Hsur. unfold second_lo, second_hi.
  destruct (N.eqb_spec (0xE0 + cp / 4096) 0xE0) as [E0|E0];
    destruct (N.eqb_spec (0xE0 + cp / 4096) 0xED) as [ED|ED];
    destruct (N.eqb_spec (0xE0 + cp / 4096) 0xF0) as [F0|F0];
    destruct (N.eqb_spec (0xE0 + cp / 4096) 0xF4) as [F4|F4]; lia.
Qed.

Lemma second_bounds_4 cp :
  0x10000 ≤ cp < 0x110000 →
  second_lo (0xF0 + cp / 262144) ≤ 0x80 + (cp / 4096) mod 64
                                  ≤ second_hi (0xF0 + cp / 262144).
Proof.
  intros Hcp. unfold second_lo, second_hi.
  destruct (N.eqb_spec (0xF0 + cp / 262144) 0xE0) as [E0|E0];
    destruct (N.eqb_spec (0xF0 + cp / 262144) 0xED) as [ED|ED];
    destruct (N.eqb_spec (0xF0 + cp / 262144) 0xF0) as [F0|F0];
    destruct (N.eqb_spec (0xF0 + cp / 262144) 0xF4) as [F4|F4]; lia.
Qed.

Lemma utf8_decode_bytes cp bs :
  cp < 0x110000 → ¬ (0xD800 ≤ cp ≤ 0xDFFF) →
  utf8_decode (utf8_bytes cp ++ bs) = utf16_units cp ++ utf8_decode bs.
Proof.
  intros Hmax Hsur. unfold utf8_bytes.
  destruct (N.ltb_spec cp 0x80).
  { cbn [app]. rewrite utf8_decode_1 by done.
    unfold utf16_units. by rewrite (proj2 (N.ltb_lt cp 0x10000)) by lia. }
  destruct (N.ltb_spec cp 0x800).
  { cbn [app]. rewrite utf8_decode_2 by lia.
    unfold utf16_units. rewrite (proj2 (N.ltb_lt cp 0x10000)) by lia.
    cbn [app]. f_equal. lia. }
  destruct (N.ltb_spec cp 0x10000).
  { cbn [app]. rewrite utf8_decode_3; [|lia|by apply second_bounds_3|lia].
    unfold utf16_units. rewrite (proj2 (N.ltb_lt cp 0x10000)) by lia.
    cbn [app]. f_equal. lia. }
  cbn [app]. rewrite utf8_decode_4; [|lia|by apply second_bounds_4|lia|lia].
  f_equal. f_equal. lia.
Qed.

Lemma utf8_bytes_bound cp :
  cp < 0x110000 → Forall (λ b, b < 256) (utf8_bytes cp).
Proof.
  intros Hmax. unfold utf8_bytes.
  destruct (N.ltb_spec cp 0x80); [repeat constructor; lia|].
  destruct (N.ltb_spec cp 0x800); [repeat constructor; lia|].
  destruct (N.ltb_spec cp 0x10000); repeat constructor; lia.
Qed.

Lemma utf8_bytes_nonempty cp : utf8_bytes cp ≠ [].
Proof.
  unfold utf8_bytes.
  destruct (cp <? 0x80); [done|]. destruct (cp <? 0x800); [done|].
  by destruct (cp <? 0x10000).
Qed.

(** The three shapes of a well-formed string. *)
Lemma wellFormed_cases s :
  wellFormed s = true →
  s = []
  ∨ (∃ u rest, s = u :: rest ∧ u < 0x10000 ∧ ¬ (0xD800 ≤ u ≤ 0xDFFF)
               ∧ wellFormed rest = true)
  ∨ (∃ u v rest, s = u :: v :: rest ∧ 0xD800 ≤ u ≤ 0xDBFF ∧ 0xDC00 ≤ v ≤ 0xDFFF
                 ∧ wellFormed rest = true).
Proof.
  destruct s as [|u rest]; [by left|]. intros H. right. simpl in H.
  unfold is_high_surrogate, is_low_surrogate in H.
  destruct (N.leb_spec 0xD800 u), (N.leb_spec u 0xDBFF); cbn [andb] in H.
  - right. destruct rest as [|v rest]; [done|].
    apply andb_true_iff in H as [[Hv1 Hv2]%andb_true_iff Hrest].
    apply N.leb_le in Hv1, Hv2. exists u, v, rest. split_and!; done.
  - left. apply andb_true_iff in H as [[Hlow Hu]%andb_true_iff Hrest].
    apply N.ltb_lt in Hu. apply negb_true_iff, andb_false_iff in Hlow.
    exists u, rest. split_and!; [done|done| |done].
    destruct Hlow as [Hl|Hl]; [apply N.leb_gt in Hl|apply N.leb_gt in Hl]; lia.
  - left. apply andb_true_iff in H as [[Hlow Hu]%andb_true_iff Hrest].
    apply N.ltb_lt in Hu. exists u, rest. split_and!; [done|done|lia|done].
  - lia.
Qed.

Lemma utf8_encode_plain u rest :
  ¬ (0xD800 ≤ u ≤ 0xDFFF) →
  utf8_encode (u :: rest) = utf8_bytes u ++ utf8_encode rest.
Proof.
  intros Hu. cbn [utf8_encode]. unfold is_high_surrogate, is_low_surrogate.
  assert (u < 0xD800 ∨ 0xDFFF < u) as [?|?] by lia; nbool; done.
Qed.

Lemma utf8_encode_pair u v rest :
  0xD800 ≤ u ≤ 0xDBFF → 0xDC00 ≤ v ≤ 0xDFFF →
  utf8_encode (u :: v :: rest)
  = utf8_bytes (0x10000 + (u - 0xD800) * 1024 + (v - 0xDC00)) ++ utf8_encode rest.
Proof.
  intros Hu Hv. cbn [utf8_encode]. unfold is_high_surrogate, is_low_surrogate.
  nbool. done.
Qed.

(** Induction on well-formed strings: one code unit, or one pair, at a
    time. *)
Lemma wellFormed_ind (P : jsstring → Prop) :
  P [] →
  (∀ u rest, u < 0x10000 → ¬ (0xD800 ≤ u ≤ 0xDFFF) →
             wellFormed rest = true → P rest → P (u :: rest)) →
  (∀ u v rest, 0xD800 ≤ u ≤ 0xDBFF → 0xDC00 ≤ v ≤ 0xDFFF →
               wellFormed rest = true → P rest → P (u :: v :: rest)) →
  ∀ s, wellFormed s = true → P s.
Proof.
  intros Hnil Hplain Hpair.
  assert (H : ∀ n s, (length s ≤ n)%nat → wellFormed s = true → P s).
  { induction n as [|n IH]; intros s Hlen Hwf.
    - destruct s; [done|simpl in Hlen; lia].
    - destruct (wellFormed_cases s Hwf)
        as [->|[(u & rest & -> & ? & ? & ?)|(u & v & rest & -> & ? & ? & ?)]].
      + done.
      + apply Hplain; try done. apply IH; [simpl in Hlen; lia|done].
      + apply Hpair; try done. apply IH; [simpl in Hlen; lia|done]. }
  intros s. by apply (H (length s)).
Qed.

Lemma utf8_decode_encode s :
  wellFormed s = true → utf8_decode (utf8_encode s) = s.
Proof.
  revert s.
  apply wellFormed_ind; [|intros u rest Hu Hsur _ IH|intros u v rest Hu Hv _ IH].
  - done.
  - rewrite utf8_encode_plain, utf8_decode_bytes, IH by (done || lia).
    unfold utf16_units. nbool. done.
  - rewrite utf8_encode_pair, utf8_decode_bytes, IH by (done || lia).
    unfold utf16_units. nbool. cbn [app]. f_equal; [lia|]. f_equal. lia.
Qed.

Lemma utf8_encode_bound s :
  wellFormed s = true → Forall (λ b, b < 256) (utf8_encode s).
Proof.
  revert s.
  apply wellFormed_ind; [|intros u rest Hu Hsur _ IH|intros u v rest Hu Hv _ IH].
  - constructor.
  - rewrite utf8_encode_plain by done. apply Forall_app. split; [|done].
    apply utf8_bytes_bound. lia.
  - rewrite utf8_encode_pair by done. apply Forall_app. split; [|done].
    apply utf8_bytes_bound. lia.
Qed.

Lemma utf8_encode_nonempty s :
  wellFormed s = true → s ≠ [] → utf8_encode s ≠ [].
Proof.
  revert s.
  apply (wellFormed_ind (λ s, s ≠ [] → utf8_encode s ≠ []));
    [|intros u rest Hu Hsur _ IH|intros u v rest Hu Hv _ IH].
  - done.
  - intros _. rewrite utf8_encode_plain by done.
    intros [H _]%app_eq_nil. by apply utf8_bytes_nonempty in H.
  - intros _. rewrite utf8_encode_pair by done.
    intros [H _]%app_eq_nil. by apply utf8_bytes_nonempty in H.
Qed.

Lemma unbase64_b64char n : n < 64 → unbase64 (b64char n) = Some n.
Proof.
  intros Hn.
  assert (H : Forall (λ k, unbase64 (b64char k) = Some k)
                     (N.of_nat <$> seq 0 64)).
  { apply (bool_decide_unpack _). vm_compute. reflexivity. }
  rewrite Forall_forall in H. apply H.
  apply list_elem_of_fmap. exists (N.to_nat n). split; [lia|].
  apply elem_of_seq. lia.
Qed.

Lemma sextets_char n rest :
  n < 64 → sextets (b64char n :: rest) = n :: sextets rest.
Proof. intros Hn. cbn [sextets]. by rewrite unbase64_b64char. Qed.

Lemma sextets_padding rest : sextets (61 :: rest) = [].
Proof. done. Qed.

(** Induction on a list, three elements at a time. *)
Lemma list_ind3 {A} (P : list A → Prop) :
  P [] → (∀ a, P [a]) → (∀ a b, P [a; b]) →
  (∀ a b c l, P l → P (a :: b :: c :: l)) →
  ∀ l, P l.
Proof.
  intros H0 H1 H2 H3.
  assert (H : ∀ l, P l ∧ (∀ a, P (a :: l)) ∧ (∀ a b, P (a :: b :: l))).
  { induction l as [|c l (IH0 & IH1 & IH2)]; [done|].
    split_and!; [apply IH1|intros a; apply IH2|intros a b; by apply H3]. }
  intros l. apply H.
Qed.

Lemma base64_decode_encode bs :
  Forall (λ b, b < 256) bs → base64_decode (base64_encode bs) = bs.
Proof.
  unfold base64_decode. revert bs.
  apply (list_ind3 (λ bs, Forall (λ b, b < 256) bs →
                          bytes_of_sextets (sextets (base64_encode bs)) = bs)).
  - done.
  - intros a [Ha _]%Forall_cons. cbn [base64_encode].
    rewrite !sextets_char, sextets_padding by lia.
    cbn [bytes_of_sextets]. f_equal. lia.
  - intros a b [Ha [Hb _]%Forall_cons]%Forall_cons. cbn [base64_encode].
    rewrite !sextets_char, sextets_padding by lia.
    cbn [bytes_of_sextets]. f_equal; [lia|]. f_equal. lia.
  - intros a b c l IH [Ha [Hb [Hc Hl]%Forall_cons]%Forall_cons]%Forall_cons.
    cbn [base64_encode app].
    rewrite !sextets_char by lia.
    cbn [bytes_of_sextets app]. rewrite IH by done.
    f_equal; [lia|]. f_equal; [lia|]. f_equal. lia.
Qed.

Lemma base64_encode_length bs : (length (base64_encode bs) `mod` 4 = 0)%nat.
Proof.
  revert bs. apply list_ind3; try done.
  intros a b c l IH. cbn [base64_encode app length].
  change (S (S (S (S (length (base64_encode l))))))
    with (4 + length (base64_encode l))%nat.
  rewrite <- Nat.Div0.add_mod_idemp_l. simpl. done.
Qed.

Lemma base64_encode_nonempty bs : bs ≠ [] → base64_encode bs ≠ [].
Proof. by destruct bs as [|a [|b [|c l]]]. Qed.

Lemma nonempty_true s : nonempty s = true ↔ s ≠ [].
Proof. by destruct s. Qed.

Lemma decodeData_encodeData s :
  wellFormed s = true → decodeData (encodeData s) = s.
Proof.
  intros Hwf. unfold encodeData. destruct s as [|u rest]; [done|].
  cbn [nonempty negb]. unfold decodeData.
  assert (Hne : nonempty (base64_encode (utf8_encode (u :: rest))) = true).
  { apply nonempty_true, base64_encode_nonempty.
    by apply utf8_encode_nonempty. }
  rewrite Hne. cbn [negb].
  rewrite base64_decode_encode by (by apply utf8_encode_bound).
  by apply utf8_decode_encode.
Qed.

Lemma encodeData_nonempty s :
  wellFormed s = true → nonempty s = true → nonempty (encodeData s) = true.
Proof.
  intros Hwf Hne. unfold encodeData. rewrite Hne. cbn [negb].
  apply nonempty_true, base64_encode_nonempty, utf8_encode_nonempty; [done|].
  by apply nonempty_true.
Qed.

Local Close Scope N_scope.

(** ** C8: decoding a truncated encoding *)

(** C8 fails on the code.  [decodeData] is total, but a truncated encoding
    is decoded, not rejected: [Zm9], the encoding [Zm9v] of [foo] without
    its last character, is not the encoding of any string, and it decodes to
    [fo], not to the empty string. *)
Theorem C8_truncated_encoding_is_decoded :
  encodeData (lit "foo") = lit "Zm9v"
  ∧ (∀ data, encodeData data ≠ lit "Zm9")
  ∧ decodeData (lit "Zm9") = lit "fo"
  ∧ decodeData (lit "Zm9") ≠ [].
Proof.
  split_and!; [reflexivity| |reflexivity|discriminate].
  intros data H. apply (f_equal length) in H. unfold encodeData in H.
  destruct (negb (nonempty data)); [discriminate H|].
  pose proof (base64_encode_length (utf8_encode data)) as Hlen.
  rewrite H in Hlen. discriminate Hlen.
Qed.

(** ** C2: export, then import into a fresh registry *)

(** What the import makes of an exported account: an empty authorization
    comes back absent, an absent description comes back empty. *)
Definition reimportedClaude (a : ClaudeAccount) : ClaudeAccount :=
  if truthy (authorization a) then a else with_authorization None a.

Definition reimportedThirdParty (t : ThirdPartyAccount) : ThirdPartyAccount :=
  {| tp_id := tp_id t;
     tp_name := tp_name t;
     apiKey := apiKey t;
     baseUrl := baseUrl t;
     description := Some (or_empty (description t)) |}.

Definition reimportedAccount (acc : Account) : Account :=
  match acc with
  | Official a => Official (reimportedClaude a)
  | ThirdParty t => ThirdParty (reimportedThirdParty t)
  end.

(** The active account of an official provider that an import creates: the
    email of the first account it is given, unless one of the accounts has
    the empty string as its email; the empty string when it is given none. *)
Definition firstEmailOrEmpty (l : list Account) : option jsstring :=
  match list_find (λ acc, acc_emailAddress acc = Some []) l with
  | Some _ => Some []
  | None =>
      match l with
      | first :: _ => acc_emailAddress first
      | [] => Some []
      end
  end.

(** The provider [p'] is what an import into a registry without providers
    makes of the exported [p]: the id and the type of [p]; the accounts of
    [p], each one as [f] gives it; and a name, a proxy flag and an active
    account that are not read from the document.  The proxy flag is [true];
    an official provider is named [Claude Official] and its active account
    is [firstEmailOrEmpty]; a third-party provider has the name and, as
    active account, the id of its first account. *)
Definition rebuiltAs (f : Account → Account) (p p' : ServiceProvider) : Prop :=
  sp_id p' = sp_id p
  ∧ sp_type p' = sp_type p
  ∧ accounts p' = f <$> accounts p
  ∧ useProxy p' = true
  ∧ match sp_type p with
    | claude_official =>
        sp_name p' = lit "Claude Official"
        ∧ activeAccountId p' = firstEmailOrEmpty (accounts p)
    | third_party =>
        ∀ first rest,
          accounts p = ThirdParty first :: rest →
          sp_name p' = tp_name first
          ∧ activeAccountId p' = Some (tp_id first)
    end.

(** With sensitive data, the accounts come back as [reimportedAccount]
    gives them. *)
Definition reproduces (p p' : ServiceProvider) : Prop :=
  rebuiltAs reimportedAccount p p'.

(** Accounts that the document can carry: of the provider's kind, with
    well-formed secrets, and for a third-party account the three properties
    the import insists on. *)
Definition accountRoundTrips (t : ProviderType) (acc : Account) : Prop :=
  match t, acc with
  | claude_official, Official a =>
      ∀ x, authorization a = Some x → wellFormed x = true
  | third_party, ThirdParty a =>
      wellFormed (apiKey a) = true
      ∧ nonempty (tp_id a) = true
      ∧ nonempty (tp_name a) = true
      ∧ nonempty (baseUrl a) = true
  | _, _ => False
  end.

Definition providerRoundTrips (p : ServiceProvider) : Prop :=
  Forall (accountRoundTrips (sp_type p)) (accounts p)
  ∧ NoDup (naturalKey (sp_type p) <$> accounts p)
  ∧ match sp_type p with
    | claude_official => sp_id p = lit "claude_official"
    | third_party => accounts p ≠ []
    end.

Definition registryRoundTrips (s : AppSettings) : Prop :=
  NoDup (sp_id <$> serviceProviders s)
  ∧ Forall providerRoundTrips (serviceProviders s).

Lemma import_export_claude a :
  (∀ x, authorization a = Some x → wellFormed x = true) →
  importClaudeAccount true (exportClaudeAccount true (Official a))
  = Some (reimportedClaude a).
Proof.
  intros Hwf. unfold reimportedClaude. simpl. f_equal.
  destruct (authorization a) as [x|] eqn:Ea; simpl; [|by destruct a].
  destruct (nonempty x) eqn:Ex; simpl.
  - rewrite encodeData_nonempty by auto. simpl.
    rewrite decodeData_encodeData by auto.
    destruct a; simpl in *. by subst.
  - by destruct a.
Qed.

Lemma import_export_thirdParty t :
  accountRoundTrips third_party (ThirdParty t) →
  ∃ a, exportThirdPartyAccount true (ThirdParty t) = DocThirdParty a
       ∧ validThirdParty a = true
       ∧ importThirdPartyAccount true a = reimportedThirdParty t.
Proof.
  intros (Hwf & Hid & Hname & Hurl). eexists. split; [reflexivity|]. split.
  - unfold validThirdParty. simpl. by rewrite Hid, Hname, Hurl.
  - unfold importThirdPartyAccount, reimportedThirdParty. simpl. f_equal.
    destruct (nonempty (apiKey t)) eqn:Ek; simpl.
    + rewrite encodeData_nonempty by done. by rewrite decodeData_encodeData.
    + by destruct (apiKey t).
Qed.

(** The accounts of a provider that round-trips are all of its kind. *)
Lemma official_accounts l :
  Forall (accountRoundTrips claude_official) l →
  ∃ cs, l = Official <$> cs
        ∧ Forall (λ a, ∀ x, authorization a = Some x → wellFormed x = true) cs.
Proof.
  induction 1 as [|acc l Hacc _ (cs & -> & Hcs)]; [by exists []|].
  destruct acc as [a|a]; [|done].
  exists (a :: cs). split; [done|]. by constructor.
Qed.

Lemma thirdParty_accounts l :
  Forall (accountRoundTrips third_party) l →
  ∃ ts, l = ThirdParty <$> ts
        ∧ Forall (λ t, accountRoundTrips third_party (ThirdParty t)) ts.
Proof.
  induction 1 as [|acc l Hacc _ (ts & -> & Hts)]; [by exists []|].
  destruct acc as [a|a]; [done|].
  exists (a :: ts). split; [done|]. by constructor.
Qed.

Lemma import_export_claude_list cs :
  Forall (λ a, ∀ x, authorization a = Some x → wellFormed x = true) cs →
  mapM (importClaudeAccount true) (map (exportClaudeAccount true) (Official <$> cs))
  = Some (reimportedClaude <$> cs).
Proof.
  induction 1 as [|a cs Ha _ IH]; [done|].
  cbn [fmap list_fmap map mapM] in *. rewrite import_export_claude by done.
  rewrite IH. done.
Qed.

Lemma validAccounts_export ts :
  Forall (λ t, accountRoundTrips third_party (ThirdParty t)) ts →
  validAccounts true (map (exportThirdPartyAccount true) (ThirdParty <$> ts))
  = reimportedThirdParty <$> ts.
Proof.
  induction 1 as [|t ts Ht _ IH]; [done|].
  destruct (import_export_thirdParty t Ht) as (a & Ea & Hvalid & Himp).
  cbn [fmap list_fmap map] in *. rewrite validAccounts_cons, Ea, Hvalid, Himp.
  f_equal. exact IH.
Qed.

(** Incoming accounts of fresh, distinct emails are appended in order. *)
Lemma mergeAccounts_fresh l0 incoming :
  NoDup (emailAddress <$> incoming) →
  (∀ a, a ∈ incoming → Forall (λ x, acc_emailAddress x ≠ emailAddress a) l0) →
  mergeAccounts l0 incoming = l0 ++ (Official <$> incoming).
Proof.
  revert l0. induction incoming as [|a incoming IH]; intros l0 Hnd Hfresh.
  { by rewrite app_nil_r. }
  rewrite mergeAccounts_cons. cbn [fmap list_fmap] in *.
  apply NoDup_cons in Hnd as [Ha Hnd].
  assert (Hnone : list_find (λ x, acc_emailAddress x = emailAddress a) l0 = None).
  { apply list_find_None. apply Hfresh. by left. }
  unfold mergeAccount. rewrite Hnone. rewrite IH; [|done|].
  - by rewrite <- app_assoc.
  - intros b Hb. apply Forall_app. split; [apply Hfresh; by right|].
    apply Forall_singleton. simpl. intros Heq. apply Ha.
    rewrite Heq. apply list_elem_of_fmap. by exists b.
Qed.

Lemma updateClaudeAccounts_fresh incoming s :
  Forall (λ q, sp_type q ≠ claude_official ∧ sp_id q ≠ lit "claude_official")
         (serviceProviders s) →
  NoDup (emailAddress <$> incoming) →
  ∃ q,
    serviceProviders (updateClaudeAccounts incoming s) = serviceProviders s ++ [q]
    ∧ sp_id q = lit "claude_official"
    ∧ sp_type q = claude_official
    ∧ accounts q = Official <$> incoming
    ∧ useProxy q = true
    ∧ sp_name q = lit "Claude Official"
    ∧ activeAccountId q = reassignActive incoming (Some []).
Proof.
  intros Hall Hnd.
  assert (Hnone : findClaudeProvider (serviceProviders s) = None).
  { unfold findClaudeProvider.
    rewrite (proj2 (list_find_None _ _)); [done|].
    eapply Forall_impl; [exact Hall|]. by intros q [? _]. }
  exists (updatedClaudeProvider incoming s).
  unfold updateClaudeAccounts, updatedClaudeProvider.
  rewrite (claudeProviderOrNew_fresh s Hnone). simpl.
  split_and!; [|done|done| |done|done|done].
  - unfold addServiceProvider, getServiceProviders. simpl.
    rewrite (proj2 (list_find_None _ _)); [done|].
    eapply Forall_impl; [exact Hall|]. by intros q [_ ?].
  - rewrite mergeAccounts_fresh; [done|done|]. intros a _. constructor.
Qed.

(** The active account of the new official provider, in terms of the
    accounts it is given. *)
Lemma reassignActive_fresh (g : ClaudeAccount → ClaudeAccount) cs :
  (∀ a, emailAddress (g a) = emailAddress a) →
  reassignActive (g <$> cs) (Some []) = firstEmailOrEmpty (Official <$> cs).
Proof.
  intros Hg. unfold reassignActive, firstEmailOrEmpty.
  destruct (list_find (λ acc, emailAddress acc = Some []) (g <$> cs))
    as [[i x]|] eqn:E1;
    destruct (list_find (λ acc, acc_emailAddress acc = Some []) (Official <$> cs))
    as [[j y]|] eqn:E2; try done.
  - apply list_find_Some in E1 as (Hi & Hx & _).
    apply list_lookup_fmap_Some in Hi as (a & -> & Ha).
    apply list_find_None in E2. rewrite Forall_lookup in E2.
    destruct (E2 i (Official a)); [by rewrite list_lookup_fmap, Ha|].
    simpl. by rewrite <- Hg.
  - apply list_find_Some in E2 as (Hj & Hy & _).
    apply list_lookup_fmap_Some in Hj as (a & -> & Ha).
    apply list_find_None in E1. rewrite Forall_lookup in E1.
    destruct (E1 j (g a)); [by rewrite list_lookup_fmap, Ha|].
    by rewrite Hg.
  - destruct cs as [|a cs]; [done|]. simpl. apply Hg.
Qed.

Lemma sp_name_activateFirst p : sp_name (activateFirst p) = sp_name p.
Proof.
  unfold activateFirst. destruct (negb _); [|done]. by destruct (accounts p).
Qed.

Lemma useProxy_activateFirst p : useProxy (activateFirst p) = useProxy p.
Proof.
  unfold activateFirst. destruct (negb _); [|done]. by destruct (accounts p).
Qed.

(** [activateFirst] leaves the id of the first account as the active one
    when it already is, or when there is none. *)
Lemma activeAccountId_activateFirst p first rest :
  accounts p = first :: rest →
  activeAccountId p = acc_id first ∨ truthy (activeAccountId p) = false →
  activeAccountId (activateFirst p) = acc_id first.
Proof.
  intros Hacc H. unfold activateFirst. rewrite Hacc.
  destruct (truthy (activeAccountId p)) eqn:E; simpl; [|done].
  by destruct H as [?|?].
Qed.

Lemma findProviderById_last pid l q :
  Forall (λ p, sp_id p ≠ pid) l → sp_id q = pid →
  list_find (λ p, sp_id p = pid) (l ++ [q]) = Some (length l, q).
Proof.
  intros Hl Hq. apply list_find_app_here; [|done]. by apply list_find_None.
Qed.

(** Accounts of distinct ids, upserted under an id no provider has, make
    one new provider that holds them in order; it has the name of the first
    one, whose id is its active account. *)
Lemma addThirdPartyAccounts_fresh pid ts s :
  Forall (λ q, sp_id q ≠ pid) (serviceProviders s) →
  ts ≠ [] → NoDup (tp_id <$> ts) →
  ∃ q,
    serviceProviders (foldl (λ s a, addThirdPartyAccount pid a s) s ts)
    = serviceProviders s ++ [q]
    ∧ sp_id q = pid
    ∧ sp_type q = third_party
    ∧ accounts q = ThirdParty <$> ts
    ∧ useProxy q = true
    ∧ ∀ first rest,
        ts = first :: rest →
        sp_name q = tp_name first ∧ activeAccountId q = Some (tp_id first).
Proof.
  intros Hfresh. induction ts as [|t ts IH] using rev_ind; [done|].
  intros _ Hnd. rewrite foldl_app. cbn [foldl].
  rewrite fmap_app in Hnd. apply NoDup_app in Hnd as (Hnd & Hdisj & _).
  destruct ts as [|t0 ts0].
  - clear IH. cbn [foldl app].
    exists (updatedThirdPartyProvider pid t s).
    assert (Hnone : list_find (λ p, sp_id p = pid) (serviceProviders s) = None).
    { by apply list_find_None. }
    assert (Hprov : thirdPartyProviderOrNew pid t s
                    = {| sp_id := pid; sp_type := third_party;
                         sp_name := tp_name t; accounts := [];
                         activeAccountId := Some []; useProxy := true |}).
    { unfold thirdPartyProviderOrNew, findProviderById, getServiceProviders.
      by rewrite Hnone. }
    unfold addThirdPartyAccount, addServiceProvider, getServiceProviders.
    rewrite sp_id_updatedThirdPartyProvider, Hnone.
    split_and!; [done|done| | | |].
    + unfold updatedThirdPartyProvider. rewrite sp_type_activateFirst. simpl.
      by rewrite Hprov.
    + by rewrite accounts_updatedThirdPartyProvider, Hprov.
    + unfold updatedThirdPartyProvider. rewrite useProxy_activateFirst. simpl.
      by rewrite Hprov.
    + intros first rest [= <- <-]. unfold updatedThirdPartyProvider.
      rewrite Hprov. done.
  - destruct IH as (q0 & Hps & Hid0 & Hty0 & Hacc0 & Hproxy0 & Hfirst0);
      [done|done|].
    destruct (Hfirst0 t0 ts0 eq_refl) as [Hname0 Hactive0].
    set (s1 := foldl (λ s a, addThirdPartyAccount pid a s) s (t0 :: ts0)) in *.
    assert (Hfind : list_find (λ p, sp_id p = pid) (serviceProviders s1)
                    = Some (length (serviceProviders s), q0)).
    { rewrite Hps. by apply findProviderById_last. }
    assert (Hprov : thirdPartyProviderOrNew pid t s1 = q0).
    { unfold thirdPartyProviderOrNew, findProviderById, getServiceProviders.
      by rewrite Hfind. }
    assert (Hupsert : upsertThirdParty t (accounts q0)
                      = ThirdParty <$> ((t0 :: ts0) ++ [t])).
    { rewrite Hacc0. unfold upsertThirdParty.
      rewrite (proj2 (list_find_None _ _)); [by rewrite fmap_app|].
      apply Forall_fmap, Forall_forall. intros t' Ht' Heq. simpl in Heq.
      apply (Hdisj (tp_id t')).
      * apply list_elem_of_fmap. by exists t'.
      * injection Heq as ->. by left. }
    exists (updatedThirdPartyProvider pid t s1).
    unfold addThirdPartyAccount, addServiceProvider, getServiceProviders.
    rewrite sp_id_updatedThirdPartyProvider, Hfind.
    split_and!.
    + simpl. rewrite Hps.
      rewrite insert_app_r_alt by lia. by rewrite Nat.sub_diag.
    + done.
    + unfold updatedThirdPartyProvider. rewrite sp_type_activateFirst. simpl.
      by rewrite Hprov.
    + by rewrite accounts_updatedThirdPartyProvider, Hprov.
    + unfold updatedThirdPartyProvider. rewrite useProxy_activateFirst. simpl.
      by rewrite Hprov.
    + intros first rest [= <- <-]. unfold updatedThirdPartyProvider.
      rewrite Hprov, Hupsert. split.
      * by rewrite sp_name_activateFirst.
      * apply (activeAccountId_activateFirst _ (ThirdParty t0)
                 (ThirdParty <$> (ts0 ++ [t]))); [done|]. by left.
Qed.

Lemma emailAddress_reimportedClaude a :
  emailAddress (reimportedClaude a) = emailAddress a.
Proof. unfold reimportedClaude. by destruct (truthy _). Qed.

(** An exported provider entry has an array of account objects. *)
Lemma hasNull_export_official includeSensitive l :
  hasNull (map (exportClaudeAccount includeSensitive) l) = false.
Proof. induction l as [|[a|a] l IH]; done. Qed.

Lemma hasNull_export_thirdParty includeSensitive l :
  hasNull (map (exportThirdPartyAccount includeSensitive) l) = false.
Proof. induction l as [|[a|a] l IH]; done. Qed.

Lemma entryFault_exportEntry includeSensitive p :
  entryFault (exportEntry includeSensitive p) = None.
Proof.
  unfold entryFault, exportEntry, exportProvider. simpl.
  destruct (sp_type p).
  - by rewrite hasNull_export_official.
  - by rewrite hasNull_export_thirdParty.
Qed.

Lemma firstFault_export includeSensitive ps :
  firstFault (map (exportEntry includeSensitive) ps) = None.
Proof.
  induction ps as [|p ps IH]; [done|].
  cbn [map]. by rewrite firstFault_cons, entryFault_exportEntry.
Qed.

(** The import of exported providers into a registry without providers,
    for either value of the flag: [g] and [h] are what the export followed
    by the import makes of an official and of a third-party account. *)
Section round_trip.
Context (sensitive : bool).
Context (g : ClaudeAccount → ClaudeAccount).
Context (h : ThirdPartyAccount → ThirdPartyAccount).
Hypothesis g_email : ∀ a, emailAddress (g a) = emailAddress a.
Hypothesis h_id : ∀ t, tp_id (h t) = tp_id t.
Hypothesis h_name : ∀ t, tp_name (h t) = tp_name t.
Hypothesis import_official :
  ∀ cs,
    Forall (λ a, ∀ x, authorization a = Some x → wellFormed x = true) cs →
    mapM (importClaudeAccount sensitive)
         (map (exportClaudeAccount sensitive) (Official <$> cs))
    = Some (g <$> cs).
Hypothesis import_thirdParty :
  ∀ ts,
    Forall (λ t, accountRoundTrips third_party (ThirdParty t)) ts →
    validAccounts sensitive
      (map (exportThirdPartyAccount sensitive) (ThirdParty <$> ts))
    = h <$> ts.

Definition rebuilt (acc : Account) : Account :=
  match acc with
  | Official a => Official (g a)
  | ThirdParty t => ThirdParty (h t)
  end.

(** The import of one exported provider into a registry that has no
    provider of its id, and no official provider under another id than
    [claude_official]: one provider is appended. *)
Lemma importProvider_export_fresh st P :
  providerRoundTrips P →
  thrown st = None →
  Forall (λ q, sp_id q ≠ sp_id P) (serviceProviders (store st)) →
  Forall (λ q, sp_type q = claude_official → sp_id q = lit "claude_official")
         (serviceProviders (store st)) →
  ∃ q,
    serviceProviders
      (store (importProvider sensitive st (exportEntry sensitive P)))
    = serviceProviders (store st) ++ [q]
    ∧ rebuiltAs rebuilt P q.
Proof.
  intros (Hacc & Hnd & Hkind) Hst Hids Hoff.
  unfold rebuiltAs, importProvider, exportEntry. rewrite Hst.
  cbn [exportProvider dp_type dp_accounts dp_id].
  destruct (sp_type P) eqn:Ety.
  - destruct (official_accounts _ Hacc) as (cs & Ecs & Hcs).
    rewrite Ecs. rewrite import_official by done. cbn [store].
    destruct (updateClaudeAccounts_fresh (g <$> cs) (store st))
      as (q & Hq & Hid & Hty & Haccq & Hproxy & Hname & Hactive).
    + rewrite Forall_forall in Hids, Hoff |- *. intros q Hq.
      assert (sp_id q ≠ lit "claude_official") by (rewrite <- Hkind; auto).
      split; [|done]. intros Hq'. auto.
    + assert (Hem : emailAddress <$> (g <$> cs)
                    = naturalKey claude_official <$> (Official <$> cs)).
      { rewrite <- !list_fmap_compose. apply list_fmap_ext.
        intros i x _. simpl. apply g_email. }
      rewrite Hem, <- Ecs. exact Hnd.
    + exists q. split; [exact Hq|].
      split_and!; [congruence|done| |done|done|].
      * by rewrite Haccq, <- !list_fmap_compose.
      * by rewrite Hactive, reassignActive_fresh.
  - destruct (thirdParty_accounts _ Hacc) as (ts & Ets & Hts).
    rewrite Ets in *.
    destruct (importThirdPartyEntries_spec sensitive (sp_id P) st
                (map (exportThirdPartyAccount sensitive) (ThirdParty <$> ts)))
      as (-> & _ & _); [done| |].
    { apply hasNull_false, hasNull_export_thirdParty. }
    rewrite import_thirdParty by done.
    destruct (addThirdPartyAccounts_fresh (sp_id P) (h <$> ts) (store st))
      as (q & Hq & Hid & Hty & Haccq & Hproxy & Hfirst).
    + done.
    + destruct ts; [done|discriminate].
    + assert (Hids' : tp_id <$> (h <$> ts) = tp_id <$> ts).
      { rewrite <- list_fmap_compose. apply list_fmap_ext.
        intros i x _. simpl. apply h_id. }
      rewrite Hids'. apply (NoDup_fmap_1 Some).
      rewrite <- list_fmap_compose.
      rewrite <- list_fmap_compose in Hnd. exact Hnd.
    + exists q. split; [exact Hq|].
      split_and!; [done|done| |done|].
      * by rewrite Haccq, <- !list_fmap_compose.
      * intros first rest Hrest.
        destruct ts as [|t ts']; [done|]. injection Hrest as <- _.
        destruct (Hfirst (h t) (fmap (M:=list) h ts') eq_refl) as [-> ->].
        by rewrite h_id, h_name.
Qed.

Lemma importProviders_export ps :
  NoDup (sp_id <$> ps) → Forall providerRoundTrips ps →
  ∀ st0, thrown st0 = None → serviceProviders (store st0) = [] →
  Forall2 (rebuiltAs rebuilt) ps
    (serviceProviders
       (store (foldl (importProvider sensitive) st0
                     (map (exportEntry sensitive) ps)))).
Proof.
  induction ps as [|P ps IH] using rev_ind; intros Hnd Hall st0 Hthrown Hst0.
  { simpl. rewrite Hst0. constructor. }
  rewrite fmap_app in Hnd. apply NoDup_app in Hnd as (Hnd & Hdisj & _).
  apply Forall_app in Hall as [Hall [HP _]%Forall_cons].
  specialize (IH Hnd Hall st0 Hthrown Hst0).
  rewrite map_app, foldl_app. cbn [map foldl].
  set (st1 := foldl (importProvider sensitive) st0
                    (map (exportEntry sensitive) ps)) in *.
  assert (Hst1 : thrown st1 = None).
  { unfold st1. by rewrite importProviders_fault, firstFault_export. }
  destruct (importProvider_export_fresh st1 P HP Hst1) as (q & -> & Hq).
  - apply Forall_forall. intros q Hq Heq.
    apply list_elem_of_lookup in Hq as [i Hi].
    destruct (Forall2_lookup_r _ _ _ _ _ IH Hi) as (p & Hp & Hrep & _).
    apply (Hdisj (sp_id p)).
    + apply list_elem_of_fmap. exists p. split; [done|].
      by eapply list_elem_of_lookup_2.
    + rewrite <- Hrep, Heq. by left.
  - apply Forall_forall. intros q Hq Hty.
    apply list_elem_of_lookup in Hq as [i Hi].
    destruct (Forall2_lookup_r _ _ _ _ _ IH Hi) as (p & Hp & Hid & Hty' & _).
    rewrite Forall_forall in Hall.
    destruct (Hall p) as (_ & _ & Hkind); [by eapply list_elem_of_lookup_2|].
    rewrite <- Hty', Hty in Hkind. congruence.
  - apply Forall2_app; [done|]. by constructor.
Qed.

(** The same for a whole export. *)
Lemma import_of_export now s fresh :
  hasSensitiveData (exportData now sensitive s) = sensitive →
  registryRoundTrips s →
  serviceProviders fresh = [] →
  success (importSettings (Parsed (exportData now sensitive s)) fresh).1 = true
  ∧ Forall2 (rebuiltAs rebuilt)
      (serviceProviders s)
      (serviceProviders
         (importSettings (Parsed (exportData now sensitive s)) fresh).2).
Proof.
  intros Hsens [Hnd Hall] Hfresh.
  destruct (settings (exportData now sensitive s)) as [ds|] eqn:Eds; [|done].
  assert (Hps : ds_serviceProviders ds
                = Some (map (exportEntry sensitive) (serviceProviders s))).
  { by injection Eds as <-. }
  split.
  - destruct (importSettings_result _ ds fresh Eds eq_refl) as [info ->].
    unfold documentFault. rewrite Hps. simpl.
    by rewrite firstFault_export.
  - rewrite (importSettings_store _ ds fresh Eds eq_refl).
    rewrite importSections_decompose, Hps, Hsens.
    apply importProviders_export; [done|done|done|].
    cbn [store loopStart]. by rewrite serviceProviders_afterPlainSections.
Qed.
End round_trip.

(** A lone surrogate is not restored by the codec. *)
Definition loneSurrogate : jsstring := [0xD800%N].

(** A registry whose official provider does not use the proxy. *)
Definition registryWithoutProxy : AppSettings :=
  setProviderProxyUsage (lit "claude_official") false registryWithToken.

(** C2, amended.  The codec is the identity on every well-formed UTF-16
    string, the empty one included.  Take a registry in which the provider
    ids are distinct; every account is of its provider's kind; within a
    provider the natural keys are distinct; every authorization and API key
    is well-formed UTF-16; the official provider, if any, has the id
    [claude_official]; every third-party provider holds at least one
    account; and every third-party account has a non-empty id, name and
    base URL.  Its export with sensitive data, imported into a registry
    without providers, succeeds and gives the same providers in the same
    order, each with the id, the type and the accounts of the original.
    Every field of every account is the original's, except that an empty
    authorization comes back absent and an absent description comes back
    empty.  The name, the proxy flag and the active account of a provider
    are not read from the document: the proxy flag comes back [true]; an
    official provider comes back named [Claude Official], its active account
    the email of its first account (the empty string if an account has an
    empty email); a third-party provider comes back with the name and, as
    its active account, the id of its first account. *)
Theorem C2_export_then_import :
  (∀ x, wellFormed x = true → decodeData (encodeData x) = x)
  ∧ (∀ s fresh now,
        registryRoundTrips s →
        serviceProviders fresh = [] →
        success (importSettings (Parsed (exportData now true s)) fresh).1 = true
        ∧ Forall2 reproduces
            (serviceProviders s)
            (serviceProviders
               (importSettings (Parsed (exportData now true s)) fresh).2)).
Proof.
  split; [apply decodeData_encodeData|].
  intros s fresh now Hs Hfresh.
  apply (import_of_export true reimportedClaude reimportedThirdParty);
    try done.
  - apply emailAddress_reimportedClaude.
  - apply import_export_claude_list.
  - apply validAccounts_export.
Qed.

(** A registry with an official and a third-party provider. *)
Definition sampleRegistry : AppSettings :=
  addThirdPartyAccount (lit "third_party_1") (sampleThirdParty "k1" "secret")
    registryWithToken.

Lemma sampleRegistry_providers :
  serviceProviders sampleRegistry
  = [ {| sp_id := lit "claude_official";
         sp_type := claude_official;
         sp_name := lit "Claude Official";
         accounts := [Official (sampleAccount "a@x.com" (Some "T"%string))];
         activeAccountId := Some (lit "a@x.com");
         useProxy := true |};
      {| sp_id := lit "third_party_1";
         sp_type := third_party;
         sp_name := lit "Gateway";
         accounts := [ThirdParty (sampleThirdParty "k1" "secret")];
         activeAccountId := Some (lit "k1");
         useProxy := true |} ].
Proof. vm_compute. reflexivity. Qed.

Lemma sampleRegistry_roundTrips : registryRoundTrips sampleRegistry.
Proof.
  unfold registryRoundTrips. rewrite sampleRegistry_providers. split.
  - apply (bool_decide_unpack _). vm_compute. reflexivity.
  - constructor; [|constructor; [|constructor]].
    + split_and!.
      * constructor; [|constructor]. intros x Hx. injection Hx as <-.
        vm_compute. reflexivity.
      * apply (bool_decide_unpack _). vm_compute. reflexivity.
      * reflexivity.
    + split_and!.
      * constructor; [|constructor]. vm_compute. done.
      * apply (bool_decide_unpack _). vm_compute. reflexivity.
      * discriminate.
Defined.

Lemma C2_witness :
  Forall2 reproduces
    (serviceProviders sampleRegistry)
    (serviceProviders
       (importSettings
          (Parsed (exportData (lit "2025-01-01T00:00:00.000Z") true sampleRegistry))
          defaultSettings).2).
Proof.
  apply (proj2 C2_export_then_import sampleRegistry defaultSettings).
  - exact sampleRegistry_roundTrips.
  - reflexivity.
Defined.

(** C2 as stated fails twice.  The proxy flag of a provider is not a field
    the import restores: exported as [false], it comes back [true].  And
    the codec turns a lone surrogate into U+FFFD. *)
Lemma C2_counterexample :
  let s' :=
    (importSettings
       (Parsed (exportData (lit "2025-01-01T00:00:00.000Z") true
                           registryWithoutProxy))
       defaultSettings).2 in
  (useProxy <$> serviceProviders registryWithoutProxy) = [false]
  ∧ (useProxy <$> serviceProviders s') = [true]
  ∧ decodeData (encodeData loneSurrogate) = [0xFFFD%N]
  ∧ decodeData (encodeData loneSurrogate) ≠ loneSurrogate.
Proof.
  split_and!; [vm_compute; reflexivity..|vm_compute; discriminate].
Qed.

(** * Further properties of the registry *)

(** ** Provider ids *)

Lemma addServiceProvider_ids provider s :
  NoDup (sp_id <$> serviceProviders s) →
  NoDup (sp_id <$> serviceProviders (addServiceProvider provider s)).
Proof.
  intros Hnd.
  destruct (addServiceProvider_cases provider s) as [(i & old & Hf & ->)|[Hf ->]].
  - apply list_find_Some in Hf as (Hi & Hold & _).
    rewrite list_fmap_insert, list_insert_id; [done|].
    by rewrite list_lookup_fmap, Hi, <- Hold.
  - rewrite fmap_app. apply NoDup_app. split_and!; [done| |apply NoDup_singleton].
    intros x Hx Hx'. apply list_elem_of_singleton in Hx' as ->.
    apply list_elem_of_fmap in Hx as (q & Hq & Hin).
    apply list_find_None in Hf. rewrite Forall_forall in Hf.
    by apply (Hf q).
Qed.

Lemma removeServiceProvider_providers pid s :
  serviceProviders (removeServiceProvider pid s)
  = filter (λ p, sp_id p ≠ pid) (serviceProviders s).
Proof. unfold removeServiceProvider. by case_decide. Qed.

Lemma removeServiceProvider_ids pid s :
  NoDup (sp_id <$> serviceProviders s) →
  NoDup (sp_id <$> serviceProviders (removeServiceProvider pid s)).
Proof.
  rewrite removeServiceProvider_providers. intros Hnd.
  eapply sublist_NoDup; [exact Hnd|].
  apply fmap_sublist, sublist_filter.
Qed.

Lemma perform_ids c s :
  NoDup (sp_id <$> serviceProviders s) →
  NoDup (sp_id <$> serviceProviders (perform c s)).
Proof.
  intros Hnd. destruct c; simpl.
  - by apply addServiceProvider_ids.
  - by apply removeServiceProvider_ids.
  - done.
  - unfold setActiveAccount. destruct (findProviderById _ _); [|done].
    simpl. by apply addServiceProvider_ids.
  - unfold setProviderProxyUsage. destruct (findProviderById _ _); [|done].
    by apply addServiceProvider_ids.
  - by apply addServiceProvider_ids.
  - unfold updateClaudeAccountAuthorization.
    destruct (findClaudeProvider _); [|done].
    destruct (list_find _ _) as [[i [a|a]]|]; [|done..].
    by apply addServiceProvider_ids.
  - by apply addServiceProvider_ids.
  - unfold removeThirdPartyAccount. destruct (findProviderById _ _); [|done].
    by apply addServiceProvider_ids.
Qed.

(** X1.  No sequence of mutator calls, whatever its arguments, gives two
    providers the same id: from a registry with distinct provider ids, every
    call sequence leads to a registry with distinct provider ids. *)
Theorem X1_provider_ids_stay_distinct (calls : list Call) (s : AppSettings) :
  NoDup (sp_id <$> serviceProviders s) →
  NoDup (sp_id <$> serviceProviders (performAll calls s)).
Proof.
  revert s. induction calls as [|c calls IH]; intros s Hnd; [done|].
  simpl. apply IH. by apply perform_ids.
Qed.

Lemma X1_witness :
  NoDup (sp_id <$> serviceProviders (performAll sampleCalls defaultSettings)).
Proof.
  apply X1_provider_ids_stay_distinct. constructor.
Defined.



(** ** Upsert, removal and lookup of providers *)

(** X3.  [addServiceProvider] is an upsert by id: afterwards a lookup of
    the provider's id finds the provider that was given, a lookup of any
    other id finds what it found before, and the list has grown by one
    exactly when no provider had that id. *)
Theorem X3_addServiceProvider_upserts (provider : ServiceProvider) (s : AppSettings) :
  findProviderById (sp_id provider)
    (serviceProviders (addServiceProvider provider s)) = Some provider
  ∧ (∀ pid, pid ≠ sp_id provider →
       findProviderById pid (serviceProviders (addServiceProvider provider s))
       = findProviderById pid (serviceProviders s))
  ∧ length (serviceProviders (addServiceProvider provider s))
    = match findProviderById (sp_id provider) (serviceProviders s) with
      | Some _ => length (serviceProviders s)
      | None => S (length (serviceProviders s))
      end.
Proof.
  split_and!.
  - apply findProviderById_add.
  - intros pid Hne. by apply findProviderById_add_ne.
  - unfold findProviderById.
    destruct (addServiceProvider_cases provider s) as [(i & old & Hf & ->)|[Hf ->]];
      rewrite Hf; simpl.
    + apply length_insert.
    + rewrite length_app. simpl. lia.
Qed.

Lemma X3_witness :
  findProviderById (lit "third_party_1")
    (serviceProviders (addServiceProvider newClaudeProvider sampleRegistry))
  = findProviderById (lit "third_party_1") (serviceProviders sampleRegistry).
Proof.
  apply (proj1 (proj2 (X3_addServiceProvider_upserts newClaudeProvider sampleRegistry))).
  discriminate.
Defined.

Lemma findProviderById_cons pid p (l : list ServiceProvider) :
  findProviderById pid (p :: l)
  = if decide (sp_id p = pid) then Some p else findProviderById pid l.
Proof.
  unfold findProviderById. simpl. case_decide; [done|].
  by destruct (list_find _ l) as [[j y]|].
Qed.

Lemma findProviderById_filter pid pid' (l : list ServiceProvider) :
  pid' ≠ pid →
  findProviderById pid' (filter (λ p, sp_id p ≠ pid) l) = findProviderById pid' l.
Proof.
  intros Hne. induction l as [|p l IH]; [done|].
  destruct (decide (sp_id p = pid)) as [Hp|Hp].
  - rewrite filter_cons_False by (intros H; by apply H).
    rewrite findProviderById_cons, decide_False by congruence. exact IH.
  - rewrite filter_cons_True by done. rewrite !findProviderById_cons.
    case_decide; [done|exact IH].
Qed.

(** X4.  [removeServiceProvider] leaves no provider of that id, and a
    lookup of any other id finds what it found before.  If the removed id
    was the active one, the active id becomes the empty string, and the
    active provider is then absent unless some provider has the empty
    string as its id; otherwise the active id is untouched. *)
Theorem X4_removeServiceProvider_clears_pointer (pid : jsstring) (s : AppSettings) :
  findProviderById pid (serviceProviders (removeServiceProvider pid s)) = None
  ∧ (∀ pid', pid' ≠ pid →
       findProviderById pid' (serviceProviders (removeServiceProvider pid s))
       = findProviderById pid' (serviceProviders s))
  ∧ (activeServiceProviderId s = pid →
       activeServiceProviderId (removeServiceProvider pid s) = []
       ∧ (Forall (λ p, sp_id p ≠ []) (serviceProviders s) →
          getActiveServiceProvider (removeServiceProvider pid s) = None))
  ∧ (activeServiceProviderId s ≠ pid →
       activeServiceProviderId (removeServiceProvider pid s)
       = activeServiceProviderId s
       ∧ getActiveServiceProvider (removeServiceProvider pid s)
         = getActiveServiceProvider s).
Proof.
  assert (Hgone : findProviderById pid
                    (filter (λ p, sp_id p ≠ pid) (serviceProviders s)) = None).
  { unfold findProviderById.
    rewrite (proj2 (list_find_None _ _)); [done|].
    apply Forall_forall. by intros p [? _]%list_elem_of_filter. }
  split_and!.
  - by rewrite removeServiceProvider_providers.
  - intros pid' Hne. rewrite removeServiceProvider_providers.
    by apply findProviderById_filter.
  - intros Hact. unfold removeServiceProvider, getServiceProviders. simpl.
    rewrite decide_True by done. split; [done|].
    intros Hids. unfold getActiveServiceProvider, getServiceProviders. simpl.
    unfold findProviderById.
    rewrite (proj2 (list_find_None _ _)); [done|].
    apply Forall_forall. intros p [_ Hp]%list_elem_of_filter.
    rewrite Forall_forall in Hids. by apply Hids.
  - intros Hact. unfold removeServiceProvider, getServiceProviders. simpl.
    rewrite decide_False by done. split; [done|].
    unfold getActiveServiceProvider, getServiceProviders. simpl.
    by apply findProviderById_filter.
Qed.

Lemma X4_witness :
  getActiveServiceProvider
    (removeServiceProvider (lit "claude_official")
       (setActiveAccount (lit "claude_official") (lit "a@x.com") registryWithToken))
  = None.
Proof.
  apply (proj1 (proj2 (proj2 (X4_removeServiceProvider_clears_pointer _ _)))).
  - reflexivity.
  - repeat constructor. discriminate.
Defined.

(** ** Third-party accounts *)

Lemma activateFirst_idem p : activateFirst (activateFirst p) = activateFirst p.
Proof.
  unfold activateFirst at 2.
  destruct (truthy (activeAccountId p)) eqn:E; simpl.
  - unfold activateFirst. by rewrite E.
  - destruct (accounts p) as [|first rest] eqn:El.
    + unfold activateFirst. by rewrite E, El.
    + unfold activateFirst. simpl. rewrite El.
      rewrite E. by destruct (truthy (acc_id first)).
Qed.

Lemma upsertThirdParty_idem account l :
  upsertThirdParty account (upsertThirdParty account l)
  = upsertThirdParty account l.
Proof.
  destruct (upsertThirdParty_find account l) as [i Hi].
  unfold upsertThirdParty at 1. rewrite Hi.
  apply list_insert_id. by apply list_find_Some in Hi as (? & _).
Qed.

Lemma set_serviceProviders_same s : set_serviceProviders (serviceProviders s) s = s.
Proof. by destruct s. Qed.

(** X5.  [addThirdPartyAccount] is idempotent: the same account upserted
    twice under the same provider id gives the registry that one call
    gives. *)
Theorem X5_addThirdPartyAccount_idempotent
    (pid : jsstring) (account : ThirdPartyAccount) (s : AppSettings) :
  addThirdPartyAccount pid account (addThirdPartyAccount pid account s)
  = addThirdPartyAccount pid account s.
Proof.
  set (s1 := addThirdPartyAccount pid account s).
  set (p1 := updatedThirdPartyProvider pid account s).
  pose proof (findProviderById_addThirdPartyAccount pid account s) as Hfind.
  fold s1 p1 in Hfind.
  assert (Hp : updatedThirdPartyProvider pid account s1 = p1).
  { unfold updatedThirdPartyProvider at 1.
    unfold thirdPartyProviderOrNew, getServiceProviders. rewrite Hfind. simpl.
    unfold p1 at 1 2. rewrite accounts_updatedThirdPartyProvider.
    rewrite upsertThirdParty_idem, <- accounts_updatedThirdPartyProvider.
    fold p1. rewrite with_accounts_same.
    unfold p1, updatedThirdPartyProvider. apply activateFirst_idem. }
  unfold addThirdPartyAccount at 1. rewrite Hp.
  unfold addServiceProvider, getServiceProviders.
  unfold findProviderById in Hfind.
  replace (sp_id p1) with pid by (symmetry; apply sp_id_updatedThirdPartyProvider).
  apply fmap_Some in Hfind as ([i q] & Hf & Hq). simpl in Hq. subst q.
  rewrite Hf. rewrite list_insert_id.
  - apply set_serviceProviders_same.
  - by apply list_find_Some in Hf as (? & _).
Qed.

Lemma upsertThirdParty_ids account l :
  NoDup (acc_id <$> l) → NoDup (acc_id <$> upsertThirdParty account l).
Proof.
  intros Hnd.
  destruct (upsertThirdParty_cases account l) as [(i & old & Hf & ->)|[Hf ->]].
  - apply list_find_Some in Hf as (Hi & Hold & _).
    rewrite list_fmap_insert, list_insert_id; [done|].
    rewrite list_lookup_fmap, Hi. simpl. by rewrite Hold.
  - rewrite fmap_app. apply NoDup_app. split_and!; [done| |apply NoDup_singleton].
    intros x Hx Hx'. apply list_elem_of_singleton in Hx' as ->.
    apply list_elem_of_fmap in Hx as (q & Hq & Hin).
    apply list_find_None in Hf. rewrite Forall_forall in Hf.
    by apply (Hf q).
Qed.

(** X6.  [addThirdPartyAccount] stores the account and keeps account ids
    distinct: afterwards the provider of that id holds the account as the
    first (and, if ids were distinct before, the only) account of its id,
    and every account it held under another id is still there. *)
Theorem X6_addThirdPartyAccount_stores
    (pid : jsstring) (account : ThirdPartyAccount) (s : AppSettings) :
  ∃ p',
    findProviderById pid (serviceProviders (addThirdPartyAccount pid account s))
    = Some p'
    ∧ (∃ i, list_find (λ acc, acc_id acc = Some (tp_id account)) (accounts p')
            = Some (i, ThirdParty account))
    ∧ (∀ p, findProviderById pid (serviceProviders s) = Some p →
         (∀ acc, acc ∈ accounts p → acc_id acc ≠ Some (tp_id account) →
                 acc ∈ accounts p')
         ∧ (NoDup (acc_id <$> accounts p) → NoDup (acc_id <$> accounts p'))).
Proof.
  exists (updatedThirdPartyProvider pid account s).
  rewrite accounts_updatedThirdPartyProvider. split_and!.
  - apply findProviderById_addThirdPartyAccount.
  - apply upsertThirdParty_find.
  - intros p Hp. unfold thirdPartyProviderOrNew, getServiceProviders.
    rewrite Hp. simpl. split.
    + intros acc Hin Hid.
      by destruct (elem_of_upsertThirdParty account _ acc Hin).
    + apply upsertThirdParty_ids.
Qed.

Lemma X6_witness :
  ∃ p',
    findProviderById (lit "third_party_1")
      (serviceProviders
         (addThirdPartyAccount (lit "third_party_1") (sampleThirdParty "k2" "other")
                               registryWithKey)) = Some p'
    ∧ NoDup (acc_id <$> accounts p').
Proof.
  destruct (X6_addThirdPartyAccount_stores (lit "third_party_1")
              (sampleThirdParty "k2" "other") registryWithKey)
    as (p' & Hp' & _ & Hkeep).
  exists p'. split; [exact Hp'|].
  apply (Hkeep (updatedThirdPartyProvider (lit "third_party_1")
                  (sampleThirdParty "k2" "secret") defaultSettings)).
  - reflexivity.
  - apply (bool_decide_unpack _). vm_compute. reflexivity.
Defined.

(** X7.  [removeThirdPartyAccount] on a provider that exists leaves it no
    account of that id and keeps every account of another id, and every
    official account, in order.  If the removed id was the active one, the
    active account becomes the first remaining account, or the empty string
    when none remains; otherwise it is untouched.  A non-empty removed id
    is never left as the active account. *)
Theorem X7_removeThirdPartyAccount_removes
    (pid accountId : jsstring) (s : AppSettings) (p : ServiceProvider) :
  findProviderById pid (serviceProviders s) = Some p →
  ∃ p',
    findProviderById pid
      (serviceProviders (removeThirdPartyAccount pid accountId s)) = Some p'
    ∧ accounts p' = filter (λ acc, acc_id acc ≠ Some accountId) (accounts p)
    ∧ (∀ acc, acc ∈ accounts p' → acc_id acc ≠ Some accountId)
    ∧ (∀ acc, acc ∈ accounts p → acc_id acc ≠ Some accountId → acc ∈ accounts p')
    ∧ (activeAccountId p = Some accountId →
       activeAccountId p'
       = match accounts p' with
         | first :: _ => acc_id first
         | [] => Some []
         end)
    ∧ (activeAccountId p ≠ Some accountId → activeAccountId p' = activeAccountId p)
    ∧ (accountId ≠ [] → activeAccountId p' ≠ Some accountId).
Proof.
  intros Hp.
  set (l' := filter (λ acc, acc_id acc ≠ Some accountId) (accounts p)).
  set (p' := if decide (activeAccountId p = Some accountId)
             then with_activeAccountId
                    (match l' with
                     | first :: _ => acc_id first
                     | [] => Some []
                     end) (with_accounts l' p)
             else with_accounts l' p).
  assert (Hacc : accounts p' = l').
  { unfold p'. by case_decide. }
  assert (Hid : sp_id p' = pid).
  { unfold p'. apply findProviderById_Some in Hp as [_ <-]. by case_decide. }
  exists p'. split_and!.
  - unfold removeThirdPartyAccount, getServiceProviders. rewrite Hp.
    fold l'. simpl. fold p'. rewrite <- Hid at 1. apply findProviderById_add.
  - done.
  - rewrite Hacc. by intros acc [? _]%list_elem_of_filter.
  - rewrite Hacc. intros acc Hin Hne. by apply list_elem_of_filter.
  - intros Hact. rewrite Hacc. unfold p'. by rewrite decide_True.
  - intros Hact. unfold p'. by rewrite decide_False.
  - intros Hne. unfold p'. case_decide as Hact; [|done]. simpl.
    destruct l' as [|first rest] eqn:El.
    + congruence.
    + assert (Hin : first ∈ l') by (rewrite El; left).
      by apply list_elem_of_filter in Hin as [? _].
Qed.

Lemma X7_witness :
  ∃ p',
    findProviderById (lit "third_party_1")
      (serviceProviders
         (removeThirdPartyAccount (lit "third_party_1") (lit "k2") registryWithKey))
    = Some p'
    ∧ accounts p' = [] ∧ activeAccountId p' = Some [].
Proof.
  destruct (X7_removeThirdPartyAccount_removes (lit "third_party_1") (lit "k2")
              registryWithKey
              (updatedThirdPartyProvider (lit "third_party_1")
                 (sampleThirdParty "k2" "secret") defaultSettings) eq_refl)
    as (p' & Hp' & Hacc & _ & _ & Hact & _).
  exists p'. split; [exact Hp'|].
  assert (Hnil : accounts p' = []) by (rewrite Hacc; reflexivity).
  split; [exact Hnil|]. rewrite (Hact eq_refl), Hnil. reflexivity.
Defined.

(** ** The active account *)

Lemma getActiveServiceProvider_setActiveAccount pid key s p :
  findProviderById pid (serviceProviders s) = Some p →
  getActiveServiceProvider (setActiveAccount pid key s)
  = Some (with_activeAccountId (Some key) p).
Proof.
  intros Hp. unfold setActiveAccount, getServiceProviders. rewrite Hp.
  unfold getActiveServiceProvider, setActiveServiceProvider, getServiceProviders.
  simpl. pose proof Hp as [_ Hid]%findProviderById_Some.
  rewrite <- Hid at 1.
  apply (findProviderById_add (with_activeAccountId (Some key) p)).
Qed.

(** X8.  [setActiveAccount] on a provider that exists makes it the active
    provider, and [getCurrentActiveAccount] then resolves the key: it
    returns the provider with the first account that bears the key under
    the provider's kind, and it returns nothing, without failing, when the
    key is empty or borne by no account. *)
Theorem X8_setActiveAccount_then_resolve
    (pid key : jsstring) (s : AppSettings) (p : ServiceProvider) :
  findProviderById pid (serviceProviders s) = Some p →
  activeServiceProviderId (setActiveAccount pid key s) = pid
  ∧ (∀ i acc,
       nonempty key = true →
       list_find (λ acc, naturalKey (sp_type p) acc = Some key) (accounts p)
       = Some (i, acc) →
       getCurrentActiveAccount (setActiveAccount pid key s)
       = Some (with_activeAccountId (Some key) p, acc))
  ∧ (list_find (λ acc, naturalKey (sp_type p) acc = Some key) (accounts p) = None →
     getCurrentActiveAccount (setActiveAccount pid key s) = None)
  ∧ (key = [] → getCurrentActiveAccount (setActiveAccount pid key s) = None).
Proof.
  intros Hp.
  pose proof (getActiveServiceProvider_setActiveAccount pid key s p Hp) as Hact.
  split_and!.
  - unfold setActiveAccount, getServiceProviders. by rewrite Hp.
  - intros i acc Hkey Hf. unfold getCurrentActiveAccount. rewrite Hact. simpl.
    rewrite Hkey. simpl. by rewrite Hf.
  - intros Hf. unfold getCurrentActiveAccount. rewrite Hact. simpl.
    destruct (nonempty key); [|done]. simpl. by rewrite Hf.
  - intros ->. unfold getCurrentActiveAccount. by rewrite Hact.
Qed.

Lemma X8_witness :
  getCurrentActiveAccount
    (setActiveAccount (lit "claude_official") (lit "a@x.com") registryWithToken)
  = Some (updatedClaudeProvider [sampleAccount "a@x.com" (Some "T"%string)]
                                defaultSettings,
          Official (sampleAccount "a@x.com" (Some "T"%string))).
Proof.
  apply (proj1 (proj2 (X8_setActiveAccount_then_resolve
                         (lit "claude_official") (lit "a@x.com") registryWithToken
                         (updatedClaudeProvider
                            [sampleAccount "a@x.com" (Some "T"%string)]
                            defaultSettings) eq_refl)) 0);
    reflexivity.
Defined.

(** X9.  In a registry where every active account key names an account,
    [getCurrentActiveAccount] returns nothing only
    when no provider is active or the active provider has no active
    account; and what it returns is always the active provider with one of
    its own accounts, the one its key names. *)
Theorem X9_active_account_resolves (s : AppSettings) :
  (∀ p acc,
      getCurrentActiveAccount s = Some (p, acc) →
      getActiveServiceProvider s = Some p
      ∧ acc ∈ accounts p
      ∧ naturalKey (sp_type p) acc = activeAccountId p
      ∧ truthy (activeAccountId p) = true)
  ∧ (registryOk s →
     getCurrentActiveAccount s = None →
     getActiveServiceProvider s = None
     ∨ ∃ p, getActiveServiceProvider s = Some p
            ∧ truthy (activeAccountId p) = false).
Proof.
  split.
  - intros p acc H. unfold getCurrentActiveAccount in H.
    destruct (getActiveServiceProvider s) as [q|]; [|done].
    destruct (truthy (activeAccountId q)) eqn:Et; [|done]. simpl in H.
    destruct (list_find _ _) as [[i x]|] eqn:Ef; [|done].
    injection H as <- <-.
    apply list_find_Some in Ef as (Hi & Hx & _).
    split_and!; [done|by eapply list_elem_of_lookup_2|done|done].
  - intros Hok H. unfold getCurrentActiveAccount in H.
    destruct (getActiveServiceProvider s) as [q|] eqn:Eq; [|by left].
    right. exists q. split; [done|].
    destruct (truthy (activeAccountId q)) eqn:Et; [|done]. simpl in H.
    destruct (list_find _ _) as [[i x]|] eqn:Ef; [done|].
    apply list_find_None in Ef. rewrite Forall_forall in Ef.
    destruct (registryOk_find _ _ _ Hok Eq) as [Hempty|(acc & Hin & Hkey)];
      [congruence|].
    by destruct (Ef acc Hin).
Qed.

Lemma X9_witness :
  getActiveServiceProvider registryWithToken = None
  ∨ ∃ p, getActiveServiceProvider registryWithToken = Some p
         ∧ truthy (activeAccountId p) = false.
Proof.
  apply (proj2 (X9_active_account_resolves registryWithToken)).
  - apply (registryOk_perform
             (UpdateClaudeAccounts [sampleAccount "a@x.com" (Some "T"%string)])
             defaultSettings); [constructor|exact I].
  - reflexivity.
Defined.

(** ** The proxy flag *)

(** X10.  [shouldUseProxyForCurrentProvider] is [true] when the active id
    names no provider.  After [setProviderProxyUsage pid b] it is [b] when
    [pid] is the active id and names a provider, and it is what it was when
    [pid] is not the active id. *)
Theorem X10_proxy_flag_of_the_active_provider
    (pid : jsstring) (b : bool) (s : AppSettings) :
  (getActiveServiceProvider s = None → shouldUseProxyForCurrentProvider s = true)
  ∧ (activeServiceProviderId s = pid →
     is_Some (findProviderById pid (serviceProviders s)) →
     shouldUseProxyForCurrentProvider (setProviderProxyUsage pid b s) = b)
  ∧ (activeServiceProviderId s ≠ pid →
     shouldUseProxyForCurrentProvider (setProviderProxyUsage pid b s)
     = shouldUseProxyForCurrentProvider s).
Proof.
  split_and!.
  - intros H. unfold shouldUseProxyForCurrentProvider. by rewrite H.
  - intros Hact [p Hp].
    unfold setProviderProxyUsage, getServiceProviders. rewrite Hp.
    unfold shouldUseProxyForCurrentProvider, getActiveServiceProvider,
      getServiceProviders.
    destruct (addServiceProvider_others (with_useProxy b p) s) as (-> & _).
    rewrite Hact. pose proof Hp as [_ Hid]%findProviderById_Some.
    rewrite <- Hid at 1.
    by rewrite (findProviderById_add (with_useProxy b p)).
  - intros Hact. unfold setProviderProxyUsage, getServiceProviders.
    destruct (findProviderById pid (serviceProviders s)) as [p|] eqn:Hp; [|done].
    unfold shouldUseProxyForCurrentProvider, getActiveServiceProvider,
      getServiceProviders.
    destruct (addServiceProvider_others (with_useProxy b p) s) as (-> & _).
    rewrite findProviderById_add_ne; [done|].
    apply findProviderById_Some in Hp as [_ Hid]. simpl. congruence.
Qed.

Lemma X10_witness :
  shouldUseProxyForCurrentProvider
    (setProviderProxyUsage (lit "claude_official") false
       (setActiveServiceProvider (lit "claude_official") registryWithToken))
  = false.
Proof.
  apply (proj1 (proj2 (X10_proxy_flag_of_the_active_provider _ _ _))).
  - reflexivity.
  - eexists. reflexivity.
Defined.

(** ** Credentials of official accounts *)

(** X11.  After [updateClaudeAccountAuthorization email token], where the
    official provider has an account of that email, a search by that token
    finds an account whose authorization is the token; it is the account of
    that email, with its other fields unchanged, unless an account stored
    before it already bore the token.  The accounts keep their slots and
    emails. *)
Theorem X11_authorization_update_then_find
    (email token : jsstring) (s : AppSettings) (p : ServiceProvider)
    (i : nat) (a : ClaudeAccount) :
  findClaudeProvider (serviceProviders s) = Some p →
  list_find (λ acc, acc_emailAddress acc = Some email) (accounts p)
  = Some (i, Official a) →
  let s' := updateClaudeAccountAuthorization email token s in
  findClaudeProvider (serviceProviders s')
  = Some (with_accounts
            (<[i := Official (with_authorization (Some token) a)]> (accounts p)) p)
  ∧ (∃ found, findClaudeAccountByAuthorization token s' = Some found
              ∧ acc_authorization found = Some token)
  ∧ ((∀ j x, accounts p !! j = Some x → j < i → acc_authorization x ≠ Some token) →
     findClaudeAccountByAuthorization token s'
     = Some (Official (with_authorization (Some token) a))).
Proof.
  intros Hp Hf s'.
  set (p' := with_accounts
               (<[i := Official (with_authorization (Some token) a)]> (accounts p)) p).
  assert (Hs' : s' = addServiceProvider p' s).
  { unfold s', updateClaudeAccountAuthorization, getServiceProviders.
    by rewrite Hp, Hf. }
  assert (Hfind : findClaudeProvider (serviceProviders s') = Some p').
  { rewrite Hs'. apply findClaudeProvider_add.
    - by apply findClaudeProvider_Some in Hp as [_ ?].
    - by rewrite (claudeProviderOrNew_found s p Hp). }
  pose proof Hf as (Hi & _ & _)%list_find_Some.
  assert (Hlt : i < length (accounts p)) by eauto using lookup_lt_Some.
  split_and!.
  - done.
  - unfold findClaudeAccountByAuthorization, getServiceProviders. rewrite Hfind.
    destruct (list_find_elem_of (λ acc, acc_authorization acc = Some token)
                (accounts p') (Official (with_authorization (Some token) a)))
      as [[j found] Hj].
    + apply list_elem_of_lookup. exists i. by apply list_lookup_insert_eq.
    + done.
    + rewrite Hj. exists found. split; [done|].
      by apply list_find_Some in Hj as (_ & ? & _).
  - intros Hbefore.
    unfold findClaudeAccountByAuthorization, getServiceProviders. rewrite Hfind.
    unfold p'. simpl. rewrite list_find_insert_here; [done|done|done|].
    intros j y Hj Hji. by apply (Hbefore j).
Qed.

Lemma X11_witness :
  findClaudeAccountByAuthorization (lit "Bearer 1")
    (updateClaudeAccountAuthorization (lit "a@x.com") (lit "Bearer 1")
                                      registryWithToken)
  = Some (Official (sampleAccount "a@x.com" (Some "Bearer 1"%string))).
Proof.
  apply (proj2 (proj2 (X11_authorization_update_then_find
                         (lit "a@x.com") (lit "Bearer 1") registryWithToken
                         (updatedClaudeProvider
                            [sampleAccount "a@x.com" (Some "T"%string)]
                            defaultSettings)
                         0 (sampleAccount "a@x.com" (Some "T"%string))
                         eq_refl eq_refl))).
  intros j x _ Hj. inversion Hj.
Defined.

(** X12.  A mutator that addresses a provider or an account that does not
    exist changes nothing: neither the providers nor the active provider. *)
Theorem X12_lookup_miss_changes_nothing (s : AppSettings) :
  (∀ pid key, findProviderById pid (serviceProviders s) = None →
              setActiveAccount pid key s = s)
  ∧ (∀ pid b, findProviderById pid (serviceProviders s) = None →
              setProviderProxyUsage pid b s = s)
  ∧ (∀ pid accountId, findProviderById pid (serviceProviders s) = None →
                      removeThirdPartyAccount pid accountId s = s)
  ∧ (∀ email token, findClaudeProvider (serviceProviders s) = None →
                    updateClaudeAccountAuthorization email token s = s)
  ∧ (∀ email token p,
       findClaudeProvider (serviceProviders s) = Some p →
       Forall (λ acc, acc_emailAddress acc ≠ Some email) (accounts p) →
       updateClaudeAccountAuthorization email token s = s)
  ∧ (∀ pid, findProviderById pid (serviceProviders s) = None →
            pid ≠ activeServiceProviderId s →
            removeServiceProvider pid s = s).
Proof.
  split_and!.
  - intros pid key H. unfold setActiveAccount, getServiceProviders. by rewrite H.
  - intros pid b H. unfold setProviderProxyUsage, getServiceProviders.
    by rewrite H.
  - intros pid accountId H. unfold removeThirdPartyAccount, getServiceProviders.
    by rewrite H.
  - intros email token H.
    unfold updateClaudeAccountAuthorization, getServiceProviders. by rewrite H.
  - intros email token p Hp Hall.
    unfold updateClaudeAccountAuthorization, getServiceProviders. rewrite Hp.
    by rewrite (proj2 (list_find_None _ _) Hall).
  - intros pid H Hact. unfold removeServiceProvider, getServiceProviders.
    assert (Hsame : filter (λ p, sp_id p ≠ pid) (serviceProviders s)
                    = serviceProviders s).
    { unfold findProviderById in H.
      destruct (list_find _ _) as [[j y]|] eqn:E; [done|].
      apply list_find_None in E. clear H.
      induction E as [|q l Hq _ IH]; [done|].
      rewrite filter_cons_True by done. by rewrite IH. }
    rewrite Hsame, set_serviceProviders_same.
    rewrite decide_False by congruence. done.
Qed.

Lemma X12_witness :
  setActiveAccount (lit "nowhere") (lit "a@x.com") registryWithToken
  = registryWithToken.
Proof.
  apply (proj1 (X12_lookup_miss_changes_nothing registryWithToken)). reflexivity.
Defined.

(** ** More on the merge of official accounts *)

Lemma mergeAccount_emails l a :
  NoDup (acc_emailAddress <$> l) → NoDup (acc_emailAddress <$> mergeAccount l a).
Proof.
  intros Hnd.
  destruct (mergeAccount_cases l a) as [(i & e & Hf & ->)|[Hf ->]].
  - apply list_find_Some in Hf as (Hi & He & _).
    rewrite list_fmap_insert, list_insert_id; [done|].
    rewrite list_lookup_fmap, Hi. simpl. by rewrite He.
  - rewrite fmap_app. apply NoDup_app. split_and!; [done| |apply NoDup_singleton].
    intros x Hx Hx'. apply list_elem_of_singleton in Hx' as ->.
    apply list_elem_of_fmap in Hx as (q & Hq & Hin).
    apply list_find_None in Hf. rewrite Forall_forall in Hf.
    by apply (Hf q).
Qed.

Lemma mergeAccounts_emails l incoming :
  NoDup (acc_emailAddress <$> l) →
  NoDup (acc_emailAddress <$> mergeAccounts l incoming).
Proof.
  revert l. induction incoming as [|a incoming IH]; intros l Hnd; [done|].
  rewrite mergeAccounts_cons. by apply IH, mergeAccount_emails.
Qed.

(** X13.  [updateClaudeAccounts] never stores two accounts of one email:
    if the emails of the official provider's accounts are distinct before
    the call (or there is no official provider), they are distinct after
    it, even when the incoming list repeats an email. *)
Theorem X13_merge_keeps_emails_distinct
    (incoming : list ClaudeAccount) (s : AppSettings) :
  (∀ p, findClaudeProvider (serviceProviders s) = Some p →
        NoDup (acc_emailAddress <$> accounts p)) →
  ∃ p',
    findClaudeProvider (serviceProviders (updateClaudeAccounts incoming s))
    = Some p'
    ∧ NoDup (acc_emailAddress <$> accounts p').
Proof.
  intros Hnd. exists (updatedClaudeProvider incoming s).
  split; [apply findClaudeProvider_updateClaudeAccounts|].
  rewrite accounts_updatedClaudeProvider. apply mergeAccounts_emails.
  unfold claudeProviderOrNew, getServiceProviders.
  destruct (findClaudeProvider (serviceProviders s)) as [p|] eqn:E; simpl.
  - by apply Hnd.
  - constructor.
Qed.

Lemma X13_witness :
  ∃ p',
    findClaudeProvider
      (serviceProviders
         (updateClaudeAccounts
            [sampleAccount "b@x.com" None; sampleAccount "b@x.com" None]
            defaultSettings)) = Some p'
    ∧ NoDup (acc_emailAddress <$> accounts p').
Proof.
  apply X13_merge_keeps_emails_distinct. intros p Hp. discriminate Hp.
Defined.

Lemma mergeAccount_keeps_token l a i x :
  l !! i = Some x → truthy (acc_authorization x) = true →
  ∃ x', mergeAccount l a !! i = Some x'
        ∧ acc_authorization x' = acc_authorization x
        ∧ acc_emailAddress x' = acc_emailAddress x.
Proof.
  intros Hi Ht.
  destruct (mergeAccount_cases l a) as [(j & e & Hf & ->)|[Hf ->]].
  - apply list_find_Some in Hf as (Hj & He & _).
    destruct (decide (j = i)) as [->|Hne].
    + rewrite list_lookup_insert_eq by eauto using lookup_lt_Some.
      simplify_eq. eexists. split; [done|]. simpl. unfold js_or.
      by rewrite Ht.
    + rewrite list_lookup_insert_ne by done. eauto.
  - exists x. split; [by apply lookup_app_l_Some|done].
Qed.

Lemma mergeAccounts_keeps_token l incoming i x :
  l !! i = Some x → truthy (acc_authorization x) = true →
  ∃ x', mergeAccounts l incoming !! i = Some x'
        ∧ acc_authorization x' = acc_authorization x
        ∧ acc_emailAddress x' = acc_emailAddress x.
Proof.
  revert l x. induction incoming as [|a incoming IH]; intros l x Hi Ht; [eauto|].
  rewrite mergeAccounts_cons.
  destruct (mergeAccount_keeps_token l a i x Hi Ht) as (x1 & H1 & Ea & Ee).
  destruct (IH _ x1 H1) as (x2 & H2 & Ea2 & Ee2); [congruence|].
  exists x2. split; [done|]. split; congruence.
Qed.

(** X14.  A non-empty stored authorization survives every merge: whatever
    [updateClaudeAccounts] is given, an account of the official provider
    that has a non-empty authorization keeps its slot, its email and that
    authorization. *)
Theorem X14_stored_token_survives_merge
    (incoming : list ClaudeAccount) (s : AppSettings) (p : ServiceProvider)
    (i : nat) (x : Account) :
  findClaudeProvider (serviceProviders s) = Some p →
  accounts p !! i = Some x →
  truthy (acc_authorization x) = true →
  ∃ p' x',
    findClaudeProvider (serviceProviders (updateClaudeAccounts incoming s))
    = Some p'
    ∧ accounts p' !! i = Some x'
    ∧ acc_authorization x' = acc_authorization x
    ∧ acc_emailAddress x' = acc_emailAddress x.
Proof.
  intros Hp Hi Ht.
  destruct (mergeAccounts_keeps_token (accounts p) incoming i x Hi Ht)
    as (x' & Hx' & Ha & He).
  exists (updatedClaudeProvider incoming s), x'.
  rewrite accounts_updatedClaudeProvider, (claudeProviderOrNew_found s p Hp).
  split; [apply findClaudeProvider_updateClaudeAccounts|done].
Qed.

Lemma X14_witness :
  ∃ p' x',
    findClaudeProvider
      (serviceProviders
         (updateClaudeAccounts [sampleAccount "a@x.com" (Some "U"%string)]
                               registryWithToken)) = Some p'
    ∧ accounts p' !! 0 = Some x'
    ∧ acc_authorization x' = Some (lit "T")
    ∧ acc_emailAddress x' = Some (lit "a@x.com").
Proof.
  apply (X14_stored_token_survives_merge
           [sampleAccount "a@x.com" (Some "U"%string)] registryWithToken
           (updatedClaudeProvider [sampleAccount "a@x.com" (Some "T"%string)]
                                  defaultSettings)
           0 (Official (sampleAccount "a@x.com" (Some "T"%string))));
    reflexivity.
Defined.

(** ** Refreshing the detected account *)

Lemma reassignActive_singleton a active :
  reassignActive [a] active = emailAddress a.
Proof.
  unfold reassignActive. simpl. case_decide as H; [|done]. by rewrite H.
Qed.

(** X15.  [refreshClaudeAccounts] with a detected account returns it and
    makes it the active account of the official provider, where it is
    stored with its fields (its authorization aside, which is kept from an
    account of the same email).  With no configuration file that can be
    read, or none with an account, it returns nothing, deletes nothing and
    leaves the official provider without active account. *)
Theorem X15_refresh (s : AppSettings) :
  (∀ a,
      let '(found, s') := refreshClaudeAccounts (ConfigParsed (Some a)) s in
      found = [a]
      ∧ ∃ p' i v,
          findClaudeProvider (serviceProviders s') = Some p'
          ∧ activeAccountId p' = emailAddress a
          ∧ accounts p' !! i = Some (Official (with_authorization v a)))
  ∧ (∀ file,
       file = ConfigUnreadable ∨ file = ConfigParsed None →
       let '(found, s') := refreshClaudeAccounts file s in
       found = []
       ∧ ∃ p',
           findClaudeProvider (serviceProviders s') = Some p'
           ∧ activeAccountId p' = Some []
           ∧ accounts p' = accounts (claudeProviderOrNew s)).
Proof.
  split.
  - intros a. simpl. split; [done|].
    destruct (mergeAccount_stores (accounts (claudeProviderOrNew s)) a)
      as (i & v & Hi).
    exists (updatedClaudeProvider [a] s), i, v. split_and!.
    + apply findClaudeProvider_updateClaudeAccounts.
    + rewrite activeAccountId_updatedClaudeProvider.
      apply reassignActive_singleton.
    + by rewrite accounts_updatedClaudeProvider.
  - intros file [-> | ->]; simpl; (split; [done|]);
      exists (updatedClaudeProvider [] s);
      (split_and!; [apply findClaudeProvider_updateClaudeAccounts|done|done]).
Qed.

Lemma X15_witness :
  let '(found, s') := refreshClaudeAccounts ConfigUnreadable registryWithToken in
  found = []
  ∧ ∃ p',
      findClaudeProvider (serviceProviders s') = Some p'
      ∧ activeAccountId p' = Some []
      ∧ accounts p' = accounts (claudeProviderOrNew registryWithToken).
Proof.
  apply (proj2 (X15_refresh registryWithToken) ConfigUnreadable). by left.
Defined.

(** * Further properties of export and import *)

(** An element of an [accounts] array that is an account object and
    carries no secret. *)
Definition withoutSecret (e : DocAccount) : Prop :=
  match e with
  | DocOfficial a => authorization a = None
  | DocThirdParty a => d_apiKey a = None
  | DocNull => False
  end.

(** X16.  An export without sensitive data holds no secret: the document
    says so, its proxy section has no [auth], and every provider entry is an
    object whose [accounts] is an array of account objects without
    [authorization] and without [apiKey]. *)
Theorem X16_export_without_sensitive_data (now : jsstring) (s : AppSettings) :
  let d := exportData now false s in
  includeSensitiveData d = Some false
  ∧ ∃ ds pc entries,
      settings d = Some ds
      ∧ ds_proxyConfig ds = Some pc
      ∧ auth pc = None
      ∧ ds_serviceProviders ds = Some entries
      ∧ Forall (λ e, ∃ p l, e = ProviderEntry p
                            ∧ dp_accounts p = Some (AccountsArray l)
                            ∧ Forall withoutSecret l)
               entries.
Proof.
  simpl. split; [done|]. eexists _, _, _.
  split_and!; [done|done|done|done|].
  induction (serviceProviders s) as [|p ps IH]; simpl; constructor; [|done].
  eexists _, _. split; [done|]. split; [done|].
  induction (accounts p) as [|acc l IHl]; simpl; constructor; [|done].
  by destruct (sp_type p), acc.
Qed.

(** The parts of the store an import of providers cannot reach. *)
Definition sameOutsideRegistry (s s' : AppSettings) : Prop :=
  activeServiceProviderId s' = activeServiceProviderId s
  ∧ activeProviderId s' = activeProviderId s
  ∧ apiProviders s' = apiProviders s
  ∧ proxyConfig s' = proxyConfig s
  ∧ terminal s' = terminal s
  ∧ projectFilter s' = projectFilter s.

Lemma sameOutsideRegistry_addServiceProvider provider s :
  sameOutsideRegistry s (addServiceProvider provider s).
Proof.
  unfold sameOutsideRegistry, addServiceProvider.
  by destruct (list_find _ _) as [[i old]|].
Qed.

Lemma sameOutsideRegistry_trans s1 s2 s3 :
  sameOutsideRegistry s1 s2 → sameOutsideRegistry s2 s3 →
  sameOutsideRegistry s1 s3.
Proof.
  unfold sameOutsideRegistry.
  intros (?&?&?&?&?&?) (?&?&?&?&?&?). split_and!; congruence.
Qed.

Lemma sameOutsideRegistry_refl s : sameOutsideRegistry s s.
Proof. by unfold sameOutsideRegistry. Qed.

Lemma sameOutsideRegistry_importProviders sensitive st providers :
  sameOutsideRegistry (store st)
    (store (foldl (importProvider sensitive) st providers)).
Proof.
  apply (importProviders_invariant (λ s', sameOutsideRegistry (store st) s')).
  - intros incoming s' H. eapply sameOutsideRegistry_trans; [exact H|].
    apply sameOutsideRegistry_addServiceProvider.
  - intros pid a s' _ H. eapply sameOutsideRegistry_trans; [exact H|].
    apply sameOutsideRegistry_addServiceProvider.
  - apply sameOutsideRegistry_refl.
Qed.

Lemma outside_importSections sensitive ds s :
  sameOutsideRegistry (afterPlainSections sensitive ds s)
                      (importSections sensitive ds s).1.
Proof.
  rewrite importSections_decompose.
  destruct (ds_serviceProviders ds) as [providers|];
    [|apply sameOutsideRegistry_refl].
  apply (sameOutsideRegistry_importProviders sensitive (loopStart _)).
Qed.

Lemma importSettings_rejected d s :
  settings d = None ∨ truthy (version d) = false →
  (importSettings (Parsed d) s).2 = s.
Proof.
  intros H. simpl. unfold importDocument.
  destruct (settings d) as [ds|]; [|done].
  destruct H as [H | H]; [done|]. by rewrite H.
Qed.

(** X17.  An import is additive, whether it succeeds, is refused or fails
    part-way.  It never changes which provider is active, nor the
    deprecated provider list and pointer; and a section the document lacks
    leaves its part of the store as it is: without [proxyConfig] the proxy
    settings, without [terminal] the terminal settings, without
    [projectFilter] the filter, without [serviceProviders] the providers. *)
Theorem X17_import_is_additive (file : FileContent) (s : AppSettings) :
  let s' := (importSettings file s).2 in
  activeServiceProviderId s' = activeServiceProviderId s
  ∧ activeProviderId s' = activeProviderId s
  ∧ apiProviders s' = apiProviders s
  ∧ ∀ d ds,
      file = Parsed d → settings d = Some ds →
      (ds_proxyConfig ds = None → proxyConfig s' = proxyConfig s)
      ∧ (ds_terminal ds = None → terminal s' = terminal s)
      ∧ (ds_projectFilter ds = None → projectFilter s' = projectFilter s)
      ∧ (ds_serviceProviders ds = None → serviceProviders s' = serviceProviders s).
Proof.
  destruct file as [message|d]; cbn zeta.
  { split_and!; try done. all: intros d ds Hd; discriminate Hd. }
  destruct (settings d) as [ds|] eqn:Eds.
  2:{ rewrite (importSettings_rejected d s) by auto.
      split_and!; try done. all: intros d' ds' [= <-] Hd; congruence. }
  destruct (truthy (version d)) eqn:Ev.
  2:{ rewrite (importSettings_rejected d s) by auto.
      split_and!; try done. }
  rewrite (importSettings_store d ds s Eds Ev).
  set (sensitive := hasSensitiveData d).
  set (s3 := afterPlainSections sensitive ds s).
  assert (H3 : activeServiceProviderId s3 = activeServiceProviderId s
               ∧ activeProviderId s3 = activeProviderId s
               ∧ apiProviders s3 = apiProviders s
               ∧ serviceProviders s3 = serviceProviders s
               ∧ (ds_proxyConfig ds = None → proxyConfig s3 = proxyConfig s)
               ∧ (ds_terminal ds = None → terminal s3 = terminal s)
               ∧ (ds_projectFilter ds = None → projectFilter s3 = projectFilter s)).
  { unfold s3, afterPlainSections.
    destruct (ds_proxyConfig ds), (ds_terminal ds), (ds_projectFilter ds);
      simpl; split_and!; done. }
  destruct H3 as (Ha & Hb & Hc & Hsp & Hpc & Hte & Hpf).
  destruct (outside_importSections sensitive ds s)
    as (Ha' & Hb' & Hc' & Hpc' & Hte' & Hpf').
  fold s3 in Ha', Hb', Hc', Hpc', Hte', Hpf'.
  split_and!; [congruence..|].
  intros d' ds' [= <-] Hd. rewrite Eds in Hd. injection Hd as <-.
  split_and!.
  - intros H. rewrite Hpc'. auto.
  - intros H. rewrite Hte'. auto.
  - intros H. rewrite Hpf'. auto.
  - intros H. rewrite importSections_decompose, H. exact Hsp.
Qed.

(** A document with a terminal section and nothing else. *)
Definition terminalOnly : DocSettings :=
  {| ds_proxyConfig := None;
     ds_terminal := Some (terminal defaultSettings);
     ds_projectFilter := None;
     ds_serviceProviders := None |}.

Definition terminalDocument : Document :=
  {| version := Some (lit "1.0.0");
     timestamp := [];
     includeSensitiveData := None;
     settings := Some terminalOnly |}.

Lemma X17_witness :
  serviceProviders (importSettings (Parsed terminalDocument) registryWithToken).2
  = serviceProviders registryWithToken.
Proof.
  apply (proj2 (proj2 (proj2 (X17_import_is_additive (Parsed terminalDocument)
                                registryWithToken)))
           terminalDocument terminalOnly eq_refl eq_refl).
  reflexivity.
Defined.

(** ** What an import reports *)

(** X18.  The import of an accepted document fails exactly when a provider
    entry makes the loop throw: a [null] entry, an official entry whose
    [accounts] is truthy but no array, a third-party entry whose [accounts]
    is truthy but cannot be iterated, or an [accounts] array with a [null]
    element.  The result is then [success: false] with the [TypeError] of
    the first such entry, and no [imported] list.  Otherwise the import
    succeeds and reports one label per section present, in the order proxy,
    terminal, project filter, and then one accounts label that counts
    every element of the official entries' arrays and every valid object of
    the third-party entries'; there is no accounts label when that count is
    zero. *)
Theorem X18_import_report (d : Document) (ds : DocSettings) (s : AppSettings) :
  settings d = Some ds → truthy (version d) = true →
  ∃ info,
    (importSettings (Parsed d) s).1
    = match documentFault ds with
      | Some fault =>
          {| success := false; error := Some (TypeErrorThrown fault);
             imported := None |}
      | None =>
          {| success := true;
             error := None;
             imported :=
               Some (plainLabels (hasSensitiveData d) ds
                     ++ match ds_serviceProviders ds with
                        | Some providers =>
                            let n := sum_list (countedEntries <$> providers) in
                            if 0 <? n then [AccountsImported n info] else []
                        | None => []
                        end) |}
      end.
Proof. apply importSettings_result. Qed.

Lemma X18_witness :
  ∃ info,
    (importSettings (Parsed (sampleDocument (Some (lit "1.0.0")))) defaultSettings).1
    = {| success := true; error := None;
         imported := Some [AccountsImported 1 info] |}.
Proof.
  destruct (X18_import_report (sampleDocument (Some (lit "1.0.0")))
              {| ds_proxyConfig := None; ds_terminal := None;
                 ds_projectFilter := None;
                 ds_serviceProviders := Some sampleProviders |}
              defaultSettings eq_refl eq_refl) as [info H].
  exists info. exact H.
Defined.

(** A document with the providers [entries] in place of its own. *)
Definition withProviders (entries : list DocEntry) (d : Document) : Document :=
  {| version := version d;
     timestamp := timestamp d;
     includeSensitiveData := includeSensitiveData d;
     settings :=
       (λ ds, {| ds_proxyConfig := ds_proxyConfig ds;
                 ds_terminal := ds_terminal ds;
                 ds_projectFilter := ds_projectFilter ds;
                 ds_serviceProviders := Some entries |})
         <$> settings d |}.

(** X25.  A failed import is not rolled back.  When the first entry to
    make the loop throw is a [null] provider entry, the import returns
    [success: false], and its store is the one the import of the document
    cut before that entry gives: the proxy, terminal and project-filter
    sections and every entry before the [null] are applied. *)
Theorem X25_failed_import_keeps_its_writes
    (d : Document) (ds : DocSettings) (s : AppSettings)
    (pre post : list DocEntry) :
  settings d = Some ds → truthy (version d) = true →
  ds_serviceProviders ds = Some (pre ++ NullEntry :: post) →
  firstFault pre = None →
  importSettings (Parsed d) s
  = ({| success := false; error := Some (TypeErrorThrown NullProvider);
        imported := None |},
     (importSettings (Parsed (withProviders pre d)) s).2)
  ∧ success (importSettings (Parsed (withProviders pre d)) s).1 = true.
Proof.
  intros Hs Hv Hps Hpre.
  pose (ds' := {| ds_proxyConfig := ds_proxyConfig ds;
                  ds_terminal := ds_terminal ds;
                  ds_projectFilter := ds_projectFilter ds;
                  ds_serviceProviders := Some pre |}).
  assert (Hs' : settings (withProviders pre d) = Some ds').
  { unfold withProviders. simpl. by rewrite Hs. }
  assert (Hafter : ∀ sensitive,
             afterPlainSections sensitive ds' s = afterPlainSections sensitive ds s).
  { done. }
  split.
  - apply injective_projections.
    + destruct (importSettings_result d ds s Hs Hv) as [info ->].
      unfold documentFault. rewrite Hps. simpl.
      rewrite (firstFault_app pre) by done. by rewrite firstFault_cons.
    + cbn [snd].
      rewrite (importSettings_store d ds s Hs Hv).
      rewrite (importSettings_store _ ds' s Hs' Hv).
      rewrite !importSections_decompose, Hps. cbn [ds_serviceProviders ds'].
      change (hasSensitiveData (withProviders pre d)) with (hasSensitiveData d).
      rewrite Hafter, foldl_app. cbn [foldl].
      set (st1 := foldl _ _ pre).
      assert (H1 : thrown st1 = None).
      { unfold st1. by rewrite importProviders_fault. }
      unfold importProvider at 2. rewrite H1.
      by rewrite (importProviders_thrown _ _ _ NullProvider).
  - destruct (importSettings_result _ ds' s Hs' Hv) as [info ->].
    unfold documentFault. simpl. by rewrite Hpre.
Qed.

(** A document whose proxy section is followed by a [null] provider
    entry. *)
Definition nullEntryDocument : Document :=
  {| version := Some (lit "1.0.0");
     timestamp := [];
     includeSensitiveData := Some false;
     settings :=
       Some {| ds_proxyConfig :=
                 Some {| enabled := Some true; url := None; auth := None |};
               ds_terminal := None;
               ds_projectFilter := None;
               ds_serviceProviders :=
                 Some (sampleProviders ++ [NullEntry]) |} |}.

Lemma X25_witness :
  importSettings (Parsed nullEntryDocument) defaultSettings
  = ({| success := false; error := Some (TypeErrorThrown NullProvider);
        imported := None |},
     (importSettings (Parsed (withProviders sampleProviders nullEntryDocument))
                     defaultSettings).2).
Proof.
  apply (X25_failed_import_keeps_its_writes nullEntryDocument
           {| ds_proxyConfig :=
                Some {| enabled := Some true; url := None; auth := None |};
              ds_terminal := None;
              ds_projectFilter := None;
              ds_serviceProviders := Some (sampleProviders ++ [NullEntry]) |}
           defaultSettings sampleProviders []);
    reflexivity.
Defined.

(** After the failed import of [nullEntryDocument] the proxy is enabled and
    the account [k2] is stored. *)
Example failed_import_has_written :
  let '(r, s) := importSettings (Parsed nullEntryDocument) defaultSettings in
  success r = false
  ∧ enabled (proxyConfig defaultSettings) = Some false
  ∧ enabled (proxyConfig s) = Some true
  ∧ (accounts <$> serviceProviders s)
    = [[ThirdParty {| tp_id := lit "k2"; tp_name := lit "Gateway"; apiKey := [];
                      baseUrl := lit "https://b"; description := Some [] |}]].
Proof. split_and!; reflexivity. Qed.

(** ** Sections other than the providers *)

Lemma afterPlainSections_proxy sensitive ds s pc :
  ds_proxyConfig ds = Some pc →
  proxyConfig (afterPlainSections sensitive ds s)
  = proxyConfig (importProxySection sensitive pc s).
Proof.
  intros H. unfold afterPlainSections. rewrite H.
  by destruct (ds_terminal ds), (ds_projectFilter ds).
Qed.

Lemma proxyConfig_importSections sensitive ds s :
  proxyConfig (importSections sensitive ds s).1
  = proxyConfig (afterPlainSections sensitive ds s).
Proof.
  by destruct (outside_importSections sensitive ds s) as (_ & _ & _ & ? & _).
Qed.

(** X19.  The proxy section of an accepted document replaces [enabled] and
    [url] by the document's values, missing ones included.  The stored
    credentials are kept unless the document declares sensitive data and
    its proxy section has an [auth] object, which is then decoded and
    stored. *)
Theorem X19_import_of_the_proxy_section
    (d : Document) (ds : DocSettings) (pc : ProxyConfig) (s : AppSettings) :
  settings d = Some ds → truthy (version d) = true →
  ds_proxyConfig ds = Some pc →
  let s' := (importSettings (Parsed d) s).2 in
  enabled (proxyConfig s') = enabled pc
  ∧ url (proxyConfig s') = url pc
  ∧ (hasSensitiveData d = false ∨ auth pc = None →
     auth (proxyConfig s') = auth (proxyConfig s))
  ∧ (∀ a, hasSensitiveData d = true → auth pc = Some a →
          auth (proxyConfig s')
          = Some {| username := Some (decodeData (or_empty (username a)));
                    password := Some (decodeData (or_empty (password a))) |}).
Proof.
  intros Hs Hv Hpc. cbn zeta.
  rewrite (importSettings_store d ds s Hs Hv), proxyConfig_importSections.
  rewrite (afterPlainSections_proxy _ _ _ _ Hpc).
  unfold importProxySection, updateProxyConfig. simpl. split_and!; [done|done| |].
  - intros [-> | ->]; [done|]. by destruct (hasSensitiveData d).
  - intros a -> ->. done.
Qed.

Lemma X19_witness :
  let d := {| version := Some (lit "1.0.0");
              timestamp := [];
              includeSensitiveData := Some false;
              settings :=
                Some {| ds_proxyConfig :=
                          Some {| enabled := Some true; url := None;
                                  auth := None |};
                        ds_terminal := None;
                        ds_projectFilter := None;
                        ds_serviceProviders := None |} |} in
  url (proxyConfig (importSettings (Parsed d) defaultSettings).2) = None.
Proof.
  intros d.
  apply (proj1 (proj2 (X19_import_of_the_proxy_section d
                         {| ds_proxyConfig :=
                              Some {| enabled := Some true; url := None;
                                      auth := None |};
                            ds_terminal := None;
                            ds_projectFilter := None;
                            ds_serviceProviders := None |}
                         {| enabled := Some true; url := None; auth := None |}
                         defaultSettings eq_refl eq_refl eq_refl))).
Defined.

(** X20.  [setSkipPermissions b] followed by [getSkipPermissions] gives
    [b]; the other terminal settings and the rest of the store are
    untouched.  Without a stored value [getSkipPermissions] is [true]. *)
Theorem X20_skip_permissions (b : bool) (s : AppSettings) :
  getSkipPermissions (setSkipPermissions b s) = b
  ∧ fontSize (terminal (setSkipPermissions b s)) = fontSize (terminal s)
  ∧ fontFamily (terminal (setSkipPermissions b s)) = fontFamily (terminal s)
  ∧ theme (terminal (setSkipPermissions b s)) = theme (terminal s)
  ∧ set_terminal (terminal s) (setSkipPermissions b s) = s
  ∧ (skipPermissions (terminal s) = None → getSkipPermissions s = true).
Proof.
  unfold getSkipPermissions, setSkipPermissions, updateTerminalConfig.
  destruct s as [pc aps apid sps aspid [fs ff th sk] pf]. simpl.
  split_and!.
  - by destruct sk.
  - by destruct fs.
  - by destruct ff.
  - by destruct th.
  - done.
  - by intros ->.
Qed.

Lemma X20_witness :
  getSkipPermissions
    (set_terminal {| fontSize := None; fontFamily := None; theme := None;
                     skipPermissions := None |} defaultSettings) = true.
Proof.
  apply (proj2 (proj2 (proj2 (proj2 (proj2 (X20_skip_permissions true _)))))).
  reflexivity.
Defined.

Lemma existsb_same_test (name : jsstring) (patterns : list jsstring) :
  existsb (λ pattern,
             if startsWithDot pattern && startsWithDot name
             then bool_decide (name = pattern)
             else bool_decide (name = pattern)) patterns
  = bool_decide (name ∈ patterns).
Proof.
  induction patterns as [|pattern patterns IH]; [done|].
  simpl. rewrite IH.
  assert (Htest : (if startsWithDot pattern && startsWithDot name
                   then bool_decide (name = pattern)
                   else bool_decide (name = pattern))
                  = bool_decide (name = pattern)).
  { by destruct (startsWithDot pattern && startsWithDot name). }
  rewrite Htest. apply eq_true_iff_eq.
  rewrite orb_true_iff, !bool_decide_eq_true, elem_of_cons. tauto.
Qed.

(** X21.  [shouldHideDirectory] hides a directory exactly when the base
    name of its path is one of the configured names: the test on a leading
    dot changes nothing, no pattern is ever matched as a prefix or a
    wildcard.  The call throws when the configured list is missing. *)
Theorem X21_hidden_directories
    (basename : jsstring → jsstring) (directoryPath : jsstring) (s : AppSettings) :
  shouldHideDirectory basename directoryPath s
  = (λ patterns, bool_decide (basename directoryPath ∈ patterns))
      <$> hiddenDirectories (projectFilter s).
Proof.
  unfold shouldHideDirectory, getProjectFilterConfig.
  destruct (hiddenDirectories (projectFilter s)) as [patterns|]; [|done].
  simpl. f_equal. rewrite existsb_same_test. by destruct (bool_decide _).
Qed.

(** X22.  The import of a document that [exportSettings] wrote is always
    accepted, with or without sensitive data, and reports the proxy, the
    terminal and the project-filter section first.  The proxy's [enabled]
    and [url] become those of the exporting store; each terminal setting
    and the list of hidden directories become those of the exporting store
    where it had them, and stay as they were in the importing store
    otherwise. *)
Theorem X22_import_of_an_export
    (now : jsstring) (includeSensitive : bool) (s fresh : AppSettings) :
  let r := importSettings (Parsed (exportData now includeSensitive s)) fresh in
  success r.1 = true
  ∧ (∃ rest,
       imported r.1
       = Some ([ProxyImported includeSensitive; TerminalImported;
                ProjectFilterImported] ++ rest))
  ∧ enabled (proxyConfig r.2) = enabled (proxyConfig s)
  ∧ url (proxyConfig r.2) = url (proxyConfig s)
  ∧ terminal r.2
    = {| fontSize := fontSize (terminal s) ∪ fontSize (terminal fresh);
         fontFamily := fontFamily (terminal s) ∪ fontFamily (terminal fresh);
         theme := theme (terminal s) ∪ theme (terminal fresh);
         skipPermissions :=
           skipPermissions (terminal s) ∪ skipPermissions (terminal fresh) |}
  ∧ hiddenDirectories (projectFilter r.2)
    = hiddenDirectories (projectFilter s) ∪ hiddenDirectories (projectFilter fresh).
Proof.
  set (d := exportData now includeSensitive s).
  assert (Hsens : hasSensitiveData d = includeSensitive)
    by (by destruct includeSensitive).
  destruct (settings d) as [ds|] eqn:Eds; [|done].
  assert (Hds : ds = {| ds_proxyConfig :=
                          Some {| enabled := enabled (proxyConfig s);
                                  url := url (proxyConfig s);
                                  auth :=
                                    if includeSensitive
                                    then (λ a, {| username := Some (encodeData (or_empty (username a)));
                                                  password := Some (encodeData (or_empty (password a))) |})
                                           <$> auth (proxyConfig s)
                                    else None |};
                        ds_terminal := Some (terminal s);
                        ds_projectFilter := Some (projectFilter s);
                        ds_serviceProviders :=
                          Some (map (exportEntry includeSensitive)
                                    (serviceProviders s)) |}).
  { by injection Eds as <-. }
  destruct (importSettings_result d ds fresh Eds eq_refl) as [info Hreport].
  assert (Hfault : documentFault ds = None).
  { rewrite Hds. unfold documentFault. simpl. apply firstFault_export. }
  rewrite Hfault in Hreport.
  pose proof (outside_importSections (hasSensitiveData d) ds fresh)
    as (_ & _ & _ & Hpc & Hte & Hpf).
  rewrite <- (importSettings_store d ds fresh Eds eq_refl) in Hpc, Hte, Hpf.
  cbn zeta. rewrite Hreport, Hpc, Hte, Hpf, Hsens, Hds.
  split_and!; [done| |done..].
  eexists. cbn [imported]. unfold plainLabels. cbn. reflexivity.
Qed.

(** ** Export without sensitive data, then import *)

(** An account as a document without sensitive data brings it back: no
    authorization, an empty API key. *)
Definition strippedThirdParty (t : ThirdPartyAccount) : ThirdPartyAccount :=
  {| tp_id := tp_id t;
     tp_name := tp_name t;
     apiKey := [];
     baseUrl := baseUrl t;
     description := Some (or_empty (description t)) |}.

Definition strippedAccount (acc : Account) : Account :=
  match acc with
  | Official a => Official (with_authorization None a)
  | ThirdParty t => ThirdParty (strippedThirdParty t)
  end.

(** Without sensitive data, the accounts come back as [strippedAccount]
    gives them. *)
Definition reproducesStripped (p p' : ServiceProvider) : Prop :=
  rebuiltAs strippedAccount p p'.

Lemma import_export_plain_claude cs :
  mapM (importClaudeAccount false) (map (exportClaudeAccount false) (Official <$> cs))
  = Some (with_authorization None <$> cs).
Proof.
  induction cs as [|a cs IH]; [done|].
  cbn [fmap list_fmap map mapM] in *. rewrite IH. done.
Qed.

Lemma validAccounts_export_plain ts :
  Forall (λ t, accountRoundTrips third_party (ThirdParty t)) ts →
  validAccounts false (map (exportThirdPartyAccount false) (ThirdParty <$> ts))
  = strippedThirdParty <$> ts.
Proof.
  induction 1 as [|t ts (_ & Hid & Hname & Hurl) _ IH]; [done|].
  cbn [fmap list_fmap map]. rewrite validAccounts_cons.
  cbn [exportThirdPartyAccount]. unfold validThirdParty.
  cbn [d_id d_name d_baseUrl truthy].
  rewrite Hid, Hname, Hurl. cbn [andb]. f_equal. exact IH.
Qed.

(** X23.  Take a registry in which the provider ids are distinct; every
    account is of its provider's kind; within a provider the natural keys
    are distinct; every authorization and API key is well-formed UTF-16;
    the official provider, if any, has the id [claude_official]; every
    third-party provider holds at least one account; and every third-party
    account has a non-empty id, name and base URL.  Its export without
    sensitive data, imported into a registry without providers, gives the
    same providers in the same order, each with the id, the type and the
    accounts of the original, every account with its public fields and
    without its secret: no authorization, an empty API key (and an empty
    description where there was none).  The proxy flag, the name and the
    active account of a provider are set as by any import into an empty
    registry: [true]; [Claude Official] and the first email for the
    official provider; the name and the id of the first account for a
    third-party provider. *)
Theorem X23_export_without_secrets_then_import
    (now : jsstring) (s fresh : AppSettings) :
  registryRoundTrips s →
  serviceProviders fresh = [] →
  Forall2 reproducesStripped
    (serviceProviders s)
    (serviceProviders (importSettings (Parsed (exportData now false s)) fresh).2).
Proof.
  intros Hs Hfresh.
  apply (import_of_export false (with_authorization None) strippedThirdParty);
    try done.
  - intros cs _. apply import_export_plain_claude.
  - apply validAccounts_export_plain.
Qed.

Lemma X23_witness :
  Forall2 reproducesStripped
    (serviceProviders sampleRegistry)
    (serviceProviders
       (importSettings (Parsed (exportData [] false sampleRegistry))
                       defaultSettings).2).
Proof.
  apply X23_export_without_secrets_then_import.
  - exact sampleRegistry_roundTrips.
  - reflexivity.
Defined.

(** ** Stored official credentials and the import *)

(** The official provider holds, in slot [i], an account of email [em]
    whose authorization is [tok]. *)
Definition holdsToken (i : nat) (em tok : option jsstring) (s : AppSettings) : Prop :=
  ∃ p x,
    findClaudeProvider (serviceProviders s) = Some p
    ∧ accounts p !! i = Some x
    ∧ acc_authorization x = tok
    ∧ acc_emailAddress x = em.

Lemma holdsToken_updateClaudeAccounts i em tok incoming s :
  truthy tok = true →
  holdsToken i em tok s → holdsToken i em tok (updateClaudeAccounts incoming s).
Proof.
  intros Ht (p & x & Hp & Hi & Ha & He).
  destruct (mergeAccounts_keeps_token (accounts p) incoming i x Hi)
    as (x' & Hx' & Ha' & He'); [by rewrite Ha|].
  exists (updatedClaudeProvider incoming s), x'.
  rewrite accounts_updatedClaudeProvider, (claudeProviderOrNew_found s p Hp).
  split_and!; [apply findClaudeProvider_updateClaudeAccounts|done|congruence..].
Qed.

Lemma upsertThirdParty_lookup_official account l i c :
  l !! i = Some (Official c) →
  upsertThirdParty account l !! i = Some (Official c).
Proof.
  intros Hi.
  destruct (upsertThirdParty_cases account l) as [(j & old & Hf & ->)|[Hf ->]].
  - apply list_find_Some in Hf as (Hj & Hold & _).
    rewrite list_lookup_insert_ne; [done|]. intros ->. by simplify_eq.
  - by apply lookup_app_l_Some.
Qed.

Lemma holdsToken_addThirdPartyAccount i em tok pid account s :
  truthy tok = true →
  holdsToken i em tok s → holdsToken i em tok (addThirdPartyAccount pid account s).
Proof.
  intros Ht (p & x & Hp & Hi & Ha & He).
  pose proof (findClaudeProvider_addThirdPartyAccount pid account s) as H.
  rewrite Hp in H. destruct H as [H|[Hfind H]].
  - by exists p, x.
  - destruct x as [c|t]; [|by rewrite <- Ha in Ht].
    exists (updatedThirdPartyProvider pid account s), (Official c).
    split_and!; [done| |done|done].
    rewrite accounts_updatedThirdPartyProvider.
    unfold thirdPartyProviderOrNew, getServiceProviders. rewrite Hfind. simpl.
    by apply upsertThirdParty_lookup_official.
Qed.

(** X24.  No import changes or drops a non-empty stored authorization: an
    account of the official provider that has one keeps its slot, its email
    and that authorization through the import of any file, with or without
    sensitive data, whether the import succeeds, is refused or fails
    part-way.  (A stored third-party API key is not kept when the
    document brings an account of the same id.) *)
Theorem X24_import_keeps_stored_tokens
    (file : FileContent) (s : AppSettings) (p : ServiceProvider)
    (i : nat) (x : Account) :
  findClaudeProvider (serviceProviders s) = Some p →
  accounts p !! i = Some x →
  truthy (acc_authorization x) = true →
  ∃ p' x',
    findClaudeProvider (serviceProviders (importSettings file s).2) = Some p'
    ∧ accounts p' !! i = Some x'
    ∧ acc_authorization x' = acc_authorization x
    ∧ acc_emailAddress x' = acc_emailAddress x.
Proof.
  intros Hp Hi Ht.
  apply (importSettings_invariant
           (holdsToken i (acc_emailAddress x) (acc_authorization x))).
  - intros s0 s' Heq (p0 & x0 & Hp0 & Hrest). exists p0, x0.
    by rewrite Heq.
  - intros incoming s0. by apply holdsToken_updateClaudeAccounts.
  - intros sensitive pid a s0 _. by apply holdsToken_addThirdPartyAccount.
  - by exists p, x.
Qed.

(** A document with one official entry for the sample email, followed by
    a [null] entry; no sensitive data. *)
Definition officialDocument : Document :=
  {| version := Some (lit "1.0.0");
     timestamp := [];
     includeSensitiveData := Some false;
     settings :=
       Some {| ds_proxyConfig := None; ds_terminal := None;
               ds_projectFilter := None;
               ds_serviceProviders :=
                 Some [ProviderEntry
                         {| dp_id := lit "claude_official";
                            dp_type := Some claude_official;
                            dp_name := lit "Claude Official";
                            dp_useProxy := true;
                            dp_activeAccountId := None;
                            dp_accounts :=
                              Some (AccountsArray
                                      [DocOfficial (sampleAccount "a@x.com" None)]) |};
                       NullEntry] |} |}.

Lemma X24_witness :
  ∃ p' x',
    findClaudeProvider
      (serviceProviders (importSettings (Parsed officialDocument) registryWithToken).2)
    = Some p'
    ∧ accounts p' !! 0 = Some x'
    ∧ acc_authorization x' = Some (lit "T")
    ∧ acc_emailAddress x' = Some (lit "a@x.com").
Proof.
  apply (X24_import_keeps_stored_tokens (Parsed officialDocument) registryWithToken
           (updatedClaudeProvider [sampleAccount "a@x.com" (Some "T"%string)]
                                  defaultSettings)
           0 (Official (sampleAccount "a@x.com" (Some "T"%string))));
    reflexivity.
Defined.
